(** * daily-news-rss: the crawl / dedupe / incremental-processing pipeline

    A shallow embedding of [scripts/crawl.js] and
    [scripts/process-with-llm.js], and the properties of the pipeline that
    the specification states about them.

    Conventions of the embedding.
    - A JavaScript string is its sequence of UTF-16 code units, [list Z];
      [+] on strings is [++], [charCodeAt] is list lookup.
    - A JavaScript number that the code only uses as an integer is a [Z];
      the 32-bit operators spell out [ToInt32].
    - Built-ins whose result is decided by large external tables or by the
      outside world are parameters of the development: the Unicode case
      mapping [toLowerCase], the WHATWG URL parser behind [new URL(..)],
      the relevance filter and the classifier models.
    - A field that the code only ever hands to [new Date(..)] is kept as
      what the [Date] constructor makes of it (see [DateField]).
    - Every read of the wall clock is an explicit argument. *)

From Stdlib Require Import ZArith QArith Qround Lia Sorted.
From stdpp Require Import base list gmap sets strings.

Local Open Scope Z_scope.

(** ** JavaScript strings and 32-bit integers *)

Abbreviation jsstring := (list Z) (only parsing).

(** Code units of an ASCII literal, for readable examples. *)
Fixpoint u16 (s : string) : jsstring :=
  match s with
  | EmptyString => []
  | String a r => Z.of_nat (Ascii.nat_of_ascii a) :: u16 r
  end.

(** [ToInt32] of an integral number: reduce modulo 2^32 into
    [-2^31, 2^31). *)
Definition ToInt32 (x : Z) : Z :=
  let m := x mod 2 ^ 32 in
  if 2 ^ 31 <=? m then m - 2 ^ 32 else m.

(** [x << k] *)
Definition shl32 (x k : Z) : Z :=
  ToInt32 (Z.shiftl (ToInt32 x) (Z.land k 31)).

(** [x & y] *)
Definition and32 (x y : Z) : Z :=
  ToInt32 (Z.land (ToInt32 x) (ToInt32 y)).

(** ** [Number.prototype.toString(36)] on a non-negative integer *)

(** The digit characters "0".."9", "a".."z". *)
Definition digit36 (d : Z) : Z :=
  if d <? 10 then 48 + d else 97 + (d - 10).

Fixpoint toString36_aux (fuel : nat) (n : Z) (acc : jsstring) : jsstring :=
  match fuel with
  | O => acc
  | S fuel' =>
      let acc' := digit36 (n mod 36) :: acc in
      if n / 36 =? 0 then acc' else toString36_aux fuel' (n / 36) acc'
  end.

(** A number below [2^k] has at most [k] digits in base 36, so the fuel
    below never runs out ([toString36_value]). *)
Definition toString36 (n : Z) : jsstring :=
  toString36_aux (S (Z.to_nat (Z.log2 n))) n [].

(** Reading a base-36 numeral back; [None] on a character that is not a
    digit. *)
Definition digit36_value (c : Z) : option Z :=
  if (48 <=? c) && (c <=? 57) then Some (c - 48)
  else if (97 <=? c) && (c <=? 122) then Some (c - 97 + 10)
  else None.

Definition parse36_step (acc : option Z) (c : Z) : option Z :=
  match acc, digit36_value c with
  | Some v, Some d => Some (v * 36 + d)
  | _, _ => None
  end.

Definition parse36 (s : jsstring) : option Z :=
  match s with
  | [] => None
  | _ => fold_left parse36_step s (Some 0)
  end.

(** ** [generateId] (crawl.js) *)

(** One turn of the loop body:
      hash = ((hash << 5) - hash) + char;  hash = hash & hash; *)
Definition hash_step (hash char : Z) : Z :=
  let hash := (shl32 hash 5 - hash) + char in
  and32 hash hash.

Definition generateId (title url : jsstring) : jsstring :=
  let content := title ++ url in
  let hash := fold_left hash_step content 0 in
  toString36 (Z.abs hash).

(** The accumulation as the specification words it: the whole of
    [(hash << 5) - hash + c], with the shift taken on the integers, is
    truncated to 32 bits signed once per character. *)
Definition spec_hash_step (hash c : Z) : Z :=
  ToInt32 ((Z.shiftl hash 5 - hash) + c).

Definition spec_hash (content : jsstring) : Z :=
  fold_left spec_hash_step content 0.

(** A canonical base-36 numeral: digits only, no leading zero except for
    the numeral "0" itself. *)
Definition canonical36 (s : jsstring) : Prop :=
  Forall (fun c => is_Some (digit36_value c)) s /\
  (s = [48] \/ exists c r, s = c :: r /\ c <> 48).

(** ** String built-ins used by the crawler *)

(** [\s] in a regular expression, and what [trim] strips: WhiteSpace and
    LineTerminator of ECMA-262. *)
Definition is_space (c : Z) : bool :=
  (c =? 9) || (c =? 10) || (c =? 11) || (c =? 12) || (c =? 13) ||
  (c =? 32) || (c =? 160) || (c =? 5760) ||
  ((8192 <=? c) && (c <=? 8202)) ||
  (c =? 8232) || (c =? 8233) || (c =? 8239) || (c =? 8287) ||
  (c =? 12288) || (c =? 65279).

(** What [.] matches (no [s] flag): anything but a line terminator. *)
Definition is_dot (c : Z) : bool :=
  negb ((c =? 10) || (c =? 13) || (c =? 8232) || (c =? 8233)).

(** [/[a-z0-9\s]/] *)
Definition is_key_char (c : Z) : bool :=
  ((97 <=? c) && (c <=? 122)) || ((48 <=? c) && (c <=? 57)) || is_space c.

(** [.replace(/\s+/g, ' ')]: every maximal run of white space becomes one
    space; [in_run] tells that the previous character was white space. *)
Fixpoint collapse_spaces (in_run : bool) (s : jsstring) : jsstring :=
  match s with
  | [] => []
  | c :: r =>
      if is_space c
      then (if in_run then collapse_spaces true r
            else 32 :: collapse_spaces true r)
      else c :: collapse_spaces false r
  end.

Fixpoint trimStart (s : jsstring) : jsstring :=
  match s with
  | [] => []
  | c :: r => if is_space c then trimStart r else s
  end.

(** [.trim()] *)
Definition trim (s : jsstring) : jsstring :=
  reverse (trimStart (reverse (trimStart s))).

(** Offset of the first [close] in [s], provided every character before
    it satisfies [inner]. *)
Fixpoint close_index (inner : Z -> bool) (close : Z) (s : jsstring)
  : option nat :=
  match s with
  | [] => None
  | c :: r =>
      if c =? close then Some O
      else if inner c then S <$> close_index inner close r
      else None
  end.

(** [.replace(/OPEN inner*? CLOSE/g, '')], left to right: a match is
    deleted and the scan resumes after it ([skip] counts the characters
    of the match still to drop); an [open] with no match stays. *)
Fixpoint remove_groups (inner : Z -> bool) (open close : Z)
    (skip : nat) (s : jsstring) : jsstring :=
  match s with
  | [] => []
  | c :: r =>
      match skip with
      | S k => remove_groups inner open close k r
      | O =>
          if c =? open then
            match close_index inner close r with
            | Some n => remove_groups inner open close (S n) r
            | None => c :: remove_groups inner open close O r
            end
          else c :: remove_groups inner open close O r
      end
  end.

(** [.replace(/<[^>]*>/g, '')] *)
Definition strip_tags (s : jsstring) : jsstring :=
  remove_groups (fun _ => true) 60 62 O s.

(** [.split(' ')] *)
Fixpoint split_space (s : jsstring) : list jsstring :=
  match s with
  | [] => [[]]
  | c :: r =>
      if c =? 32 then [] :: split_space r
      else match split_space r with
           | w :: ws => (c :: w) :: ws
           | [] => [[c]]
           end
  end.

(** [.join(' ')] *)
Fixpoint join_space (ws : list jsstring) : jsstring :=
  match ws with
  | [] => []
  | [w] => w
  | w :: ws' => w ++ 32 :: join_space ws'
  end.

(** A value that may be [undefined], tested for truthiness: a string is
    truthy when it is not empty. *)
Definition truthy_str (s : option jsstring) : bool :=
  match s with
  | Some (_ :: _) => true
  | _ => false
  end.

(** [a || b] on possibly undefined strings *)
Definition or_str (a b : option jsstring) : option jsstring :=
  if truthy_str a then a else b.

(** ** Dates *)

(** A field that is only ever passed to [new Date(..)]. *)
Inductive DateField :=
  | Absent                (* undefined or empty: falsy, Invalid Date *)
  | Null                  (* null: falsy, and [new Date(null)] is the epoch *)
  | Unparseable           (* non-empty, [new Date] gives Invalid Date *)
  | Instant (t : Z).      (* non-empty, parses to the time value [t] ms *)

Definition truthy_field (f : DateField) : bool :=
  match f with
  | Absent | Null => false
  | _ => true
  end.

(** The time value of a [Date]; [None] is NaN (Invalid Date). *)
Abbreviation jsdate := (option Z) (only parsing).

(** [new Date(field)] *)
Definition Date_of_field (f : DateField) : jsdate :=
  match f with
  | Instant t => Some t
  | Null => Some 0
  | _ => None
  end.

(** [a || b] on such fields *)
Definition or_field (a b : DateField) : DateField :=
  if truthy_field a then a else b.

(** [new Date(number)]: TimeClip *)
Definition Date_of_number (v : Z) : jsdate :=
  if Z.abs v <=? 8640000000000000 then Some v else None.

(** [a > b] and [a < b] on dates: false as soon as one side is NaN. *)
Definition date_gt (a b : jsdate) : bool :=
  match a, b with
  | Some x, Some y => y <? x
  | _, _ => false
  end.

Definition date_lt (a b : jsdate) : bool := date_gt b a.

(** [a >= b], [a <= b] *)
Definition date_ge (a b : jsdate) : bool :=
  match a, b with
  | Some x, Some y => y <=? x
  | _, _ => false
  end.

Definition date_le (a b : jsdate) : bool := date_ge b a.

(** [24 * 60 * 60 * 1000] *)
Definition day_ms : Z := 24 * 60 * 60 * 1000.

(** ** Numbers that may be NaN *)

Inductive JsNumber :=
  | NaN
  | Num (q : Q).

(** [a < b] *)
Definition num_lt (a b : JsNumber) : bool :=
  match a, b with
  | Num x, Num y => negb (Qle_bool y x)
  | _, _ => false
  end.

(** [a >= b] *)
Definition num_ge (a b : JsNumber) : bool :=
  match a, b with
  | Num x, Num y => Qle_bool y x
  | _, _ => false
  end.

(** The result of [parseInt]. *)
Inductive JsInt :=
  | IntNaN
  | Int (z : Z).

(** ** Records *)

Record Source := {
  name : jsstring;
  feed_url : jsstring;
  category : jsstring;
  priority : Z
}.

(** An item as rss-parser returns it. *)
Record RawItem := {
  item_title : option jsstring;
  link : option jsstring;
  guid : option jsstring;
  item_pubDate : DateField;
  isoDate : DateField;
  published : DateField;
  contentSnippet : option jsstring;
  content : option jsstring;
  summary : option jsstring
}.

(** An article of [latest-raw.json].  The three fields that the crawler
    writes as [null] ([category], [difficulty], [confidence]) only exist
    on the processed record below. *)
Record Article := {
  id : jsstring;
  title : jsstring;
  url : jsstring;
  source : jsstring;
  source_domain : jsstring;
  source_category : jsstring;
  source_priority : Z;
  pubDate : DateField;
  published_at : DateField;
  metaDescription : jsstring;
  crawledAt : DateField
}.

(** ** [Array.prototype.sort] with a comparator *)

(** The comparators of the pipeline subtract two dates; the difference is
    NaN ([None]) when either date is invalid, and [sort] then treats the
    pair as equal.  [sort] is stable, so for a consistent comparator its
    result is the one this insertion sort computes: that is the case
    when every date is valid.  With an invalid date among them the
    comparator is not consistent (NaN compares as equal to everything),
    the order is then left to the engine and need not be the one
    computed here: the properties below state the order of a sorted
    list only where every date is valid, and elsewhere only which
    elements it holds. *)
Definition date_diff (a b : jsdate) : option Z :=
  match a, b with
  | Some x, Some y => Some (x - y)
  | _, _ => None
  end.

Definition cmp_positive (c : option Z) : bool :=
  match c with
  | Some v => 0 <? v
  | None => false
  end.

Fixpoint sort_insert {A : Type} (cmp : A -> A -> option Z) (x : A)
    (l : list A) : list A :=
  match l with
  | [] => [x]
  | y :: r =>
      if cmp_positive (cmp x y) then y :: sort_insert cmp x r else x :: l
  end.

Definition js_sort {A : Type} (cmp : A -> A -> option Z) (l : list A)
  : list A :=
  foldr (sort_insert cmp) [] l.

(** ** Records of the processing pass (process-with-llm.js) *)

(** [{ category, confidence }] of a classification. *)
Record ClassResult := {
  res_category : jsstring;
  res_confidence : JsNumber
}.

(** Entities, difficulty and summary computed for an article. *)
Record Enrichment := {
  enr_entities : list (jsstring * jsstring);
  enr_difficulty : Z;
  enr_summary : jsstring
}.

(** [{ ...article, category, confidence, difficulty, entities, summary,
      language, processed_at }] *)
Record ProcessedArticle := {
  p_article : Article;
  p_category : jsstring;
  p_confidence : JsNumber;
  p_difficulty : Z;
  p_entities : list (jsstring * jsstring);
  p_summary : jsstring;
  p_language : jsstring;
  processed_at : DateField
}.

(** [{ ...article, rejectedReason, confidence, confidenceThreshold,
      rejected_at }] *)
Record RejectedArticle := {
  r_article : Article;
  rejectedReason : jsstring;
  r_confidence : JsNumber;
  confidenceThreshold : JsNumber;
  rejected_at : DateField
}.

(** [latest-raw.json] *)
Record RawSnapshot := {
  raw_crawledAt : DateField;
  raw_totalSources : nat;
  raw_totalArticles : nat;
  raw_aiFilterUsed : bool;
  raw_articles : list Article
}.

(** [latestData], the document of [latest-processed.json]; the two
    counters of new and kept articles are only present after a run that
    classified something. *)
Record LatestData := {
  ld_raw : RawSnapshot;                    (* ...rawData *)
  ld_articles : list ProcessedArticle;
  ld_processedAt : DateField;
  ld_totalArticles : nat;
  ld_categories : option (list jsstring);
  ld_processingMethod : jsstring;
  ld_newArticlesProcessed : option nat;
  ld_existingArticlesKept : option nat;
  cleanupApplied : bool;
  cleanedUpCount : Z;
  rollingWindowDays : Z
}.

(** [dailyData], the document of [YYYY-MM-DD-processed.json]. *)
Record DailyData := {
  dd_raw : RawSnapshot;
  dd_articles : list ProcessedArticle;
  dd_processedAt : DateField;
  dd_totalArticles : nat;
  dd_categories : option (list jsstring);
  dd_processingMethod : jsstring;
  dd_newArticlesProcessed : option nat;
  dd_dailyArticlesCount : nat;
  dd_filterDate : Z
}.

(** [rejectedOutputData], the document of [rejected-articles.json]. *)
Record RejectedData := {
  rd_articles : list RejectedArticle;
  rd_updatedAt : DateField;
  rd_totalRejected : nat;
  rd_newlyRejected : nat;
  rd_cleanupThresholdDays : JsInt;
  rd_cleanedUpCount : Z
}.

(** ** Outcome of an [async] function, and the file system *)

(** An error value; only its identity matters. *)
Abbreviation Error := string (only parsing).

Inductive Outcome (A : Type) :=
  | Fulfilled (a : A)
  | Rejected (e : Error).
Arguments Fulfilled {A} a.
Arguments Rejected {A} e.

(** The snapshot files of the data directory; the daily file is named by
    its UTC day (days since the epoch). *)
Inductive Path :=
  | LatestRaw
  | LatestProcessed
  | DailyProcessed (day : Z)
  | RejectedCache.

Inductive FileDoc :=
  | RawDoc (d : RawSnapshot)
  | LatestDoc (d : LatestData)
  | DailyDoc (d : DailyData)
  | RejectedDoc (d : RejectedData).

(** What the file system answers: [Some e] makes the call fail with
    [e]. *)
Record Disk := {
  mkdir_error : option Error;
  write_error : Path -> option Error
}.

(** An [async] computation that writes files: from the file system and
    the files written so far to its outcome and the files written.  A
    rejection ends the computation; what was written before stays. *)
Definition IO (A : Type) : Type :=
  Disk -> list (Path * FileDoc) -> Outcome A * list (Path * FileDoc).

Definition ret {A : Type} (a : A) : IO A :=
  fun _ written => (Fulfilled a, written).

(** [throw e] *)
Definition throw {A : Type} (e : Error) : IO A :=
  fun _ written => (Rejected e, written).

(** [const x = await m; k x] *)
Definition bind {A B : Type} (m : IO A) (k : A -> IO B) : IO B :=
  fun disk written =>
    match m disk written with
    | (Fulfilled a, written') => k a disk written'
    | (Rejected e, written') => (Rejected e, written')
    end.

Declare Scope io_scope.
Delimit Scope io_scope with io.
Notation "'let*' x ':=' m 'in' k" := (bind m (fun x => k))
  (at level 10, x name, m at level 100, k at level 200) : io_scope.

(** [await fs.mkdir(dir, { recursive: true })] *)
Definition mkdir : IO unit :=
  fun disk written =>
    match mkdir_error disk with
    | Some e => (Rejected e, written)
    | None => (Fulfilled tt, written)
    end.

(** [await fs.writeFile(path, JSON.stringify(doc, null, 2))] *)
Definition writeFile (path : Path) (doc : FileDoc) : IO unit :=
  fun disk written =>
    match write_error disk path with
    | Some e => (Rejected e, written)
    | None => (Fulfilled tt, written ++ [(path, doc)])
    end.

(** Lifting what was read from outside. *)
Definition await {A : Type} (o : Outcome A) : IO A :=
  match o with
  | Fulfilled a => ret a
  | Rejected e => throw e
  end.

(** Running a computation on a disk, from no file written. *)
Definition run {A : Type} (m : IO A) (disk : Disk)
  : Outcome A * list (Path * FileDoc) :=
  m disk [].

(** How the process ends: its exit code and what [console.error]
    received. *)
Record ProcessEnd := {
  exit_code : Z;
  error_logged : option Error
}.

(** ** crawl.js *)

(** [String.prototype.replace(pat, '')] with a string pattern: the first
    occurrence of [pat], wherever it is, is removed. *)
Fixpoint starts_with (pat s : jsstring) : bool :=
  match pat, s with
  | [], _ => true
  | p :: pat', c :: s' => (p =? c) && starts_with pat' s'
  | _ :: _, [] => false
  end.

Fixpoint replace_first (pat s : jsstring) : jsstring :=
  match s with
  | [] => []
  | c :: r =>
      if starts_with pat s then drop (length pat) s
      else c :: replace_first pat r
  end.

(** The clock reads made while one feed item is normalized, in program
    order. *)
Record ItemClock := {
  fallbackNow : Z;   (* [Date.now()] at the end of the [||] chain *)
  now : Z;           (* [const now = new Date()] *)
  cutoffNow : Z;     (* [Date.now()] of [cutoffDate] *)
  crawledNow : Z     (* [new Date()] of [crawledAt] *)
}.

(** What the run reads from outside: the readiness of the AI filter, the
    sources file (or the error that reading or parsing it throws), the
    feed of the k-th source ([None]: [parser.parseURL] throws), the clock
    reads of the i-th item of the k-th source, and the file system. *)
Record CrawlWorld := {
  aiFilterReady : bool;
  sourcesFile : Outcome (list Source);
  feedOf : nat -> option (list RawItem);
  clockOf : nat -> nat -> ItemClock;
  snapshotNow : Z;   (* [new Date()] of [output.crawledAt] *)
  crawl_disk : Disk
}.

Section Crawl.

(** [new URL(url).hostname]; [None] when the constructor throws. *)
Variable url_hostname : jsstring -> option jsstring.

(** [String.prototype.toLowerCase]. *)
Variable toLowerCase : jsstring -> jsstring.

(** The decision of the relevance filter of [crawlFeed] (the classifier
    or the keyword lists), from the flag [useAIFilter], the source, the
    cleaned title and the description. *)
Variable isRelevant : bool -> Source -> jsstring -> jsstring -> bool.

Definition extractDomain (url : jsstring) : jsstring :=
  match url_hostname url with
  | Some hostname => replace_first (u16 "www.") hostname
  | None => u16 "unknown"
  end.

Definition cleanTitle (title : jsstring) : jsstring :=
  trim
    (collapse_spaces false
       (remove_groups is_dot 40 41 O
          (remove_groups is_dot 91 93 O title))).

Definition is_category (source : Source) (c : string) : bool :=
  bool_decide (category source = u16 c).

Definition itemLimit (source : Source) : nat :=
  if is_category source "youtube" then 10%nat
  else if is_category source "research" then 15%nat
  else if is_category source "community" then 25%nat
  else if is_category source "medium" then 15%nat
  else if is_category source "developer" then 12%nat
  else if is_category source "agentic" then 20%nat
  else 20%nat.

Definition daysBack (source : Source) : Z :=
  if is_category source "youtube" then 14
  else if is_category source "research" then 15
  else if is_category source "community" then 3
  else if is_category source "medium" then 7
  else if is_category source "developer" then 14
  else if is_category source "tutorial" then 14
  else if is_category source "agentic" then 10
  else 7.

Definition itemDescription (item : RawItem) : jsstring :=
  if truthy_str (contentSnippet item)
  then take 200 (default [] (contentSnippet item))
  else if truthy_str (content item)
  then take 200 (strip_tags (default [] (content item)))
  else if truthy_str (summary item)
  then take 200 (strip_tags (default [] (summary item)))
  else [].

(** [new Date(item.pubDate || item.isoDate || item.published ||
    Date.now())] *)
Definition itemDate (clk : ItemClock) (item : RawItem) : jsdate :=
  if truthy_field (item_pubDate item) then Date_of_field (item_pubDate item)
  else if truthy_field (isoDate item) then Date_of_field (isoDate item)
  else if truthy_field (published item) then Date_of_field (published item)
  else Date_of_number (fallbackNow clk).

(** The date part of the loop body: validation, clamping of a future
    date to [now], and the look-back window.  [None] is [continue]. *)
Definition normalizeDate (source : Source) (clk : ItemClock)
    (item : RawItem) : option Z :=
  match itemDate clk item with
  | None => None
  | Some parsed =>
      let pubDate := if now clk <? parsed then now clk else parsed in
      let cutoffDate := Date_of_number (cutoffNow clk - daysBack source * day_ms) in
      if date_lt (Some pubDate) cutoffDate then None else Some pubDate
  end.

(** The tests of the loop body that come before the date handling: a
    non-empty cleaned title, a non-empty url, and the relevance
    filter. *)
Definition reachesDateHandling (useAIFilter : bool) (source : Source)
    (item : RawItem) : bool :=
  let title := cleanTitle (default [] (or_str (item_title item) (Some []))) in
  let url := or_str (link item) (guid item) in
  truthy_str (Some title) && truthy_str url &&
  isRelevant useAIFilter source title (itemDescription item).

(** The body of the [for (const item of items)] loop of [crawlFeed];
    [None] is [continue], [Some a] is [articles.push(a)]. *)
Definition crawlItem (useAIFilter : bool) (source : Source)
    (clk : ItemClock) (item : RawItem) : option Article :=
  let title := cleanTitle (default [] (or_str (item_title item) (Some []))) in
  let url := or_str (link item) (guid item) in
  if negb (truthy_str (Some title)) || negb (truthy_str url) then None
  else
    let url := default [] url in
    let description := itemDescription item in
    if negb (isRelevant useAIFilter source title description) then None
    else
      match normalizeDate source clk item with
      | None => None
      | Some pubDate =>
          Some {| title := title;
                  url := url;
                  source := name source;
                  source_domain := extractDomain url;
                  source_category := category source;
                  source_priority := priority source;
                  pubDate := Instant pubDate;
                  published_at := Absent;
                  metaDescription := description;
                  crawledAt := Instant (crawledNow clk);
                  id := generateId title url |}
      end.

Fixpoint crawlItems (useAIFilter : bool) (source : Source)
    (clock : nat -> ItemClock) (i : nat) (items : list RawItem)
    (articles : list Article) : list Article :=
  match items with
  | [] => articles
  | item :: rest =>
      let articles :=
        match crawlItem useAIFilter source (clock i) item with
        | Some a => articles ++ [a]
        | None => articles
        end in
      crawlItems useAIFilter source clock (S i) rest articles
  end.

(** [crawlFeed]: a feed that cannot be fetched yields no article. *)
Definition crawlFeed (useAIFilter : bool) (source : Source)
    (feed : option (list RawItem)) (clock : nat -> ItemClock)
  : list Article :=
  match feed with
  | None => []
  | Some feed_items =>
      crawlItems useAIFilter source clock O
        (take (itemLimit source) feed_items) []
  end.

(** The key of [removeDuplicates]. *)
Definition dedupKey (title : jsstring) : jsstring :=
  join_space
    (take 8
       (split_space
          (trim
             (collapse_spaces false
                (filter (fun c => is_key_char c = true)
                   (toLowerCase title)))))).

Definition removeDuplicates_step (st : list Article * gset (list Z))
    (article : Article) : list Article * gset (list Z) :=
  let '(unique, seen) := st in
  let key := dedupKey (title article) in
  if decide (key ∈ seen) then st
  else (unique ++ [article], seen ∪ {[ key ]}).

Definition removeDuplicates (articles : list Article) : list Article :=
  fst (fold_left removeDuplicates_step articles ([], ∅)).

(** [(a, b) => new Date(b.pubDate) - new Date(a.pubDate)] *)
Definition newestFirst (a b : Article) : option Z :=
  date_diff (Date_of_field (pubDate b)) (Date_of_field (pubDate a)).

(** The articles of all sources, in source order.  The sources are
    fetched in batches of five joined by [Promise.all], which keeps the
    results in the order of the sources. *)
Fixpoint crawlSources (w : CrawlWorld) (k : nat) (sources : list Source)
    (allArticles : list Article) : list Article :=
  match sources with
  | [] => allArticles
  | s :: rest =>
      crawlSources w (S k) rest
        (allArticles ++ crawlFeed (aiFilterReady w) s (feedOf w k) (clockOf w k))
  end.

(** [crawlAllSources] *)
Definition crawlAllSources (w : CrawlWorld) : IO (list Article) :=
  (let* sources := await (sourcesFile w) in
   let allArticles := crawlSources w O sources [] in
   let uniqueArticles := removeDuplicates allArticles in
   let uniqueArticles := js_sort newestFirst uniqueArticles in
   let* _ := mkdir in
   let output :=
     {| raw_crawledAt := Instant (snapshotNow w);
        raw_totalSources := length sources;
        raw_totalArticles := length uniqueArticles;
        raw_aiFilterUsed := aiFilterReady w;
        raw_articles := uniqueArticles |} in
   let* _ := writeFile LatestRaw (RawDoc output) in
   ret uniqueArticles)%io.

(** The entry point:
      crawlAllSources().then(..).catch(error => { console.error(..);
      process.exit(1) }) *)
Definition crawl_main (w : CrawlWorld) : ProcessEnd :=
  match fst (run (crawlAllSources w) (crawl_disk w)) with
  | Fulfilled _ => {| exit_code := 0; error_logged := None |}
  | Rejected e => {| exit_code := 1; error_logged := Some e |}
  end.

End Crawl.

(** ** process-with-llm.js *)

(** The environment variables the pass reads.  [None] is an unset or
    empty variable; [Some v] is a non-empty one whose [parseInt] or
    [parseFloat] is [v]. *)
Record Env := {
  PROCESSING_LIMIT : option JsInt;
  PROCESS_CONFIDENCE_THRESHOLD : option JsNumber;
  REJECTED_CACHE_CLEANUP_DAYS : option JsInt
}.

(** The clock reads of one run, in program order. *)
Record ProcessClock := {
  stampOf : nat -> Z;       (* [new Date()] in the i-th turn of the loop *)
  cleanupNow : Z;           (* [Date.now()] of [cleanupThreshold] *)
  processedAtNow : Z;       (* [latestData.processedAt] *)
  todayNow : Z;             (* [const today = new Date()...] *)
  dailyProcessedAtNow : Z;  (* [dailyData.processedAt] *)
  rejectedCleanupNow : Z;   (* [Date.now()] of the cache threshold *)
  rejectedUpdatedNow : Z    (* [rejectedOutputData.updatedAt] *)
}.

(** What the run reads from outside: [latest-raw.json] (or the error
    that reading it throws), the two optional files ([None]: reading
    throws and the default [{ articles: [] }] stays), the environment,
    whether the models loaded, the clock and the file system. *)
Record ProcessWorld := {
  rawFile : Outcome RawSnapshot;
  processedFile : option (list ProcessedArticle);
  rejectedFile : option (list RejectedArticle);
  env : Env;
  modelsLoaded : bool;
  pclock : ProcessClock;
  process_disk : Disk
}.

(** [new Date(article.pubDate || article.published_at)] *)
Definition effectiveDate (article : Article) : jsdate :=
  Date_of_field (or_field (pubDate article) (published_at article)).

(** [new Date(article.processed_at || article.crawledAt)] *)
Definition processedDate (article : ProcessedArticle) : jsdate :=
  Date_of_field (or_field (processed_at article) (crawledAt (p_article article))).

Definition cleanupThresholdDays : Z := 15.

(** The rolling cleanup:
      const cleanupThreshold = new Date(Date.now() - 15 * 24*60*60*1000);
      const recentArticles = all.filter(a => new Date(..) > cleanupThreshold);
      const cleanedUpCount = beforeCleanup - recentArticles.length;
    [nowMs] is the value [Date.now()] returned. *)
Definition cleanupThreshold (nowMs : Z) : jsdate :=
  Date_of_number (nowMs - cleanupThresholdDays * day_ms).

Definition isRecent (nowMs : Z) (article : ProcessedArticle) : bool :=
  date_gt (effectiveDate (p_article article)) (cleanupThreshold nowMs).

Definition recentArticles (nowMs : Z) (articles : list ProcessedArticle)
  : list ProcessedArticle :=
  filter (fun article => isRecent nowMs article = true) articles.

Record Cleanup := {
  cl_recentArticles : list ProcessedArticle;
  cl_cleanedUpCount : Z;
  cl_cleanupApplied : bool
}.

Definition rollingCleanup (nowMs : Z) (articles : list ProcessedArticle)
  : Cleanup :=
  let beforeCleanup := Z.of_nat (length articles) in
  let recent := recentArticles nowMs articles in
  let cleanedUpCount := beforeCleanup - Z.of_nat (length recent) in
  {| cl_recentArticles := recent;
     cl_cleanedUpCount := cleanedUpCount;
     cl_cleanupApplied := 0 <? cleanedUpCount |}.

(** The articles published or processed on the UTC day of [nowMs]. *)
Definition utcDay (nowMs : Z) : Z := nowMs / day_ms.

Definition isToday (today : Z) (article : ProcessedArticle) : bool :=
  let todayStart := Some (today * day_ms) in
  let todayEnd := Some (today * day_ms + (day_ms - 1)) in
  let pubDate := effectiveDate (p_article article) in
  let processedDate := processedDate article in
  (date_ge pubDate todayStart && date_le pubDate todayEnd) ||
  (date_ge processedDate todayStart && date_le processedDate todayEnd).

Definition todaysArticles (today : Z) (articles : list ProcessedArticle)
  : list ProcessedArticle :=
  filter (fun article => isToday today article = true) articles.

(** [[...new Set(list)]]: first occurrences, in order. *)
Fixpoint distinct (seen l : list jsstring) : list jsstring :=
  match l with
  | [] => []
  | x :: r =>
      if decide (x ∈ seen) then distinct seen r
      else x :: distinct (x :: seen) r
  end.

(** [array.slice(0, n)] *)
Definition slice0 {A : Type} (n : Z) (l : list A) : list A :=
  if n <? 0 then take (Z.to_nat (Z.of_nat (length l) + n)) l
  else take (Z.to_nat n) l.

(** [(a, b) => new Date(b.pubDate || b.published_at)
               - new Date(a.pubDate || a.published_at)] *)
Definition newestProcessedFirst (a b : ProcessedArticle) : option Z :=
  date_diff (effectiveDate (p_article b)) (effectiveDate (p_article a)).

(** [articlesToProcess]: the raw articles whose id is in neither the
    processed snapshot nor the rejected cache. *)
Definition articlesToProcess (raw : list Article)
    (existingProcessed : list ProcessedArticle)
    (rejectedArticles : list RejectedArticle) : list Article :=
  let processedIds : gset (list Z) :=
    list_to_set (map (fun a => id (p_article a)) existingProcessed) in
  let rejectedIds : gset (list Z) :=
    list_to_set (map (fun a => id (r_article a)) rejectedArticles) in
  filter (fun article =>
            (id article ∉ processedIds) /\ (id article ∉ rejectedIds))
    raw.

(** [testLimit ? articlesToProcess.slice(0, testLimit) : articlesToProcess]
    with [testLimit = env ? parseInt(env) : null]; NaN and 0 are falsy. *)
Definition finalArticlesToProcess (e : Env) (articles : list Article)
  : list Article :=
  match PROCESSING_LIMIT e with
  | Some (Int testLimit) =>
      if testLimit =? 0 then articles else slice0 testLimit articles
  | Some IntNaN | None => articles
  end.

(** [parseFloat(process.env.PROCESS_CONFIDENCE_THRESHOLD || '0.25')] *)
Definition processThreshold (e : Env) : JsNumber :=
  match PROCESS_CONFIDENCE_THRESHOLD e with
  | Some v => v
  | None => Num (25 # 100)
  end.

(** [parseInt(process.env.REJECTED_CACHE_CLEANUP_DAYS || '15')] *)
Definition rejectedCleanupDays (e : Env) : JsInt :=
  match REJECTED_CACHE_CLEANUP_DAYS e with
  | Some v => v
  | None => Int 15
  end.

(** [new Date(Date.now() - days * 24*60*60*1000)] *)
Definition rejectedThreshold (days : JsInt) (nowMs : Z) : jsdate :=
  match days with
  | IntNaN => None
  | Int d => Date_of_number (nowMs - d * day_ms)
  end.

Definition recentRejected (threshold : jsdate)
    (articles : list RejectedArticle) : list RejectedArticle :=
  filter (fun article =>
            date_gt (Date_of_field (rejected_at article)) threshold = true)
    articles.

Section Process.

(** The zero-shot classifier applied to a title with the category
    list; [None] when the call throws. *)
Variable classifier : jsstring -> option ClassResult.

(** The rule-based [classifyCategory (title, source)]. *)
Variable classifyCategory : jsstring -> jsstring -> ClassResult.

(** Entities, difficulty and summary of an article, with or without
    the models. *)
Variable enrich : bool -> Article -> Enrichment.

(** The classification of one article: the model when it is loaded and
    answers, the rules otherwise. *)
Definition classify (useAI : bool) (article : Article) : ClassResult :=
  if useAI then
    match classifier (title article) with
    | Some result => result
    | None => classifyCategory (title article) (source article)
    end
  else classifyCategory (title article) (source article).

Definition rejectedArticle (e : Env) (stamp : Z) (article : Article)
    (result : ClassResult) : RejectedArticle :=
  {| r_article := article;
     rejectedReason := u16 "low_confidence";
     r_confidence := res_confidence result;
     confidenceThreshold := processThreshold e;
     rejected_at := Instant stamp |}.

Definition processedArticle (useAI : bool) (stamp : Z) (article : Article)
    (result : ClassResult) : ProcessedArticle :=
  {| p_article := article;
     p_category := res_category result;
     p_confidence := res_confidence result;
     p_difficulty := enr_difficulty (enrich useAI article);
     p_entities := enr_entities (enrich useAI article);
     p_summary := enr_summary (enrich useAI article);
     p_language := u16 "en";
     processed_at := Instant stamp |}.

(** One turn of the loop over [finalArticlesToProcess]; the state is
    [(newlyProcessedArticles, newlyRejectedArticles)]. *)
Definition processOne (e : Env) (useAI : bool) (stamp : Z)
    (st : list ProcessedArticle * list RejectedArticle)
    (article : Article)
  : list ProcessedArticle * list RejectedArticle :=
  let '(newlyProcessedArticles, newlyRejectedArticles) := st in
  let result := classify useAI article in
  let confidenceThreshold := processThreshold e in
  if num_lt (res_confidence result) confidenceThreshold then
    (newlyProcessedArticles,
     newlyRejectedArticles ++ [rejectedArticle e stamp article result])
  else
    (newlyProcessedArticles ++ [processedArticle useAI stamp article result],
     newlyRejectedArticles).

Fixpoint processLoop (e : Env) (useAI : bool) (stamp : nat -> Z) (i : nat)
    (todo : list Article)
    (st : list ProcessedArticle * list RejectedArticle)
  : list ProcessedArticle * list RejectedArticle :=
  match todo with
  | [] => st
  | article :: rest =>
      processLoop e useAI stamp (S i) rest
        (processOne e useAI (stamp i) st article)
  end.

(** [latestData] of a run that found nothing left to classify. *)
Definition cachedLatestData (w : ProcessWorld) (rawData : RawSnapshot)
    (existingProcessed : list ProcessedArticle) : LatestData :=
  let clk := pclock w in
  let cleanup := rollingCleanup (cleanupNow clk) existingProcessed in
  let recentArticles := cl_recentArticles cleanup in
  {| ld_raw := rawData;
     ld_articles := recentArticles;
     ld_processedAt := Instant (processedAtNow clk);
     ld_totalArticles := length recentArticles;
     ld_categories := None;
     ld_processingMethod := u16 "cached";
     ld_newArticlesProcessed := None;
     ld_existingArticlesKept := None;
     cleanupApplied := cl_cleanupApplied cleanup;
     cleanedUpCount := cl_cleanedUpCount cleanup;
     rollingWindowDays := cleanupThresholdDays |}.

(** The branch taken when nothing is left to classify. *)
Definition updateCached (w : ProcessWorld) (rawData : RawSnapshot)
    (existingProcessed : list ProcessedArticle) : IO LatestData :=
  (let clk := pclock w in
   let latestData := cachedLatestData w rawData existingProcessed in
   let today := utcDay (todayNow clk) in
   let todaysArticles := todaysArticles today (ld_articles latestData) in
   let dailyData :=
     {| dd_raw := rawData;
        dd_articles := todaysArticles;
        dd_processedAt := Instant (dailyProcessedAtNow clk);
        dd_totalArticles := length todaysArticles;
        dd_categories := None;
        dd_processingMethod := u16 "cached";
        dd_newArticlesProcessed := None;
        dd_dailyArticlesCount := length todaysArticles;
        dd_filterDate := today |} in
   let* _ := writeFile LatestProcessed (LatestDoc latestData) in
   let* _ := writeFile (DailyProcessed today) (DailyDoc dailyData) in
   ret latestData)%io.

(** The rejected cache after a run that rejected something. *)
Definition rejectedOutputData (w : ProcessWorld)
    (rejectedArticles newlyRejectedArticles : list RejectedArticle)
  : RejectedData :=
  let clk := pclock w in
  let allRejectedArticles := rejectedArticles ++ newlyRejectedArticles in
  let cleanupThresholdDays := rejectedCleanupDays (env w) in
  let cleanupThreshold :=
    rejectedThreshold cleanupThresholdDays (rejectedCleanupNow clk) in
  let beforeCleanup := Z.of_nat (length allRejectedArticles) in
  let allRejectedArticles := recentRejected cleanupThreshold allRejectedArticles in
  let cleanedUp := beforeCleanup - Z.of_nat (length allRejectedArticles) in
  {| rd_articles := allRejectedArticles;
     rd_updatedAt := Instant (rejectedUpdatedNow clk);
     rd_totalRejected := length allRejectedArticles;
     rd_newlyRejected := length newlyRejectedArticles;
     rd_cleanupThresholdDays := cleanupThresholdDays;
     rd_cleanedUpCount := cleanedUp |}.

(** [latestData] of a run that classified [newlyProcessedArticles]. *)
Definition mergedLatestData (w : ProcessWorld) (rawData : RawSnapshot)
    (useAI : bool)
    (existingProcessed newlyProcessedArticles : list ProcessedArticle)
  : LatestData :=
  let clk := pclock w in
  let allProcessedArticles := existingProcessed ++ newlyProcessedArticles in
  let allProcessedArticles := js_sort newestProcessedFirst allProcessedArticles in
  let cleanup := rollingCleanup (cleanupNow clk) allProcessedArticles in
  let recentArticles := cl_recentArticles cleanup in
  {| ld_raw := rawData;
     ld_articles := recentArticles;
     ld_processedAt := Instant (processedAtNow clk);
     ld_totalArticles := length recentArticles;
     ld_categories := Some (distinct [] (map p_category recentArticles));
     ld_processingMethod :=
       if useAI then u16 "ai-powered" else u16 "rule-based";
     ld_newArticlesProcessed := Some (length newlyProcessedArticles);
     ld_existingArticlesKept := Some (length existingProcessed);
     cleanupApplied := cl_cleanupApplied cleanup;
     cleanedUpCount := cl_cleanedUpCount cleanup;
     rollingWindowDays := cleanupThresholdDays |}.

(** The branch that classifies, merges, cleans up and persists. *)
Definition processNew (w : ProcessWorld) (rawData : RawSnapshot)
    (existingProcessed : list ProcessedArticle)
    (rejectedArticles : list RejectedArticle)
    (finalArticlesToProcess : list Article) : IO LatestData :=
  (let clk := pclock w in
   let useAI := modelsLoaded w in
   let '(newlyProcessedArticles, newlyRejectedArticles) :=
     processLoop (env w) useAI (stampOf clk) O finalArticlesToProcess ([], []) in
   let latestData :=
     mergedLatestData w rawData useAI existingProcessed newlyProcessedArticles in
   let today := utcDay (todayNow clk) in
   let todaysArticles := todaysArticles today (ld_articles latestData) in
   let dailyData :=
     {| dd_raw := rawData;
        dd_articles := todaysArticles;
        dd_processedAt := Instant (dailyProcessedAtNow clk);
        dd_totalArticles := length todaysArticles;
        dd_categories := Some (distinct [] (map p_category todaysArticles));
        dd_processingMethod :=
          if useAI then u16 "ai-powered" else u16 "rule-based";
        dd_newArticlesProcessed := Some (length newlyProcessedArticles);
        dd_dailyArticlesCount := length todaysArticles;
        dd_filterDate := today |} in
   let* _ := writeFile LatestProcessed (LatestDoc latestData) in
   let* _ := writeFile (DailyProcessed today) (DailyDoc dailyData) in
   let* _ :=
     if (0 <? length newlyRejectedArticles)%nat then
       writeFile RejectedCache
         (RejectedDoc (rejectedOutputData w rejectedArticles newlyRejectedArticles))
     else ret tt in
   ret latestData)%io.

(** [processArticlesWithAI] *)
Definition processArticlesWithAI (w : ProcessWorld) : IO LatestData :=
  (let* rawData := await (rawFile w) in
   let existingProcessed := default [] (processedFile w) in
   let rejectedArticles := default [] (rejectedFile w) in
   let articlesToProcess :=
     articlesToProcess (raw_articles rawData) existingProcessed rejectedArticles in
   let finalArticlesToProcess :=
     finalArticlesToProcess (env w) articlesToProcess in
   if (length finalArticlesToProcess =? 0)%nat then
     updateCached w rawData existingProcessed
   else
     processNew w rawData existingProcessed rejectedArticles
       finalArticlesToProcess)%io.

(** The entry point: [processArticlesWithAI().catch(console.error)].
    A rejection is logged and the handler returns; nothing sets an
    exit code, so the process ends with 0. *)
Definition process_main (w : ProcessWorld) : ProcessEnd :=
  match fst (run (processArticlesWithAI w) (process_disk w)) with
  | Fulfilled _ => {| exit_code := 0; error_logged := None |}
  | Rejected e => {| exit_code := 0; error_logged := Some e |}
  end.

End Process.

(** ** The rule-based analysis of process-with-llm.js *)

(** [String.prototype.includes] *)
Fixpoint includes (pat s : jsstring) : bool :=
  starts_with pat s ||
  match s with
  | [] => false
  | _ :: r => includes pat r
  end.

(** [\w] and [\d] of a regular expression (no [i], no [u] flag). *)
Definition is_word (c : Z) : bool :=
  ((97 <=? c) && (c <=? 122)) || ((65 <=? c) && (c <=? 90)) ||
  ((48 <=? c) && (c <=? 57)) || (c =? 95).

Definition is_digit (c : Z) : bool := (48 <=? c) && (c <=? 57).

(** An alternative of the patterns used by the rules: a literal text,
    or a literal text followed by [\d+]. *)
Inductive Alt :=
  | Lit (text : string)
  | LitDigits (text : string).

(** The number of digits [s] starts with. *)
Fixpoint digit_run (s : jsstring) : nat :=
  match s with
  | c :: r => if is_digit c then S (digit_run r) else O
  | [] => O
  end.

(** The lengths of the matches of an alternative at the start of
    [s]. *)
Definition alt_lengths (alt : Alt) (s : jsstring) : list nat :=
  match alt with
  | Lit text =>
      if starts_with (u16 text) s then [length (u16 text)] else []
  | LitDigits text =>
      if starts_with (u16 text) s
      then map (fun n => (length (u16 text) + n)%nat)
             (seq 1 (digit_run (drop (length (u16 text)) s)))
      else []
  end.

(** [\b] between two neighbours, the ends of the string counting as
    characters that are not word characters. *)
Definition word_boundary (before after : option Z) : bool :=
  xorb (from_option is_word false before) (from_option is_word false after).

(** A match of [\b(alt1|alt2|..)\b] that starts at the start of [s],
    [before] being the character in front of it. *)
Definition matches_here (alts : list Alt) (before : option Z)
    (s : jsstring) : bool :=
  word_boundary before (head s) &&
  existsb (fun alt =>
             existsb (fun n => word_boundary (s !! pred n) (s !! n))
               (alt_lengths alt s))
    alts.

Fixpoint matches_from (alts : list Alt) (before : option Z)
    (s : jsstring) : bool :=
  matches_here alts before s ||
  match s with
  | [] => false
  | c :: r => matches_from alts (Some c) r
  end.

(** [s.match(/\b(alt1|alt2|..)\b/)] is not null. *)
Definition matches_word (alts : list Alt) (s : jsstring) : bool :=
  matches_from alts None s.

(** The double that a decimal literal of the source denotes, as the
    rational it is. *)
Definition double_0_85 : Q := 7656119366529843 # 9007199254740992.
Definition double_0_9 : Q := 8106479329266893 # 9007199254740992.
Definition double_0_8 : Q := 3602879701896397 # 4503599627370496.
Definition double_0_75 : Q := 3 # 4.
Definition double_0_6 : Q := 5404319552844595 # 9007199254740992.

(** The [categories] array. *)
Definition categories : list jsstring :=
  map u16 ["model-release"; "research-paper"; "developer-tool";
           "product-launch"; "tutorial-guide"; "industry-news";
           "ai-agents"; "creative-ai"; "infrastructure"; "safety-ethics"]%string.

(** The term lists of [calculateDifficulty]. *)
Definition technicalTerms : list string :=
  ["transformer"; "neural"; "deep learning"; "api"; "sdk"; "algorithm";
   "model"; "training"; "inference"]%string.

Definition researchTerms : list string :=
  ["paper"; "study"; "research"; "analysis"; "arxiv"]%string.

Definition advancedTerms : list string :=
  ["rlhf"; "fine-tuning"; "quantization"; "distillation";
   "embedding"]%string.

Section Rules.

Variable toLowerCase : jsstring -> jsstring.

Definition classifyCategory (title source : jsstring) : ClassResult :=
  let titleLower := toLowerCase title in
  let sourceLower := toLowerCase source in
  if matches_word [LitDigits "gpt-"; Lit "claude"; Lit "gemini"; Lit "llama";
                   Lit "mistral"; Lit "release"; Lit "model"] titleLower
     || includes (u16 "openai") sourceLower
     || includes (u16 "anthropic") sourceLower
  then {| res_category := u16 "model-release";
          res_confidence := Num double_0_85 |}
  else if matches_word [Lit "paper"; Lit "arxiv"; Lit "research"; Lit "study";
                        Lit "analysis"] titleLower
          || includes (u16 "arxiv") sourceLower
  then {| res_category := u16 "research-paper";
          res_confidence := Num double_0_9 |}
  else if matches_word [Lit "api"; Lit "sdk"; Lit "framework"; Lit "tool";
                        Lit "library"; Lit "code"; Lit "programming"] titleLower
          || includes (u16 "hugging") sourceLower
  then {| res_category := u16 "developer-tool";
          res_confidence := Num double_0_8 |}
  else if matches_word [Lit "agent"; Lit "workflow"; Lit "automation";
                        Lit "autonomous"] titleLower
  then {| res_category := u16 "ai-agents";
          res_confidence := Num double_0_85 |}
  else if matches_word [Lit "tutorial"; Lit "guide"; Lit "how to";
                        Lit "step by step"; Lit "learn"] titleLower
          || includes (u16 "data science") sourceLower
          || includes (u16 "mastery") sourceLower
  then {| res_category := u16 "tutorial-guide";
          res_confidence := Num double_0_8 |}
  else if matches_word [Lit "image"; Lit "video"; Lit "audio"; Lit "creative";
                        Lit "art"; Lit "generate"] titleLower
  then {| res_category := u16 "creative-ai";
          res_confidence := Num double_0_75 |}
  else {| res_category := u16 "industry-news";
          res_confidence := Num double_0_6 |}.

(** [list.forEach(x => { if (title.toLowerCase().includes(
      x.toLowerCase())) entities.push({ text: x, label }) })] *)
Definition entitiesOf (label : string) (names : list string)
    (title : jsstring) : list (jsstring * jsstring) :=
  map (fun x => (u16 x, u16 label))
    (List.filter (fun x => includes (toLowerCase (u16 x)) (toLowerCase title))
       names).

Definition extractEntities (title : jsstring) : list (jsstring * jsstring) :=
  entitiesOf "ORG"
    ["OpenAI"; "Anthropic"; "Google"; "Meta"; "Microsoft"; "NVIDIA"; "Apple";
     "Amazon"; "Tesla"; "Hugging Face"; "LangChain"; "Pinecone";
     "Weights & Biases"; "DeepMind"; "Stability AI"; "Midjourney";
     "RunwayML"]%string title
  ++ entitiesOf "PRODUCT"
       ["GPT-4"; "GPT-5"; "Claude"; "Gemini"; "LLaMA"; "Llama"; "ChatGPT";
        "DALL-E"; "Midjourney"; "Stable Diffusion"; "BERT";
        "Transformer"]%string title
  ++ entitiesOf "TECH"
       ["AI"; "ML"; "NLP"; "Computer Vision"; "Deep Learning";
        "Machine Learning"; "Neural Network"; "Transformer"; "LLM"; "API";
        "SDK"]%string title.

(** [terms.forEach(term => { if (titleLower.includes(term))
      difficulty += step })] *)
Definition add_terms (step : Q) (terms : list string) (titleLower : jsstring)
    (difficulty : Q) : Q :=
  fold_left
    (fun difficulty term =>
       if includes (u16 term) titleLower then (difficulty + step)%Q
       else difficulty)
    terms difficulty.

(** [Math.round]: the nearest integer, a tie going up. *)
Definition Math_round (q : Q) : Z := Qfloor (q + (1 # 2)).

(** The numbers met here are multiples of one half far below 2^53, on
    which the arithmetic of doubles is exact. *)
Definition calculateDifficulty {E : Type} (title : jsstring)
    (entities : list E) : Z :=
  let difficulty := inject_Z 3 in
  let titleLower := toLowerCase title in
  let difficulty := add_terms (inject_Z 1) technicalTerms titleLower difficulty in
  let difficulty := add_terms (inject_Z 2) researchTerms titleLower difficulty in
  let difficulty := add_terms (inject_Z 3) advancedTerms titleLower difficulty in
  let difficulty :=
    (difficulty + inject_Z (Z.of_nat (length entities)) * (1 # 2))%Q in
  Z.min (Z.max (Math_round difficulty) 1) 10.

(** [createTopicBasedSummary (title)] *)
Definition createTopicBasedSummary (title : jsstring) : jsstring :=
  let titleLower := toLowerCase title in
  if matches_word [Lit "gpt"; Lit "chatgpt"; Lit "claude"; Lit "gemini";
                   Lit "llama"; Lit "mistral"; Lit "ollama"; Lit "lmstudio"]
       titleLower
  then u16 "Discussion about AI models and tools mentioned in the title."
  else if matches_word [Lit "how to"; Lit "help"; Lit "issue"; Lit "error";
                        Lit "problem"; Lit "question"; Lit "which"; Lit "best";
                        Lit "recommend"] titleLower
  then u16 "Community discussion seeking help or recommendations on AI-related topics."
  else if matches_word [Lit "release"; Lit "releasing"; Lit "available";
                        Lit "launched"; Lit "new"; Lit "update"] titleLower
  then u16 "Announcement or discussion about new AI model releases and updates."
  else if matches_word [Lit "image"; Lit "generate"; Lit "create"; Lit "art";
                        Lit "stable diffusion"; Lit "midjourney"] titleLower
  then u16 "Discussion about AI-powered creative content generation and tools."
  else if matches_word [Lit "paper"; Lit "research"; Lit "study"; Lit "arxiv";
                        Lit "analysis"] titleLower
  then u16 "Discussion of AI research findings and academic papers."
  else u16 "Community discussion about AI developments and related topics.".

(** Whether [isRedditBoilerplate] is truthy. *)
Definition isRedditBoilerplate (metaDescription : jsstring) : bool :=
  truthy_str (Some metaDescription) &&
  (includes (u16 "submitted by") metaDescription
     && includes (u16 "[link]") metaDescription
   || (length (trim metaDescription) <? 30)%nat
   || includes (u16 "https://preview.redd.it") metaDescription
   || (starts_with (u16 "http://") metaDescription
       || starts_with (u16 "https://") metaDescription)).

(** [contentToSummarize]; [None] is null. *)
Definition contentToSummarize (metaDescription : jsstring)
  : option jsstring :=
  if truthy_str (Some metaDescription)
     && truthy_str (Some (trim metaDescription))
     && negb (isRedditBoilerplate metaDescription)
     && (50 <? length metaDescription)%nat
  then Some (trim metaDescription)
  else None.

(** [content.replace(/\n/g, ' ').replace(/\s+/g, ' ').trim()], cut to
    120 code units and three dots when it is longer. *)
Definition ruleSummary (content : jsstring) : jsstring :=
  let cleaned :=
    trim (collapse_spaces false
            (map (fun c => if c =? 10 then 32 else c) content)) in
  if (120 <? length cleaned)%nat then take 120 cleaned ++ u16 "..."
  else cleaned.

(** The summarization model applied to a text: [summary[0].summary_text],
    [None] when the call throws.  It is set exactly when the models are
    loaded, that is when [useAI] holds. *)
Variable summarizer : jsstring -> option jsstring.

Definition generateSummary (title metaDescription source : jsstring)
    (useAI : bool) : jsstring :=
  let content := contentToSummarize metaDescription in
  if negb (bool_decide (is_Some content)) && truthy_str (Some source)
     && includes (u16 "reddit") source
  then createTopicBasedSummary title
  else if negb useAI || negb (bool_decide (is_Some content)) then
    match content with
    | Some content => ruleSummary content
    | None => createTopicBasedSummary title
    end
  else
    match content with
    | Some content =>
        match summarizer content with
        | Some summary => summary
        | None => ruleSummary content
        end
    | None => createTopicBasedSummary title
    end.

(** The entities the recognition model finds in a title and whose score
    is above 0.8, in the shape they are stored in; [None] when the call
    throws. *)
Variable ner : jsstring -> option (list (jsstring * jsstring)).

(** Entities, difficulty and summary of one turn of the loop. *)
Definition enrichArticle (useAI : bool) (article : Article) : Enrichment :=
  let entities :=
    if useAI then
      match ner (title article) with
      | Some nerResults => nerResults
      | None => extractEntities (title article)
      end
    else extractEntities (title article) in
  let difficulty := calculateDifficulty (title article) entities in
  let summary :=
    generateSummary (title article) (metaDescription article)
      (source article) useAI in
  {| enr_entities := entities;
     enr_difficulty := difficulty;
     enr_summary := summary |}.

End Rules.

(** ** The relevance filter of crawl.js *)

(** What the zero-shot classifier returns. *)
Record ClassifierOutput := {
  out_labels : list jsstring;
  out_scores : list JsNumber
}.

(** [scores[i]]; a missing score is [undefined], which compares and
    enters [Math.max] as NaN does. *)
Definition score (i : nat) (out : ClassifierOutput) : JsNumber :=
  default NaN (out_scores out !! i).

(** [a > b] *)
Definition num_gt (a b : JsNumber) : bool := num_lt b a.

(** [Math.max (a, b)] *)
Definition Math_max (a b : JsNumber) : JsNumber :=
  match a, b with
  | Num x, Num y => Num (if Qle_bool x y then y else x)
  | _, _ => NaN
  end.

(** The two fields of the result of [isAIRelevantAI] that [crawlFeed]
    decides on. *)
Record AIResult := {
  ai_isRelevant : bool;
  meetsQualityThreshold : bool
}.

(** [parseFloat(process.env.CATEGORIZATION_CONFIDENCE_THRESHOLD ||
    '0.25')], from the value of the variable when it is set. *)
Definition categorizationThreshold (variable : option JsNumber) : JsNumber :=
  match variable with
  | Some v => v
  | None => Num (25 # 100)
  end.

(** The keyword lists of [isAIRelevant] and of [crawlFeed]. *)
Definition aiKeywords : list string :=
  ["ai"; "artificial intelligence"; "machine learning"; "ml";
   "deep learning"; "neural network"; "neural net"; "deep neural";
   "artificial neural"; "llm"; "large language model"; "language model";
   "foundation model"; "gpt"; "claude"; "gemini"; "llama"; "alpaca";
   "vicuna"; "falcon"; "transformer"; "bert"; "roberta"; "t5"; "bart";
   "electra"; "openai"; "anthropic"; "google ai"; "deepmind"; "meta ai";
   "hugging face"; "langchain"; "pinecone"; "weaviate"; "chroma"; "chatgpt";
   "copilot"; "github copilot"; "cursor ai"; "replit ai"; "dall-e";
   "midjourney"; "stable diffusion"; "runway"; "pika"; "fine-tuning";
   "fine tuning"; "prompt"; "prompting"; "prompt engineering"; "rag";
   "retrieval augmented"; "embeddings"; "vector database"; "attention";
   "self-attention"; "multi-head attention"; "backpropagation";
   "gradient descent"; "optimization"; "reinforcement learning"; "rl";
   "rlhf"; "constitutional ai"; "computer vision"; "cv";
   "image recognition"; "object detection"; "nlp";
   "natural language processing"; "natural language"; "speech recognition";
   "text-to-speech"; "voice synthesis"; "generative"; "generation";
   "synthesis"; "diffusion"; "chatbot"; "agent"; "autonomous"; "automation";
   "robotics"; "pytorch"; "tensorflow"; "keras"; "transformers"; "dataset";
   "training"; "inference"; "model"; "algorithm"; "benchmark"; "evaluation";
   "metrics"; "loss function"; "overfitting"; "regularization"; "dropout";
   "batch norm"]%string.

Definition aiSources : list string :=
  ["openai"; "anthropic"; "huggingface"; "hugging face"; "langchain";
   "deepmind"; "google ai"; "meta ai"; "nvidia"; "cohere"; "replicate";
   "gradio"; "wandb"; "weights & biases"]%string.

Definition educationalAIKeywords : list string :=
  ["ai"; "artificial intelligence"; "machine learning"; "ml";
   "deep learning"; "neural"; "algorithm"; "model"; "data science";
   "automation"; "robotics"; "computer science"; "programming"; "coding";
   "software"; "tech"; "agent"]%string.

Definition excludeTerms : list string :=
  ["fields medal"; "nobel prize"; "pure mathematics"; "number theory";
   "sports"; "football"; "basketball"; "soccer"; "tennis"; "olympics";
   "politics"; "election"; "climate change"; "global warming"]%string.

(** The candidate labels of the two classifier calls. *)
Definition binaryCategories : list jsstring :=
  map u16 ["AI and machine learning related content";
           "Non-AI technical content";
           "General news and entertainment"]%string.

Definition aiSpecificCategories : list jsstring :=
  map u16 ["LLM and language models";
           "Computer vision and image AI";
           "AI tools and developer platforms";
           "AI research and papers";
           "AI business and industry news"]%string.

Section Relevance.

Variable toLowerCase : jsstring -> jsstring.

(** [aiClassifier]: [None] while it is not loaded; a call answers with
    [None] when it throws. *)
Variable aiClassifier
  : option (jsstring -> list jsstring -> option ClassifierOutput).

(** [process.env.CATEGORIZATION_CONFIDENCE_THRESHOLD], parsed. *)
Variable CATEGORIZATION_CONFIDENCE_THRESHOLD : option JsNumber.

(** [list.some(keyword => text.includes(keyword))] *)
Definition some_included (list : list string) (text : jsstring) : bool :=
  existsb (fun keyword => includes (u16 keyword) text) list.

Definition isAIRelevantAI (title description : jsstring)
  : option AIResult :=
  match aiClassifier with
  | None => None
  | Some classify =>
      let text := take 500 (title ++ u16 " " ++ description) in
      match classify text binaryCategories with
      | None => None
      | Some binaryResult =>
          let isAIRelated :=
            num_gt (score 0 binaryResult)
              (Math_max (score 1 binaryResult) (score 2 binaryResult)) in
          let aiConfidence := score 0 binaryResult in
          let confidenceThreshold :=
            categorizationThreshold CATEGORIZATION_CONFIDENCE_THRESHOLD in
          let result :=
            {| ai_isRelevant := isAIRelated;
               meetsQualityThreshold :=
                 num_ge aiConfidence confidenceThreshold |} in
          if isAIRelated then
            match classify text aiSpecificCategories with
            | None => None
            | Some specificResult => Some result
            end
          else Some result
      end
  end.

Definition isAIRelevant (title source : jsstring) : bool :=
  if some_included aiSources (toLowerCase source) then true
  else
    let titleLower := toLowerCase title in
    some_included aiKeywords titleLower.

(** The value of [isRelevant] when [crawlFeed] tests it. *)
Definition itemRelevant (useAIFilter : bool) (source : Source)
    (title description : jsstring) : bool :=
  if useAIFilter then
    match isAIRelevantAI title description with
    | Some aiResult => ai_isRelevant aiResult && meetsQualityThreshold aiResult
    | None => isAIRelevant title (name source)
    end
  else
    let basicAIRelevance := isAIRelevant title (name source) in
    let isRelevant :=
      if bool_decide (category source = u16 "youtube")
         || bool_decide (category source = u16 "research")
         || bool_decide (category source = u16 "tutorial")
         || bool_decide (category source = u16 "newsletter")
      then
        let hasEducationalAI :=
          some_included educationalAIKeywords (toLowerCase title) in
        basicAIRelevance || hasEducationalAI
      else basicAIRelevance in
    let hasExcludedTerm := some_included excludeTerms (toLowerCase title) in
    if hasExcludedTerm then false else isRelevant.

End Relevance.

(** ** The grouped crawler (the second crawl.js) *)

(** The second script of the file crawls the sources group by group,
    retries a feed that fails, and applies no relevance filter.  Its
    [extractDomain], [cleanTitle], [generateId] and the key of its
    [removeDuplicates] are the code of the first script, and are the
    definitions above. *)

(** *** Plain objects used as maps *)

(** The own properties of a plain object, in the order of their
    creation. *)
Abbreviation obj V := (list (jsstring * V)) (only parsing).

(** [o[key]] on own properties. *)
Fixpoint obj_lookup {V : Type} (key : jsstring) (o : obj V) : option V :=
  match o with
  | [] => None
  | (k, v) :: r => if bool_decide (k = key) then Some v else obj_lookup key r
  end.

(** [o[key] = v]: an own property keeps its place, a new one comes
    last. *)
Fixpoint obj_set {V : Type} (key : jsstring) (v : V) (o : obj V) : obj V :=
  match o with
  | [] => [(key, v)]
  | (k, x) :: r =>
      if bool_decide (k = key) then (k, v) :: r else (k, x) :: obj_set key v r
  end.

(** The value of a string of decimal digits. *)
Fixpoint decimal_value (acc : Z) (s : jsstring) : option Z :=
  match s with
  | [] => Some acc
  | c :: r => if is_digit c then decimal_value (10 * acc + (c - 48)) r else None
  end.

(** A property name that is an array index: the canonical decimal
    numeral of an integer from 0 to 2^32 - 2. *)
Definition array_index (key : jsstring) : option Z :=
  match key with
  | [] => None
  | c :: r =>
      if (c =? 48) && negb (bool_decide (r = [])) then None
      else
        match decimal_value 0 key with
        | Some n => if n <=? 4294967294 then Some n else None
        | None => None
        end
  end.

(** The order of [Object.entries], [Object.keys] and [Object.values]:
    the array indices in ascending order, then the other names in the
    order of their creation. *)
Definition own_entries {V : Type} (o : obj V) : obj V :=
  map snd
    (js_sort (fun a b => Some (fst a - fst b))
       (omap (fun e => (fun n => (n, e)) <$> array_index (fst e)) o))
  ++ List.filter (fun e => negb (bool_decide (is_Some (array_index (fst e))))) o.

Module Grouped.

(** An entry of a feed, with the [author] this script reads. *)
Record Item := {
  entry : RawItem;
  item_author : option jsstring
}.

(** The article object of this script: the fields of [Article] and
    [author]. *)
Record AuthoredArticle := {
  article : Article;
  author : jsstring
}.

(** [crawlStats] *)
Record Stats := {
  totalProcessed : nat;
  filtered : nat;
  failed : nat
}.

(** A source after [loadSources] has set its [sourceIdentifier]. *)
Record TaggedSource := {
  tagged : Source;
  sourceIdentifier : jsstring
}.

(** What a call of [crawlFeed] returns: [{ articles, stats }], or
    nothing when the loop ends without [return]. *)
Inductive FeedReturn :=
  | Returned (articles : list AuthoredArticle) (stats : Stats)
  | ReturnedUndefined.

(** The files: [data/<group>/<YYYY-MM-DD-HH>-latest-raw.json], named by
    the group and the UTC hour (hours since the epoch), and
    [data/latest-raw.json]. *)
Inductive Path :=
  | GroupRaw (groupName : jsstring) (hour : Z)
  | LatestRaw.

(** [groupOutput] *)
Record GroupOutput := {
  go_crawledAt : DateField;
  sourceGroup : jsstring;
  go_totalSources : nat;
  go_totalArticles : nat;
  go_articles : list AuthoredArticle
}.

(** [combinedOutput] *)
Record CombinedOutput := {
  co_crawledAt : DateField;
  totalSourceGroups : nat;
  co_totalSources : nat;
  co_totalArticles : nat;
  co_articles : list AuthoredArticle
}.

Inductive FileDoc :=
  | GroupDoc (d : GroupOutput)
  | CombinedDoc (d : CombinedOutput).

(** [allGroupResults[groupName]] *)
Record GroupResult := {
  gr_articles : list AuthoredArticle;
  gr_stats : Stats;
  gr_filepath : Path
}.

(** What the file system answers: [Some e] makes the call fail with
    [e]. *)
Record Disk := {
  mkdir_error : jsstring -> option Error;
  write_error : Path -> option Error
}.

(** What a run reads from outside: the entries of the parsed sources
    file ([None] for a value that is not an array), or the error of
    reading or parsing it; the feed that the [r]-th attempt on the
    [j]-th source of the [k]-th group gets ([None]: the attempt throws),
    the clock reads of its [i]-th item, and the clock reads made for
    each group and for the combined file. *)
Record World := {
  sourcesFile : Outcome (list (jsstring * option (list Source)));
  feedAt : nat -> nat -> nat -> option (list Item);
  clockAt : nat -> nat -> nat -> nat -> ItemClock;
  groupCrawledNow : nat -> Z;
  groupStampNow : nat -> Z;
  combinedNow : Z
}.

(** An [async] computation that writes files, as above. *)
Definition IO (A : Type) : Type :=
  Disk -> list (Path * FileDoc) -> Outcome A * list (Path * FileDoc).

Definition ret {A : Type} (a : A) : IO A :=
  fun _ written => (Fulfilled a, written).

Definition throw {A : Type} (e : Error) : IO A :=
  fun _ written => (Rejected e, written).

Definition bind {A B : Type} (m : IO A) (k : A -> IO B) : IO B :=
  fun disk written =>
    match m disk written with
    | (Fulfilled a, written') => k a disk written'
    | (Rejected e, written') => (Rejected e, written')
    end.

Declare Scope gio_scope.
Delimit Scope gio_scope with gio.
Notation "'let*' x ':=' m 'in' k" := (bind m (fun x => k))
  (at level 10, x name, m at level 100, k at level 200) : gio_scope.

(** [await fs.mkdir(groupDataDir, { recursive: true })] *)
Definition mkdir (groupName : jsstring) : IO unit :=
  fun disk written =>
    match mkdir_error disk groupName with
    | Some e => (Rejected e, written)
    | None => (Fulfilled tt, written)
    end.

(** [await fs.writeFile(path, JSON.stringify(doc, null, 2))] *)
Definition writeFile (path : Path) (doc : FileDoc) : IO unit :=
  fun disk written =>
    match write_error disk path with
    | Some e => (Rejected e, written)
    | None => (Fulfilled tt, written ++ [(path, doc)])
    end.

Definition await {A : Type} (o : Outcome A) : IO A :=
  match o with
  | Fulfilled a => ret a
  | Rejected e => throw e
  end.

Definition run {A : Type} (m : IO A) (disk : Disk)
  : Outcome A * list (Path * FileDoc) :=
  m disk [].

Definition maxRetries : nat := 2.

Definition itemLimit : nat := 2.

Definition daysBack : Z := 15.

(** [now.toISOString().slice(0, 13)] names the UTC hour. *)
Definition utcHour (t : Z) : Z := t / (60 * 60 * 1000).

(** [loadSources]: the sources of every array of the file, each tagged
    with the name of its array. *)
Definition loadSources (sourcesJson : list (jsstring * option (list Source)))
  : list TaggedSource :=
  fold_left
    (fun allSources '(sourceName, sourceArray) =>
       match sourceArray with
       | Some sourceArray =>
           allSources
           ++ map (fun source => {| tagged := source;
                                    sourceIdentifier := sourceName |})
                sourceArray
       | None => allSources
       end)
    sourcesJson [].

Section Crawl.

Variable url_hostname : jsstring -> option jsstring.

Variable toLowerCase : jsstring -> jsstring.

(** Whether [Object.prototype] has a property of that name (such as
    constructor or toString); the inherited values are all truthy and
    none has a [push]. *)
Variable inherited : jsstring -> bool.

(** One turn of [sources.forEach] that fills [sourcesByGroup]. *)
Definition groupStep (sourcesByGroup : obj (list TaggedSource))
    (source : TaggedSource) : Outcome (obj (list TaggedSource)) :=
  let groupName := sourceIdentifier source in
  match obj_lookup groupName sourcesByGroup with
  | Some group =>
      Fulfilled (obj_set groupName (group ++ [source]) sourcesByGroup)
  | None =>
      if inherited groupName then
        Rejected "TypeError: sourcesByGroup[groupName].push is not a function"
      else Fulfilled (obj_set groupName [source] sourcesByGroup)
  end.

Fixpoint groupSources (sources : list TaggedSource)
    (sourcesByGroup : obj (list TaggedSource))
  : Outcome (obj (list TaggedSource)) :=
  match sources with
  | [] => Fulfilled sourcesByGroup
  | source :: rest =>
      match groupStep sourcesByGroup source with
      | Fulfilled sourcesByGroup => groupSources rest sourcesByGroup
      | Rejected e => Rejected e
      end
  end.

(** The body of the [for (const item of items)] loop: [None] is
    [continue], [Some a] is [articles.push(a)]; the counters of [stats]
    are updated on the way. *)
Definition crawlItem (source : Source) (clk : ItemClock) (item : Item)
    (stats : Stats) : option AuthoredArticle * Stats :=
  let title :=
    cleanTitle (default [] (or_str (item_title (entry item)) (Some []))) in
  let url := or_str (link (entry item)) (guid (entry item)) in
  if negb (truthy_str (Some title)) || negb (truthy_str url) then (None, stats)
  else
    let stats := {| totalProcessed := S (totalProcessed stats);
                    filtered := filtered stats;
                    failed := failed stats |} in
    let url := default [] url in
    let description := itemDescription (entry item) in
    match itemDate clk (entry item) with
    | None => (None, stats)
    | Some parsed =>
        let pubDate := if now clk <? parsed then now clk else parsed in
        let cutoffDate :=
          Date_of_number (cutoffNow clk - daysBack * day_ms) in
        if date_lt (Some pubDate) cutoffDate then
          (None, {| totalProcessed := totalProcessed stats;
                    filtered := S (filtered stats);
                    failed := failed stats |})
        else
          (Some {| article :=
                     {| id := generateId title url;
                        title := title;
                        url := url;
                        source := name source;
                        source_domain := extractDomain url_hostname url;
                        source_category := category source;
                        source_priority := priority source;
                        pubDate := Instant pubDate;
                        published_at := Absent;
                        metaDescription := description;
                        crawledAt := Instant (crawledNow clk) |};
                   author :=
                     default [] (or_str (item_author item) (Some [])) |},
           stats)
    end.

Fixpoint crawlItems (source : Source) (clock : nat -> ItemClock) (i : nat)
    (items : list Item) (articles : list AuthoredArticle) (stats : Stats)
  : list AuthoredArticle * Stats :=
  match items with
  | [] => (articles, stats)
  | item :: rest =>
      match crawlItem source (clock i) item stats with
      | (Some a, stats) =>
          crawlItems source clock (S i) rest (articles ++ [a]) stats
      | (None, stats) => crawlItems source clock (S i) rest articles stats
      end
  end.

(** The [while (retryCount <= maxRetries)] loop.  [turns] is
    [maxRetries + 1 - retryCount], the number of turns the condition
    still allows: a turn either returns or adds one to [retryCount].
    An attempt that throws has changed nothing. *)
Fixpoint crawlFeed_loop (turns : nat) (retryCount : nat) (source : Source)
    (feed : nat -> option (list Item)) (clock : nat -> nat -> ItemClock)
    (stats : Stats) : FeedReturn :=
  match turns with
  | O => ReturnedUndefined
  | S turns =>
      match feed retryCount with
      | Some feed_items =>
          let items := take itemLimit feed_items in
          let '(articles, stats) :=
            crawlItems source (clock retryCount) O items [] stats in
          Returned articles stats
      | None =>
          let retryCount := S retryCount in
          if (retryCount <=? maxRetries)%nat
          then crawlFeed_loop turns retryCount source feed clock stats
          else Returned [] stats
      end
  end.

(** [crawlFeed (source, stats)]: the promise of an [async] function
    whose body catches what it throws. *)
Definition crawlFeed (source : Source) (feed : nat -> option (list Item))
    (clock : nat -> nat -> ItemClock) (stats : Stats) : Outcome FeedReturn :=
  Fulfilled (crawlFeed_loop (S maxRetries) O source feed clock stats).

(** The handling of one settled result of a batch. *)
Definition settle (result : Outcome FeedReturn)
    (allArticles : list AuthoredArticle) (crawlStats : Stats)
  : Outcome (list AuthoredArticle * Stats) :=
  match result with
  | Fulfilled (Returned articles stats) =>
      Fulfilled (allArticles ++ articles, stats)
  | Fulfilled ReturnedUndefined =>
      Rejected "TypeError: Cannot read properties of undefined"
  | Rejected _ =>
      Fulfilled (allArticles,
                 {| totalProcessed := totalProcessed crawlStats;
                    filtered := filtered crawlStats;
                    failed := S (failed crawlStats) |})
  end.

(** The sources of a group, batch after batch; the feeds of a batch
    share [crawlStats], which only counts, and [Promise.allSettled]
    keeps their results in the order of the sources. *)
Fixpoint crawlGroupSources (w : World) (k j : nat)
    (groupSources : list TaggedSource) (allArticles : list AuthoredArticle)
    (crawlStats : Stats) : Outcome (list AuthoredArticle * Stats) :=
  match groupSources with
  | [] => Fulfilled (allArticles, crawlStats)
  | source :: rest =>
      match settle (crawlFeed (tagged source) (feedAt w k j) (clockAt w k j)
                      crawlStats)
              allArticles crawlStats with
      | Fulfilled (allArticles, crawlStats) =>
          crawlGroupSources w k (S j) rest allArticles crawlStats
      | Rejected e => Rejected e
      end
  end.

Definition removeDuplicates_step
    (st : list AuthoredArticle * gset (list Z)) (a : AuthoredArticle)
  : list AuthoredArticle * gset (list Z) :=
  let '(unique, seen) := st in
  let key := dedupKey toLowerCase (title (article a)) in
  if decide (key ∈ seen) then st
  else (unique ++ [a], seen ∪ {[ key ]}).

Definition removeDuplicates (articles : list AuthoredArticle)
  : list AuthoredArticle :=
  fst (fold_left removeDuplicates_step articles ([], ∅)).

(** [(a, b) => new Date(b.pubDate) - new Date(a.pubDate)] *)
Definition newestFirst (a b : AuthoredArticle) : option Z :=
  date_diff (Date_of_field (pubDate (article b)))
    (Date_of_field (pubDate (article a))).

(** The loop over [Object.entries(sourcesByGroup)]; [k] counts the
    groups. *)
Fixpoint crawlGroups (w : World) (k : nat)
    (groups : list (jsstring * list TaggedSource))
    (allGroupResults : obj GroupResult) : IO (obj GroupResult) :=
  match groups with
  | [] => ret allGroupResults
  | (groupName, groupSources) :: rest =>
      (let* crawled :=
         await (crawlGroupSources w k O groupSources []
                  {| totalProcessed := 0; filtered := 0; failed := 0 |}) in
       let '(allArticles, crawlStats) := crawled in
       let uniqueArticles := removeDuplicates allArticles in
       let uniqueArticles := js_sort newestFirst uniqueArticles in
       let groupOutput :=
         {| go_crawledAt := Instant (groupCrawledNow w k);
            sourceGroup := groupName;
            go_totalSources := length groupSources;
            go_totalArticles := length uniqueArticles;
            go_articles := uniqueArticles |} in
       let timestamp := utcHour (groupStampNow w k) in
       let* _ := mkdir groupName in
       let filepath := GroupRaw groupName timestamp in
       let* _ := writeFile filepath (GroupDoc groupOutput) in
       crawlGroups w (S k) rest
         (obj_set groupName
            {| gr_articles := uniqueArticles;
               gr_stats := crawlStats;
               gr_filepath := filepath |}
            allGroupResults))%gio
  end.

(** [crawlAllSources] *)
Definition crawlAllSources (w : World) : IO (obj GroupResult) :=
  (let* sourcesJson := await (sourcesFile w) in
   let sources := loadSources sourcesJson in
   let* sourcesByGroup := await (groupSources sources []) in
   let* allGroupResults :=
     crawlGroups w O (own_entries sourcesByGroup) [] in
   let allCombinedArticles :=
     concat (map (fun result => gr_articles (snd result))
               (own_entries allGroupResults)) in
   let allCombinedArticles := js_sort newestFirst allCombinedArticles in
   let combinedOutput :=
     {| co_crawledAt := Instant (combinedNow w);
        totalSourceGroups := length (own_entries allGroupResults);
        co_totalSources := length sources;
        co_totalArticles := length allCombinedArticles;
        co_articles := allCombinedArticles |} in
   let* _ := writeFile LatestRaw (CombinedDoc combinedOutput) in
   ret allGroupResults)%gio.

End Crawl.

End Grouped.

(** The shape of an article of the grouped crawler, produced from an
    entry under the clock reads [clk]. *)
Definition grouped_wellformed (s : Source) (clk : ItemClock)
    (a : Grouped.AuthoredArticle) : Prop :=
  title (Grouped.article a) <> [] /\
  url (Grouped.article a) <> [] /\
  id (Grouped.article a)
  = generateId (title (Grouped.article a)) (url (Grouped.article a)) /\
  source (Grouped.article a) = name s /\
  exists t,
    pubDate (Grouped.article a) = Instant t /\
    t <= now clk /\
    (forall cutoff,
        Date_of_number (cutoffNow clk - 15 * day_ms) = Some cutoff ->
        cutoff <= t).

(** ** Shapes of strings *)

(** White space in [s] only occurs as single spaces (U+0020); with
    [after_space] set, [s] does not start with white space either. *)
Fixpoint single_spaced (after_space : bool) (s : jsstring) : bool :=
  match s with
  | [] => true
  | c :: r =>
      if is_space c
      then (c =? 32) && negb after_space && single_spaced true r
      else single_spaced false r
  end.

(** [\[a-z0-9 \]]: what a deduplication key is made of. *)
Definition is_key_symbol (c : Z) : bool :=
  ((97 <=? c) && (c <=? 122)) || ((48 <=? c) && (c <=? 57)) || (c =? 32).

(** [a] is at least as recent as [b], both dates being valid. *)
Definition newer_or_equal (a b : Article) : Prop :=
  exists x y, Date_of_field (pubDate a) = Some x /\
              Date_of_field (pubDate b) = Some y /\ y <= x.

(** ** The deduplication key, as the specification words it *)

(** The words of a string: its maximal runs of characters that are not
    white space, in the order of the string. *)
Fixpoint spec_words (s : jsstring) : list jsstring :=
  match s with
  | [] => []
  | c :: r =>
      if is_space c then spec_words r
      else match r with
           | [] => [[c]]
           | d :: _ =>
               if is_space d then [c] :: spec_words r
               else match spec_words r with
                    | w :: ws => (c :: w) :: ws
                    | [] => [[c]]
                    end
           end
  end.

(** The key of a title in the words of the specification: the title in
    lower case, without the characters that are neither a-z nor 0-9 nor
    white space, its first eight words joined by single spaces. *)
Definition spec_key (toLowerCase : jsstring -> jsstring) (title : jsstring)
  : jsstring :=
  join_space
    (take 8
       (spec_words
          (filter (fun c => is_key_char c = true) (toLowerCase title)))).

(** ** Instances of the parameters, for the concrete runs below *)

(** [toLowerCase] on a string of ASCII characters. *)
Definition ascii_toLowerCase (s : jsstring) : jsstring :=
  map (fun c => if (65 <=? c) && (c <=? 90) then c + 32 else c) s.

(** The part of [s] before the first of "/", "?" and "#". *)
Fixpoint host_part (s : jsstring) : jsstring :=
  match s with
  | [] => []
  | c :: r =>
      if (c =? 47) || (c =? 63) || (c =? 35) then [] else c :: host_part r
  end.

Definition is_host_char (c : Z) : bool :=
  ((97 <=? c) && (c <=? 122)) || ((48 <=? c) && (c <=? 57)) ||
  (c =? 45) || (c =? 46).

(** [new URL(url).hostname] on the URLs ["https://" + host + rest] whose
    host is made of lower-case letters, digits, "-" and "."; every other
    string is taken to be rejected by the constructor. *)
Definition plain_hostname (url : jsstring) : option jsstring :=
  if starts_with (u16 "https://") url then
    let host := host_part (drop 8 url) in
    match host with
    | [] => None
    | _ => if forallb is_host_char host then Some host else None
    end
  else None.

(** A relevance filter that lets every item through. *)
Definition always_relevant (useAIFilter : bool) (s : Source)
    (title description : jsstring) : bool := true.

(** A classifier that answers every title with one fixed result. *)
Definition constant_classifier (c : Q) (title : jsstring)
  : option ClassResult :=
  Some {| res_category := u16 "industry-news"; res_confidence := Num c |}.

(** A classifier that tells the titles that start with "Paper" from
    the others. *)
Definition paper_classifier (c : Q) (title : jsstring)
  : option ClassResult :=
  Some {| res_category :=
            if starts_with (u16 "Paper") title then u16 "research-paper"
            else u16 "industry-news";
          res_confidence := Num c |}.

(** The last branch of the rule-based classifier. *)
Definition default_rules (title source : jsstring) : ClassResult :=
  {| res_category := u16 "industry-news"; res_confidence := Num (6 # 10) |}.

Definition no_enrichment (useAI : bool) (a : Article) : Enrichment :=
  {| enr_entities := []; enr_difficulty := 3; enr_summary := [] |}.

(** A disk on which every call succeeds, and one on which writing
    [path] fails. *)
Definition healthy_disk : Disk :=
  {| mkdir_error := None; write_error := fun _ => None |}.

Definition path_eqb (p q : Path) : bool :=
  match p, q with
  | LatestRaw, LatestRaw => true
  | LatestProcessed, LatestProcessed => true
  | DailyProcessed d, DailyProcessed d' => d =? d'
  | RejectedCache, RejectedCache => true
  | _, _ => false
  end.

Definition failing_disk (path : Path) (e : Error) : Disk :=
  {| mkdir_error := None;
     write_error := fun p => if path_eqb p path then Some e else None |}.

(** Sample data: a source, a feed item, an article and a processed
    article with the given fields, and a clock that reads the same
    instant at every call. *)
Definition source_of (n c : string) : Source :=
  {| name := u16 n; feed_url := u16 "https://example.com/feed";
     category := u16 c; priority := 1 |}.

Definition item_of (t u : string) (d : DateField) : RawItem :=
  {| item_title := Some (u16 t); link := Some (u16 u); guid := None;
     item_pubDate := d; isoDate := Absent; published := Absent;
     contentSnippet := None; content := None; summary := None |}.

Definition article_of (i t u : string) (d : DateField) : Article :=
  {| id := u16 i; title := u16 t; url := u16 u;
     source := u16 "Example Feed"; source_domain := u16 "example.com";
     source_category := u16 "news"; source_priority := 1;
     pubDate := d; published_at := Absent;
     metaDescription := []; crawledAt := d |}.

Definition processed_of (a : Article) (c : Q) : ProcessedArticle :=
  {| p_article := a; p_category := u16 "industry-news";
     p_confidence := Num c; p_difficulty := 3; p_entities := [];
     p_summary := []; p_language := u16 "en";
     processed_at := crawledAt a |}.

Definition frozen_item_clock (t : Z) : ItemClock :=
  {| fallbackNow := t; now := t; cutoffNow := t; crawledNow := t |}.

Definition frozen_clock (t : Z) : ProcessClock :=
  {| stampOf := fun _ => t; cleanupNow := t; processedAtNow := t;
     todayNow := t; dailyProcessedAtNow := t; rejectedCleanupNow := t;
     rejectedUpdatedNow := t |}.

Definition default_env : Env :=
  {| PROCESSING_LIMIT := None; PROCESS_CONFIDENCE_THRESHOLD := None;
     REJECTED_CACHE_CLEANUP_DAYS := None |}.

Definition raw_snapshot (t : Z) (articles : list Article) : RawSnapshot :=
  {| raw_crawledAt := Instant t; raw_totalSources := 1;
     raw_totalArticles := length articles; raw_aiFilterUsed := false;
     raw_articles := articles |}.

Definition process_world (raw : list Article)
    (existing : list ProcessedArticle) (rejected : list RejectedArticle)
    (e : Env) (t : Z) (d : Disk) : ProcessWorld :=
  {| rawFile := Fulfilled (raw_snapshot t raw);
     processedFile := Some existing; rejectedFile := Some rejected;
     env := e; modelsLoaded := true; pclock := frozen_clock t;
     process_disk := d |}.

Definition crawl_world (sources : list Source) (feed : list RawItem)
    (t : Z) (d : Disk) : CrawlWorld :=
  {| aiFilterReady := false; sourcesFile := Fulfilled sources;
     feedOf := fun _ => Some feed; clockOf := fun _ _ => frozen_item_clock t;
     snapshotNow := t; crawl_disk := d |}.

(** The names of the properties of [Object.prototype]. *)
Definition prototype_property (key : jsstring) : bool :=
  bool_decide
    (key ∈ map u16
       ["constructor"; "__defineGetter__"; "__defineSetter__";
        "hasOwnProperty"; "__lookupGetter__"; "__lookupSetter__";
        "isPrototypeOf"; "propertyIsEnumerable"; "toString"; "valueOf";
        "__proto__"; "toLocaleString"]%string).

(** Sample data for the grouped crawler: an entry with an author, a
    disk on which every call succeeds, and a world in which every
    source gets the feed [feed r] at its [r]-th attempt and every clock
    reads [t]. *)
Definition authored_item (t u a : string) (d : DateField) : Grouped.Item :=
  {| Grouped.entry := item_of t u d; Grouped.item_author := Some (u16 a) |}.


Definition grouped_world
    (sourcesJson : list (jsstring * option (list Source)))
    (feed : nat -> option (list Grouped.Item)) (t : Z) : Grouped.World :=
  {| Grouped.sourcesFile := Fulfilled sourcesJson;
     Grouped.feedAt := fun _ _ r => feed r;
     Grouped.clockAt := fun _ _ _ _ => frozen_item_clock t;
     Grouped.groupCrawledNow := fun _ => t;
     Grouped.groupStampNow := fun _ => t;
     Grouped.combinedNow := t |}.

(** 2025-11-03T00:00:00.000Z *)
Definition sample_now : Z := 1762128000000.

(** * Properties *)

(** ** 32-bit arithmetic *)

Lemma ToInt32_range (x : Z) : - 2 ^ 31 <= ToInt32 x < 2 ^ 31.
Proof.
  unfold ToInt32.
  pose proof (Z.mod_pos_bound x (2 ^ 32) ltac:(lia)) as Hm.
  destruct (2 ^ 31 <=? x mod 2 ^ 32) eqn:E; lia.
Qed.

Lemma ToInt32_mod (x : Z) : ToInt32 x mod 2 ^ 32 = x mod 2 ^ 32.
Proof.
  unfold ToInt32.
  destruct (2 ^ 31 <=? x mod 2 ^ 32) eqn:E.
  - replace (x mod 2 ^ 32 - 2 ^ 32) with (x mod 2 ^ 32 + (-1) * 2 ^ 32) by lia.
    rewrite Z.mod_add by lia. apply Z.mod_mod. lia.
  - apply Z.mod_mod. lia.
Qed.

Lemma ToInt32_congr (x y : Z) :
  x mod 2 ^ 32 = y mod 2 ^ 32 -> ToInt32 x = ToInt32 y.
Proof. unfold ToInt32. intros ->. reflexivity. Qed.

Lemma ToInt32_idem (x : Z) : ToInt32 (ToInt32 x) = ToInt32 x.
Proof. apply ToInt32_congr, ToInt32_mod. Qed.

Lemma ToInt32_small (x : Z) : - 2 ^ 31 <= x < 2 ^ 31 -> ToInt32 x = x.
Proof.
  intros Hx. unfold ToInt32.
  destruct (Z_lt_le_dec x 0) as [Hneg | Hpos].
  - replace (x mod 2 ^ 32) with (x + 2 ^ 32).
    + destruct (2 ^ 31 <=? x + 2 ^ 32) eqn:E; lia.
    + apply Z.mod_unique with (q := -1); lia.
  - rewrite Z.mod_small by lia.
    destruct (2 ^ 31 <=? x) eqn:E; lia.
Qed.

Lemma and32_diag (x : Z) : and32 x x = ToInt32 x.
Proof. unfold and32. rewrite Z.land_diag. apply ToInt32_idem. Qed.

Lemma shl32_5_mod (x : Z) : shl32 x 5 mod 2 ^ 32 = (x * 32) mod 2 ^ 32.
Proof.
  unfold shl32. change (Z.land 5 31) with 5.
  rewrite ToInt32_mod, Z.shiftl_mul_pow2 by lia.
  change (2 ^ 5) with 32.
  rewrite <- Z.mul_mod_idemp_l, ToInt32_mod, Z.mul_mod_idemp_l by lia.
  reflexivity.
Qed.

(** The loop body of [generateId] is the step the specification
    describes. *)
Lemma hash_step_spec (hash c : Z) : hash_step hash c = spec_hash_step hash c.
Proof.
  unfold hash_step, spec_hash_step. rewrite and32_diag.
  apply ToInt32_congr.
  rewrite Z.shiftl_mul_pow2 by lia. change (2 ^ 5) with 32.
  rewrite <- Z.add_mod_idemp_l, <- Zminus_mod_idemp_l, shl32_5_mod by lia.
  rewrite Zminus_mod_idemp_l, Z.add_mod_idemp_l by lia.
  reflexivity.
Qed.

Lemma fold_hash_step_spec (content : jsstring) (h : Z) :
  fold_left hash_step content h = fold_left spec_hash_step content h.
Proof.
  revert h. induction content as [| c r IH]; intros h; simpl.
  - reflexivity.
  - rewrite hash_step_spec. apply IH.
Qed.

Lemma spec_hash_range (content : jsstring) :
  - 2 ^ 31 <= spec_hash content < 2 ^ 31.
Proof.
  unfold spec_hash.
  assert (H : forall h, - 2 ^ 31 <= h < 2 ^ 31 ->
              - 2 ^ 31 <= fold_left spec_hash_step content h < 2 ^ 31).
  { induction content as [| c r IH]; intros h Hh; simpl.
    - exact Hh.
    - apply IH. apply ToInt32_range. }
  apply H. lia.
Qed.

(** ** Base 36 *)

Lemma digit36_value_digit36 (d : Z) :
  0 <= d < 36 -> digit36_value (digit36 d) = Some d.
Proof.
  intros Hd. unfold digit36, digit36_value.
  destruct (d <? 10) eqn:E.
  - apply Z.ltb_lt in E.
    replace ((48 <=? 48 + d) && (48 + d <=? 57)) with true
      by (symmetry; apply andb_true_iff; split; apply Z.leb_le; lia).
    f_equal. lia.
  - apply Z.ltb_ge in E.
    replace ((48 <=? 97 + (d - 10)) && (97 + (d - 10) <=? 57)) with false
      by (symmetry; apply andb_false_iff; right; apply Z.leb_gt; lia).
    replace ((97 <=? 97 + (d - 10)) && (97 + (d - 10) <=? 122)) with true
      by (symmetry; apply andb_true_iff; split; apply Z.leb_le; lia).
    f_equal. lia.
Qed.

Lemma digit36_zero (d : Z) : 0 <= d < 36 -> digit36 d = 48 -> d = 0.
Proof.
  unfold digit36. intros Hd. destruct (d <? 10) eqn:E; [lia |].
  apply Z.ltb_ge in E. lia.
Qed.

Lemma toString36_aux_S (fuel : nat) (n : Z) (acc : jsstring) :
  toString36_aux (S fuel) n acc =
  if n / 36 =? 0 then digit36 (n mod 36) :: acc
  else toString36_aux fuel (n / 36) (digit36 (n mod 36) :: acc).
Proof. reflexivity. Qed.

Lemma pow2_S (k : nat) : 2 ^ Z.of_nat (S k) = 2 * 2 ^ Z.of_nat k.
Proof. rewrite Nat2Z.inj_succ, Z.pow_succ_r by lia. reflexivity. Qed.

(** Reading the numeral back yields the number: the fuel suffices. *)
Lemma toString36_aux_parse (fuel : nat) :
  forall (n : Z) (acc : jsstring),
    0 <= n < 2 ^ Z.of_nat (S fuel) ->
    fold_left parse36_step (toString36_aux (S fuel) n acc) (Some 0) =
    fold_left parse36_step acc (Some n).
Proof.
  induction fuel as [| fuel IH]; intros n acc Hn; rewrite toString36_aux_S.
  - change (2 ^ Z.of_nat 1) with 2 in Hn.
    replace (n / 36) with 0 by (symmetry; apply Z.div_small; lia).
    rewrite Z.mod_small by lia. simpl.
    unfold parse36_step at 2. rewrite digit36_value_digit36 by lia.
    reflexivity.
  - pose proof (Z.div_mod n 36 ltac:(lia)) as Hdm.
    pose proof (Z.mod_pos_bound n 36 ltac:(lia)) as Hmod.
    destruct (n / 36 =? 0) eqn:E.
    + apply Z.eqb_eq in E. simpl.
      unfold parse36_step at 2. rewrite digit36_value_digit36 by lia.
      do 2 f_equal. lia.
    + apply Z.eqb_neq in E.
      rewrite pow2_S in Hn.
      assert (Hq : 0 <= n / 36 < 2 ^ Z.of_nat (S fuel)).
      { split; [apply Z.div_pos; lia |].
        apply Z.div_lt_upper_bound; lia. }
      rewrite IH by exact Hq. simpl.
      unfold parse36_step at 2. rewrite digit36_value_digit36 by lia.
      do 2 f_equal. lia.
Qed.

Lemma toString36_aux_shape (fuel : nat) :
  forall (n : Z) (acc : jsstring),
    0 <= n < 2 ^ Z.of_nat (S fuel) ->
    exists c r,
      toString36_aux (S fuel) n acc = c :: r ++ acc /\
      Forall (fun c => is_Some (digit36_value c)) (c :: r) /\
      (n <> 0 -> c <> 48) /\
      (n = 0 -> c = 48 /\ r = []).
Proof.
  assert (Hlast : forall n acc, 0 <= n < 36 ->
            exists c r,
              digit36 n :: acc = c :: r ++ acc /\
              Forall (fun c => is_Some (digit36_value c)) (c :: r) /\
              (n <> 0 -> c <> 48) /\
              (n = 0 -> c = 48 /\ r = [])).
  { intros n acc Hn. exists (digit36 n), [].
    split; [reflexivity |]. split; [| split].
    - constructor; [| constructor].
      rewrite digit36_value_digit36 by lia. eauto.
    - intros Hnz Hd. apply digit36_zero in Hd; lia.
    - intros ->. split; reflexivity. }
  induction fuel as [| fuel IH]; intros n acc Hn; rewrite toString36_aux_S.
  - change (2 ^ Z.of_nat 1) with 2 in Hn.
    replace (n / 36) with 0 by (symmetry; apply Z.div_small; lia).
    rewrite Z.mod_small by lia. simpl. apply Hlast. lia.
  - pose proof (Z.div_mod n 36 ltac:(lia)) as Hdm.
    pose proof (Z.mod_pos_bound n 36 ltac:(lia)) as Hmod.
    destruct (n / 36 =? 0) eqn:E.
    + apply Z.eqb_eq in E.
      replace (n mod 36) with n by lia. apply Hlast. lia.
    + apply Z.eqb_neq in E.
      rewrite pow2_S in Hn.
      assert (Hq : 0 <= n / 36 < 2 ^ Z.of_nat (S fuel)).
      { split; [apply Z.div_pos; lia |].
        apply Z.div_lt_upper_bound; lia. }
      destruct (IH (n / 36) (digit36 (n mod 36) :: acc) Hq)
        as (c & r & Heq & Hall & Hnz & _).
      exists c, (r ++ [digit36 (n mod 36)]).
      split; [| split; [| split]].
      * rewrite Heq. rewrite <- app_assoc. reflexivity.
      * rewrite app_comm_cons. apply Forall_app. split; [exact Hall |].
        constructor; [| constructor].
        rewrite digit36_value_digit36 by lia. eauto.
      * intros _. apply Hnz. exact E.
      * intros ->. exfalso. apply E. reflexivity.
Qed.

Lemma toString36_fuel (n : Z) :
  0 <= n -> 0 <= n < 2 ^ Z.of_nat (S (Z.to_nat (Z.log2 n))).
Proof.
  intros Hn. split; [exact Hn |].
  rewrite Nat2Z.inj_succ, Z2Nat.id by apply Z.log2_nonneg.
  destruct (Z.eq_dec n 0) as [-> | Hnz].
  - reflexivity.
  - apply Z.log2_spec. lia.
Qed.

Lemma toString36_value (n : Z) : 0 <= n -> parse36 (toString36 n) = Some n.
Proof.
  intros Hn. unfold toString36, parse36.
  pose proof (toString36_aux_shape _ n [] (toString36_fuel n Hn))
    as (c & r & Heq & _).
  pose proof (toString36_aux_parse _ n [] (toString36_fuel n Hn)) as Hp.
  rewrite Heq in *. exact Hp.
Qed.

Lemma toString36_canonical (n : Z) : 0 <= n -> canonical36 (toString36 n).
Proof.
  intros Hn. unfold toString36, canonical36.
  pose proof (toString36_aux_shape _ n [] (toString36_fuel n Hn))
    as (c & r & Heq & Hall & Hnz & Hz).
  rewrite Heq, app_nil_r. split; [exact Hall |].
  destruct (Z.eq_dec n 0) as [-> | Hne].
  - left. destruct (Hz eq_refl) as [-> ->]. reflexivity.
  - right. exists c, r. split; [reflexivity | apply Hnz, Hne].
Qed.

(** ** [generateId] *)

Lemma generateId_eq_spec (title url : jsstring) :
  generateId title url = toString36 (Z.abs (spec_hash (title ++ url))).
Proof.
  unfold generateId, spec_hash. rewrite fold_hash_step_spec. reflexivity.
Qed.

(** C1. [generateId] is a function of its two arguments (equal inputs
    give equal ids), and its result is the base-36 numeral of the absolute
    value of the 32-bit signed accumulation
    [hash := ToInt32 ((hash << 5) - hash + c)] over the characters of
    [title + url], from 0: it is [toString(36)] of that value, reads
    back to it, and is a canonical numeral. *)
Theorem generateId_deterministic_base36 (title url : jsstring) :
  (forall title' url' : jsstring,
      title' = title -> url' = url ->
      generateId title' url' = generateId title url) /\
  - 2 ^ 31 <= spec_hash (title ++ url) < 2 ^ 31 /\
  generateId title url = toString36 (Z.abs (spec_hash (title ++ url))) /\
  parse36 (generateId title url) = Some (Z.abs (spec_hash (title ++ url))) /\
  canonical36 (generateId title url).
Proof.
  split; [| split; [| split; [| split]]].
  - intros title' url' -> ->. reflexivity.
  - apply spec_hash_range.
  - apply generateId_eq_spec.
  - rewrite generateId_eq_spec. apply toString36_value. lia.
  - rewrite generateId_eq_spec. apply toString36_canonical. lia.
Qed.

(** C10. The id only depends on the concatenation [title + url]: moving
    the boundary between the two keeps the id, and two pairs with equal
    concatenations have equal ids. *)
Theorem generateId_boundary_insensitive (a b c : jsstring) :
  generateId a (b ++ c) = generateId (a ++ b) c /\
  (forall title url title' url' : jsstring,
      title ++ url = title' ++ url' ->
      generateId title url = generateId title' url').
Proof.
  split.
  - unfold generateId. rewrite app_assoc. reflexivity.
  - intros title url title' url' H. unfold generateId. rewrite H.
    reflexivity.
Qed.

(** ** The crawler *)

Lemma starts_with_app (pat rest : jsstring) : starts_with pat (pat ++ rest) = true.
Proof.
  induction pat as [| p pat IH]; simpl.
  - reflexivity.
  - rewrite Z.eqb_refl. exact IH.
Qed.

Lemma replace_first_prefix (pat rest : jsstring) :
  replace_first pat (pat ++ rest) = rest.
Proof.
  destruct (pat ++ rest) as [| c r] eqn:E.
  - destruct pat; [simpl in E; subst; reflexivity | discriminate].
  - cbn [replace_first]. rewrite <- E, starts_with_app.
    rewrite drop_app_length. reflexivity.
Qed.

Lemma replace_first_absent (pat s : jsstring) :
  (forall k, starts_with pat (drop k s) = false) -> replace_first pat s = s.
Proof.
  induction s as [| c r IH]; intros H.
  - reflexivity.
  - cbn [replace_first]. pose proof (H O) as H0.
    change (drop 0 (c :: r)) with (c :: r) in H0. rewrite H0.
    f_equal. apply IH. intros k. exact (H (S k)).
Qed.

Lemma replace_first_inner (pat rest : jsstring) (c : Z) :
  starts_with pat (c :: pat ++ rest) = false ->
  replace_first pat (c :: pat ++ rest) = c :: rest.
Proof.
  intros H. cbn [replace_first]. rewrite H.
  f_equal. apply replace_first_prefix.
Qed.

Section CrawlFacts.

Variable url_hostname : jsstring -> option jsstring.
Variable toLowerCase : jsstring -> jsstring.
Variable isRelevant : bool -> Source -> jsstring -> jsstring -> bool.

Local Abbreviation extractDomain := (extractDomain url_hostname).
Local Abbreviation dedupKey := (dedupKey toLowerCase).
Local Abbreviation removeDuplicates := (removeDuplicates toLowerCase).
Local Abbreviation removeDuplicates_step := (removeDuplicates_step toLowerCase).
Local Abbreviation crawlItem := (crawlItem url_hostname isRelevant).
Local Abbreviation crawlItems := (crawlItems url_hostname isRelevant).
Local Abbreviation crawlFeed := (crawlFeed url_hostname isRelevant).
Local Abbreviation reachesDateHandling := (reachesDateHandling isRelevant).

(** *** [extractDomain] *)

Lemma extractDomain_unparseable (url : jsstring) :
  url_hostname url = None -> extractDomain url = u16 "unknown".
Proof. unfold extractDomain. intros ->. reflexivity. Qed.

Lemma extractDomain_leading_www (url host : jsstring) :
  url_hostname url = Some (u16 "www." ++ host) -> extractDomain url = host.
Proof.
  unfold extractDomain. intros ->. apply replace_first_prefix.
Qed.

Lemma extractDomain_without_www (url host : jsstring) :
  url_hostname url = Some host ->
  (forall k, starts_with (u16 "www.") (drop k host) = false) ->
  extractDomain url = host.
Proof.
  unfold extractDomain. intros -> H. apply replace_first_absent, H.
Qed.

(** C9 (the defect). [extractDomain] removes the first "www." of the
    hostname wherever it stands: a hostname that does not begin with
    "www." but holds it after its first character comes back without
    it, not unchanged. *)
Lemma extractDomain_inner_www (url host : jsstring) (c : Z) :
  url_hostname url = Some (c :: u16 "www." ++ host) ->
  starts_with (u16 "www.") (c :: u16 "www." ++ host) = false ->
  extractDomain url = c :: host.
Proof.
  unfold extractDomain. intros -> H. apply replace_first_inner, H.
Qed.

(** *** Dates at normalization *)

Lemma normalizeDate_invalid (source : Source) (clk : ItemClock)
    (item : RawItem) :
  itemDate clk item = None -> normalizeDate source clk item = None.
Proof. unfold normalizeDate. intros ->. reflexivity. Qed.

Lemma normalizeDate_le_now (source : Source) (clk : ItemClock)
    (item : RawItem) (t : Z) :
  normalizeDate source clk item = Some t -> t <= now clk.
Proof.
  unfold normalizeDate.
  destruct (itemDate clk item) as [parsed |]; [| discriminate].
  destruct (date_lt _ _); [discriminate |].
  intros [= <-]. destruct (now clk <? parsed) eqn:E.
  - lia.
  - apply Z.ltb_ge in E. exact E.
Qed.

Lemma normalizeDate_future (source : Source) (clk : ItemClock)
    (item : RawItem) (parsed : Z) :
  itemDate clk item = Some parsed ->
  now clk < parsed ->
  cutoffNow clk - daysBack source * day_ms <= now clk ->
  normalizeDate source clk item = Some (now clk).
Proof.
  unfold normalizeDate. intros -> Hfuture Hcut.
  apply Z.ltb_lt in Hfuture. rewrite Hfuture.
  unfold date_lt, date_gt, Date_of_number.
  destruct (Z.abs _ <=? _); [| reflexivity].
  replace (now clk <? cutoffNow clk - daysBack source * day_ms) with false
    by (symmetry; apply Z.ltb_ge; lia).
  reflexivity.
Qed.

(** The date that comes out of the date handling is the parsed date,
    or [now] when the parsed date is after [now]: the smaller of the
    two. *)
Lemma normalizeDate_min (source : Source) (clk : ItemClock)
    (item : RawItem) (t : Z) :
  normalizeDate source clk item = Some t ->
  exists parsed, itemDate clk item = Some parsed /\
                 t = Z.min parsed (now clk).
Proof.
  unfold normalizeDate.
  destruct (itemDate clk item) as [parsed |]; [| discriminate].
  destruct (date_lt _ _); [discriminate |].
  intros [= <-]. exists parsed. split; [reflexivity |].
  destruct (now clk <? parsed) eqn:E.
  - apply Z.ltb_lt in E. lia.
  - apply Z.ltb_ge in E. lia.
Qed.

Lemma normalizeDate_kept (source : Source) (clk : ItemClock)
    (item : RawItem) (parsed : Z) :
  itemDate clk item = Some parsed ->
  parsed <= now clk ->
  date_lt (Some parsed)
    (Date_of_number (cutoffNow clk - daysBack source * day_ms)) = false ->
  normalizeDate source clk item = Some parsed.
Proof.
  unfold normalizeDate. intros -> Hle Hcut.
  replace (now clk <? parsed) with false by (symmetry; apply Z.ltb_ge; lia).
  rewrite Hcut. reflexivity.
Qed.

Lemma crawlItem_Some (useAIFilter : bool) (source : Source)
    (clk : ItemClock) (item : RawItem) (a : Article) :
  crawlItem useAIFilter source clk item = Some a ->
  reachesDateHandling useAIFilter source item = true /\
  exists t, normalizeDate source clk item = Some t /\ pubDate a = Instant t.
Proof.
  unfold crawlItem, reachesDateHandling.
  destruct (truthy_str (Some (cleanTitle _))); simpl; [| discriminate].
  destruct (truthy_str (or_str (link item) (guid item))); simpl;
    [| discriminate].
  destruct (isRelevant _ _ _ _); simpl; [| discriminate].
  destruct (normalizeDate source clk item) as [t |]; [| discriminate].
  intros [= <-]. split; [reflexivity |]. exists t. split; reflexivity.
Qed.

Lemma crawlItem_reaches (useAIFilter : bool) (source : Source)
    (clk : ItemClock) (item : RawItem) (t : Z) :
  reachesDateHandling useAIFilter source item = true ->
  normalizeDate source clk item = Some t ->
  exists a, crawlItem useAIFilter source clk item = Some a /\
            pubDate a = Instant t.
Proof.
  unfold crawlItem, reachesDateHandling.
  destruct (truthy_str (Some (cleanTitle _))); simpl; [| discriminate].
  destruct (truthy_str (or_str (link item) (guid item))); simpl;
    [| discriminate].
  intros -> ->. simpl. eexists. split; reflexivity.
Qed.

Lemma crawlItem_invalid_date (useAIFilter : bool) (source : Source)
    (clk : ItemClock) (item : RawItem) :
  itemDate clk item = None -> crawlItem useAIFilter source clk item = None.
Proof.
  intros H. destruct (crawlItem useAIFilter source clk item) as [a |] eqn:E;
    [| reflexivity].
  apply crawlItem_Some in E as (_ & t & Ht & _).
  rewrite normalizeDate_invalid in Ht by exact H. discriminate.
Qed.

(** The articles of a feed are exactly the successful normalizations
    of its items. *)
Lemma crawlItems_elem (useAIFilter : bool) (source : Source)
    (clock : nat -> ItemClock) (items : list RawItem) :
  forall (i : nat) (acc : list Article) (a : Article),
    a ∈ crawlItems useAIFilter source clock i items acc <->
    a ∈ acc \/
    exists k item, items !! k = Some item /\
      crawlItem useAIFilter source (clock (i + k)%nat) item = Some a.
Proof.
  induction items as [| item rest IH]; intros i acc a; simpl.
  - split; [intros H; left; exact H |].
    intros [H | (k & it & Hk & _)]; [exact H | discriminate].
  - rewrite IH. split.
    + intros [Hacc | (k & it & Hk & Hc)].
      * destruct (crawlItem useAIFilter source (clock i) item) as [b |] eqn:E.
        -- apply elem_of_app in Hacc as [Hacc | Hb]; [left; exact Hacc |].
           apply list_elem_of_singleton in Hb as ->.
           right. exists O, item. rewrite Nat.add_0_r. split; [reflexivity | exact E].
        -- left. exact Hacc.
      * right. exists (S k), it. split; [exact Hk |].
        rewrite <- Nat.add_succ_comm. exact Hc.
    + intros [Hacc | (k & it & Hk & Hc)].
      * left. destruct (crawlItem useAIFilter source (clock i) item);
          [apply elem_of_app; left |]; exact Hacc.
      * destruct k as [| k].
        -- simpl in Hk. injection Hk as <-. rewrite Nat.add_0_r in Hc.
           left. rewrite Hc. apply elem_of_app. right.
           apply list_elem_of_singleton. reflexivity.
        -- right. exists k, it. split; [exact Hk |].
           rewrite Nat.add_succ_comm. exact Hc.
Qed.

Lemma crawlFeed_elem (useAIFilter : bool) (source : Source)
    (feed : list RawItem) (clock : nat -> ItemClock) (a : Article) :
  a ∈ crawlFeed useAIFilter source (Some feed) clock <->
  exists k item, (k < itemLimit source)%nat /\ feed !! k = Some item /\
    crawlItem useAIFilter source (clock k) item = Some a.
Proof.
  unfold crawlFeed. rewrite crawlItems_elem. split.
  - intros [H | (k & item & Hk & Hc)]; [inversion H |].
    apply lookup_take_Some in Hk as [Hk Hlt].
    exists k, item. auto.
  - intros (k & item & Hlt & Hk & Hc). right. exists k, item.
    split; [apply lookup_take_Some; auto | exact Hc].
Qed.

(** C2. The date of an entry is read from [pubDate], else [isoDate],
    else [published], else the clock.  An entry whose date cannot be
    parsed yields no article.  An entry that reaches the date handling
    with a date after [now] is kept and carries [now] as its date
    (the clock read for the cut-off being no more than the look-back
    window ahead of [now]).  Every article produced has a date that is
    at most the [now] of its normalization, and the articles of a feed
    are exactly the articles produced from its items, so a rejected
    entry is in no output.  The date an article carries is the date
    parsed from its entry, lowered to [now] when it lies after [now]
    and left as it is otherwise: the smaller of the two; and an entry
    that reaches the date handling with a date that is not after [now]
    and not before the cut-off of its source is kept with that very
    date. *)
Theorem normalization_date_handling (useAIFilter : bool) (source : Source)
    (clk : ItemClock) (item : RawItem) :
  itemDate clk item =
    (if truthy_field (item_pubDate item) then Date_of_field (item_pubDate item)
     else if truthy_field (isoDate item) then Date_of_field (isoDate item)
     else if truthy_field (published item) then Date_of_field (published item)
     else Date_of_number (fallbackNow clk)) /\
  (itemDate clk item = None ->
   crawlItem useAIFilter source clk item = None) /\
  (forall parsed : Z,
      reachesDateHandling useAIFilter source item = true ->
      itemDate clk item = Some parsed ->
      now clk < parsed ->
      cutoffNow clk - daysBack source * day_ms <= now clk ->
      exists a, crawlItem useAIFilter source clk item = Some a /\
                pubDate a = Instant (now clk)) /\
  (forall a : Article,
      crawlItem useAIFilter source clk item = Some a ->
      exists t, pubDate a = Instant t /\ t <= now clk) /\
  (forall (feed : list RawItem) (clock : nat -> ItemClock) (a : Article),
      a ∈ crawlFeed useAIFilter source (Some feed) clock <->
      exists k entry, (k < itemLimit source)%nat /\ feed !! k = Some entry /\
        crawlItem useAIFilter source (clock k) entry = Some a) /\
  (forall (feed : list RawItem) (clock : nat -> ItemClock) (a : Article),
      a ∈ crawlFeed useAIFilter source (Some feed) clock ->
      exists k t, pubDate a = Instant t /\ t <= now (clock k)) /\
  (forall a : Article,
      crawlItem useAIFilter source clk item = Some a ->
      exists parsed,
        itemDate clk item = Some parsed /\
        pubDate a = Instant (Z.min parsed (now clk))) /\
  (forall parsed : Z,
      reachesDateHandling useAIFilter source item = true ->
      itemDate clk item = Some parsed ->
      parsed <= now clk ->
      date_lt (Some parsed)
        (Date_of_number (cutoffNow clk - daysBack source * day_ms)) = false ->
      exists a, crawlItem useAIFilter source clk item = Some a /\
                pubDate a = Instant parsed) /\
  (forall (feed : list RawItem) (clock : nat -> ItemClock) (a : Article),
      a ∈ crawlFeed useAIFilter source (Some feed) clock ->
      exists k entry parsed,
        feed !! k = Some entry /\
        itemDate (clock k) entry = Some parsed /\
        pubDate a = Instant (Z.min parsed (now (clock k)))).
Proof.
  split; [reflexivity |].
  split; [apply crawlItem_invalid_date |].
  split.
  { intros parsed Hreach Hdate Hfuture Hcut.
    apply crawlItem_reaches; [exact Hreach |].
    eapply normalizeDate_future; eauto. }
  split.
  { intros a Ha. apply crawlItem_Some in Ha as (_ & t & Ht & Hp).
    exists t. split; [exact Hp |]. eapply normalizeDate_le_now, Ht. }
  split.
  { intros feed clock a. apply crawlFeed_elem. }
  split.
  { intros feed clock a Ha.
    apply crawlFeed_elem in Ha as (k & entry & _ & _ & Hc).
    apply crawlItem_Some in Hc as (_ & t & Ht & Hp).
    exists k, t. split; [exact Hp |]. eapply normalizeDate_le_now, Ht. }
  split.
  { intros a Ha. apply crawlItem_Some in Ha as (_ & t & Ht & Hp).
    apply normalizeDate_min in Ht as (parsed & Hparsed & ->).
    exists parsed. split; [exact Hparsed | exact Hp]. }
  split.
  { intros parsed Hreach Hdate Hle Hcut.
    apply crawlItem_reaches; [exact Hreach |].
    apply normalizeDate_kept; assumption. }
  intros feed clock a Ha.
  apply crawlFeed_elem in Ha as (k & entry & _ & Hk & Hc).
  apply crawlItem_Some in Hc as (_ & t & Ht & Hp).
  apply normalizeDate_min in Ht as (parsed & Hparsed & ->).
  exists k, entry, parsed. split; [exact Hk |]. split; [exact Hparsed | exact Hp].
Qed.

(** *** [removeDuplicates] *)

(** The loop from any state: what it appends to [unique] is a
    subsequence of the remaining articles, with pairwise different
    keys, none of them seen before; each appended article is the first
    of the remaining ones with its key; and every remaining article
    has its key either seen before or borne by an appended one. *)
Lemma removeDuplicates_fold (articles : list Article) :
  forall (unique : list Article) (seen : gset (list Z)),
  exists kept : list Article,
    fst (fold_left removeDuplicates_step articles (unique, seen))
      = unique ++ kept /\
    kept `sublist_of` articles /\
    NoDup ((fun a => dedupKey (title a)) <$> kept) /\
    (forall b, b ∈ kept ->
       (dedupKey (title b) ∉ seen) /\
       exists i, list_find (fun a => dedupKey (title a) = dedupKey (title b))
                   articles = Some (i, b)) /\
    (forall a, a ∈ articles ->
       dedupKey (title a) ∈ seen \/
       exists b, b ∈ kept /\ dedupKey (title b) = dedupKey (title a)).
Proof.
  induction articles as [| a rest IH]; intros unique seen.
  - exists []. simpl. rewrite app_nil_r.
    split; [reflexivity |]. split; [constructor |]. split; [constructor |].
    split; intros x Hx; inversion Hx.
  - cbn [fold_left]. unfold removeDuplicates_step at 2.
    destruct (decide (dedupKey (title a) ∈ seen)) as [Hin | Hnotin].
    + destruct (IH unique seen) as (kept & Heq & Hsub & Hnd & Hfirst & Hcov).
      exists kept. split; [exact Heq |].
      split; [apply sublist_cons, Hsub |]. split; [exact Hnd |]. split.
      * intros b Hb. destruct (Hfirst b Hb) as (Hbs & i & Hi).
        split; [exact Hbs |]. exists (S i). cbn [list_find].
        rewrite decide_False by (intros Heq'; apply Hbs; rewrite <- Heq'; exact Hin).
        rewrite Hi. reflexivity.
      * intros x Hx. apply elem_of_cons in Hx as [-> | Hx];
          [left; exact Hin | apply Hcov, Hx].
    + destruct (IH (unique ++ [a]) (seen ∪ {[dedupKey (title a)]}))
        as (kept & Heq & Hsub & Hnd & Hfirst & Hcov).
      exists (a :: kept). split; [rewrite Heq, <- app_assoc; reflexivity |].
      split; [apply sublist_skip, Hsub |]. split; [| split].
      * rewrite fmap_cons. apply NoDup_cons. split; [| exact Hnd].
        intros Hk. apply list_elem_of_fmap in Hk as (b & Hkb & Hb).
        destruct (Hfirst b Hb) as (Hbs & _). apply Hbs.
        rewrite <- Hkb. apply elem_of_union. right.
        apply elem_of_singleton. reflexivity.
      * intros b Hb. apply elem_of_cons in Hb as [-> | Hb].
        -- split; [exact Hnotin |]. exists O. cbn [list_find].
           rewrite decide_True by reflexivity. reflexivity.
        -- destruct (Hfirst b Hb) as (Hbs & i & Hi).
           split; [intros Hs; apply Hbs, elem_of_union; left; exact Hs |].
           exists (S i). cbn [list_find].
           rewrite decide_False
             by (intros Heq'; apply Hbs, elem_of_union; right;
                 apply elem_of_singleton; symmetry; exact Heq').
           rewrite Hi. reflexivity.
      * intros x Hx. apply elem_of_cons in Hx as [-> | Hx].
        -- right. exists a. split; [apply elem_of_cons; left |]; reflexivity.
        -- destruct (Hcov x Hx) as [Hs | (b & Hb & Hkb)].
           ++ apply elem_of_union in Hs as [Hs | Hs]; [left; exact Hs |].
              apply elem_of_singleton in Hs.
              right. exists a. split; [apply elem_of_cons; left; reflexivity |].
              symmetry. exact Hs.
           ++ right. exists b. split; [apply elem_of_cons; right; exact Hb | exact Hkb].
Qed.

End CrawlFacts.

(** ** The processing pass *)

Lemma filter_idemp {A : Type} (P : A -> Prop) `{!forall x, Decision (P x)}
    (l : list A) :
  filter P (filter P l) = filter P l.
Proof.
  induction l as [| x l IH]; [reflexivity |].
  rewrite filter_cons. destruct (decide (P x)) as [Hx | Hx].
  - rewrite filter_cons_True by exact Hx. f_equal. exact IH.
  - exact IH.
Qed.

Lemma date_gt_spec (a b : option Z) :
  date_gt a b = true <-> exists x y, a = Some x /\ b = Some y /\ y < x.
Proof.
  unfold date_gt. split.
  - destruct a as [x |], b as [y |]; try discriminate.
    intros H. apply Z.ltb_lt in H. eauto.
  - intros (x & y & -> & -> & H). apply Z.ltb_lt. exact H.
Qed.

Lemma cleanupThreshold_valid (nowMs : Z) :
  Z.abs (nowMs - cleanupThresholdDays * day_ms) <= 8640000000000000 ->
  cleanupThreshold nowMs = Some (nowMs - cleanupThresholdDays * day_ms).
Proof.
  intros H. unfold cleanupThreshold, Date_of_number.
  apply Z.leb_le in H. rewrite H. reflexivity.
Qed.

Lemma cleanupThreshold_Some (nowMs th : Z) :
  cleanupThreshold nowMs = Some th -> th = nowMs - cleanupThresholdDays * day_ms.
Proof.
  unfold cleanupThreshold, Date_of_number.
  destruct (Z.abs _ <=? _); [| discriminate]. intros [= <-]. reflexivity.
Qed.

Lemma recentArticles_elem (nowMs : Z) (articles : list ProcessedArticle)
    (a : ProcessedArticle) :
  a ∈ recentArticles nowMs articles <->
  a ∈ articles /\
  exists t th, effectiveDate (p_article a) = Some t /\
               cleanupThreshold nowMs = Some th /\ th < t.
Proof.
  unfold recentArticles. rewrite list_elem_of_filter.
  unfold isRecent. rewrite date_gt_spec. tauto.
Qed.

Lemma recentArticles_idemp (nowMs : Z) (articles : list ProcessedArticle) :
  recentArticles nowMs (recentArticles nowMs articles)
  = recentArticles nowMs articles.
Proof. apply filter_idemp. Qed.

(** C4 (the defect). The rolling cleanup keeps, in order, exactly the
    articles whose date is strictly later than [now - 15 days]: an
    article dated [now - 16 days] is dropped and one dated
    [now - 14 days] is kept, but one dated exactly [now - 15 days] is
    dropped as well, although it is not older than 15 days: the
    comparison is [pubDate > cleanupThreshold] where the message of the
    cleanup (articles older than 15 days) and the cut-off of the
    crawler ([pubDate < cutoffDate], which keeps its boundary) call for
    [>=]. *)
Theorem rolling_window_strictly_newer (nowMs : Z)
    (articles : list ProcessedArticle) :
  Z.abs (nowMs - cleanupThresholdDays * day_ms) <= 8640000000000000 ->
  recentArticles nowMs articles `sublist_of` articles /\
  (forall a, a ∈ recentArticles nowMs articles <->
     a ∈ articles /\
     exists t, effectiveDate (p_article a) = Some t /\
               nowMs - cleanupThresholdDays * day_ms < t) /\
  (forall a, a ∈ articles ->
     effectiveDate (p_article a)
       = Some (nowMs - (cleanupThresholdDays + 1) * day_ms) ->
     a ∉ recentArticles nowMs articles) /\
  (forall a, a ∈ articles ->
     effectiveDate (p_article a)
       = Some (nowMs - (cleanupThresholdDays - 1) * day_ms) ->
     a ∈ recentArticles nowMs articles) /\
  (forall a, a ∈ articles ->
     effectiveDate (p_article a)
       = Some (nowMs - cleanupThresholdDays * day_ms) ->
     a ∉ recentArticles nowMs articles).
Proof.
  intros Hvalid. apply cleanupThreshold_valid in Hvalid.
  assert (Hchar : forall a, a ∈ recentArticles nowMs articles <->
            a ∈ articles /\
            exists t, effectiveDate (p_article a) = Some t /\
                      nowMs - cleanupThresholdDays * day_ms < t).
  { intros a. rewrite recentArticles_elem, Hvalid. split.
    - intros (Ha & t & th & Ht & [= <-] & Hlt). eauto.
    - intros (Ha & t & Ht & Hlt). eauto 6. }
  split; [apply sublist_filter |]. split; [exact Hchar |].
  unfold day_ms in *. split; [| split].
  - intros a _ Hd Hin. apply Hchar in Hin as (_ & t & Ht & Hlt).
    rewrite Hd in Ht. injection Ht as <-. lia.
  - intros a Ha Hd. apply Hchar. split; [exact Ha |].
    eexists. split; [exact Hd |]. lia.
  - intros a _ Hd Hin. apply Hchar in Hin as (_ & t & Ht & Hlt).
    rewrite Hd in Ht. injection Ht as <-. lia.
Qed.

(** C5. With the clock held fixed, cleaning up what a cleanup returned
    returns the same articles, removes none and reports no cleanup; and
    the snapshot that a run with nothing to classify builds from an
    already clean list has the same articles, [cleanedUpCount = 0] and
    [cleanupApplied = false]. *)
Theorem rolling_cleanup_idempotent (w : ProcessWorld) (rawData : RawSnapshot)
    (articles : list ProcessedArticle) :
  let nowMs := cleanupNow (pclock w) in
  let first := rollingCleanup nowMs articles in
  let second := rollingCleanup nowMs (cl_recentArticles first) in
  let latestData := cachedLatestData w rawData (cl_recentArticles first) in
  cl_recentArticles second = cl_recentArticles first /\
  cl_cleanedUpCount second = 0 /\
  cl_cleanupApplied second = false /\
  rollingCleanup nowMs (cl_recentArticles second) = second /\
  ld_articles latestData = cl_recentArticles first /\
  cleanedUpCount latestData = 0 /\
  cleanupApplied latestData = false.
Proof.
  cbn zeta. unfold cachedLatestData, rollingCleanup.
  cbn [cl_recentArticles cl_cleanedUpCount cl_cleanupApplied
       ld_articles cleanedUpCount cleanupApplied].
  rewrite !recentArticles_idemp, Z.sub_diag.
  repeat split.
Qed.

Lemma js_sort_insert_perm {A : Type} (cmp : A -> A -> option Z) (x : A)
    (l : list A) :
  sort_insert cmp x l ≡ₚ x :: l.
Proof.
  induction l as [| y r IH]; simpl.
  - reflexivity.
  - destruct (cmp_positive (cmp x y)); [| reflexivity].
    rewrite IH. apply Permutation_swap.
Qed.

(** Sorting rearranges and neither adds nor loses an element. *)
Lemma js_sort_perm {A : Type} (cmp : A -> A -> option Z) (l : list A) :
  js_sort cmp l ≡ₚ l.
Proof.
  unfold js_sort. induction l as [| x l IH]; simpl.
  - reflexivity.
  - rewrite js_sort_insert_perm, IH. reflexivity.
Qed.

Lemma slice0_prefix {A : Type} (n : Z) (l : list A) : slice0 n l `prefix_of` l.
Proof.
  unfold slice0. destruct (n <? 0); apply prefix_take.
Qed.

Lemma finalArticlesToProcess_prefix (e : Env) (articles : list Article) :
  finalArticlesToProcess e articles `prefix_of` articles.
Proof.
  unfold finalArticlesToProcess.
  destruct (PROCESSING_LIMIT e) as [[| z] |]; try reflexivity.
  destruct (z =? 0); [reflexivity | apply slice0_prefix].
Qed.

Lemma articlesToProcess_elem (raw : list Article)
    (existingProcessed : list ProcessedArticle)
    (rejectedArticles : list RejectedArticle) (a : Article) :
  a ∈ articlesToProcess raw existingProcessed rejectedArticles <->
  a ∈ raw /\
  (id a ∉ (fun p => id (p_article p)) <$> existingProcessed) /\
  (id a ∉ (fun r => id (r_article r)) <$> rejectedArticles).
Proof.
  unfold articlesToProcess. rewrite list_elem_of_filter.
  rewrite !elem_of_list_to_set. tauto.
Qed.

Section ProcessFacts.

Variable classifier : jsstring -> option ClassResult.
Variable classifyCategory : jsstring -> jsstring -> ClassResult.
Variable enrich : bool -> Article -> Enrichment.

Local Abbreviation classify := (classify classifier classifyCategory).
Local Abbreviation processedArticle := (processedArticle enrich).
Local Abbreviation processOne := (processOne classifier classifyCategory enrich).
Local Abbreviation processLoop := (processLoop classifier classifyCategory enrich).
Local Abbreviation processArticlesWithAI :=
  (processArticlesWithAI classifier classifyCategory enrich).
Local Abbreviation process_main :=
  (process_main classifier classifyCategory enrich).

(** What the loop appends to the two lists: one record per article,
    on the side its confidence decides. *)
Lemma processLoop_elem (e : Env) (useAI : bool) (stamp : nat -> Z)
    (todo : list Article) :
  forall (i : nat) (processed : list ProcessedArticle)
         (rejected : list RejectedArticle),
    (forall p,
        p ∈ fst (processLoop e useAI stamp i todo (processed, rejected)) <->
        p ∈ processed \/
        exists k a, todo !! k = Some a /\
          num_lt (res_confidence (classify useAI a)) (processThreshold e) = false /\
          p = processedArticle useAI (stamp (i + k)%nat) a (classify useAI a)) /\
    (forall r,
        r ∈ snd (processLoop e useAI stamp i todo (processed, rejected)) <->
        r ∈ rejected \/
        exists k a, todo !! k = Some a /\
          num_lt (res_confidence (classify useAI a)) (processThreshold e) = true /\
          r = rejectedArticle e (stamp (i + k)%nat) a (classify useAI a)).
Proof.
  induction todo as [| a rest IH]; intros i processed rejected.
  - simpl. split; intros x; (split; [intros H; left; exact H |]);
      intros [H | (k & b & Hk & _)]; try exact H; discriminate.
  - cbn [processLoop]. unfold processOne at 1 2.
    destruct (num_lt (res_confidence (classify useAI a)) (processThreshold e)) eqn:E.
    + destruct (IH (S i) processed
                  (rejected ++ [rejectedArticle e (stamp i) a (classify useAI a)]))
        as [IHp IHr].
      split; intros x; [rewrite IHp | rewrite IHr]; split.
      * intros [H | (k & b & Hk & Hc & Hx)]; [left; exact H |].
        right. exists (S k), b. rewrite <- Nat.add_succ_comm. auto.
      * intros [H | (k & b & Hk & Hc & Hx)]; [left; exact H |].
        destruct k as [| k].
        -- simpl in Hk. injection Hk as <-. congruence.
        -- right. exists k, b. rewrite Nat.add_succ_comm. auto.
      * intros [H | (k & b & Hk & Hc & Hx)].
        -- apply elem_of_app in H as [H | H]; [left; exact H |].
           apply list_elem_of_singleton in H. right. exists O, a.
           rewrite Nat.add_0_r. auto.
        -- right. exists (S k), b. rewrite <- Nat.add_succ_comm. auto.
      * intros [H | (k & b & Hk & Hc & Hx)].
        -- left. apply elem_of_app. left. exact H.
        -- destruct k as [| k].
           ++ simpl in Hk. injection Hk as <-. rewrite Nat.add_0_r in Hx.
              left. apply elem_of_app. right. apply list_elem_of_singleton, Hx.
           ++ right. exists k, b. rewrite Nat.add_succ_comm. auto.
    + destruct (IH (S i)
                  (processed ++ [processedArticle useAI (stamp i) a (classify useAI a)])
                  rejected)
        as [IHp IHr].
      split; intros x; [rewrite IHp | rewrite IHr]; split.
      * intros [H | (k & b & Hk & Hc & Hx)].
        -- apply elem_of_app in H as [H | H]; [left; exact H |].
           apply list_elem_of_singleton in H. right. exists O, a.
           rewrite Nat.add_0_r. auto.
        -- right. exists (S k), b. rewrite <- Nat.add_succ_comm. auto.
      * intros [H | (k & b & Hk & Hc & Hx)].
        -- left. apply elem_of_app. left. exact H.
        -- destruct k as [| k].
           ++ simpl in Hk. injection Hk as <-. rewrite Nat.add_0_r in Hx.
              left. apply elem_of_app. right. apply list_elem_of_singleton, Hx.
           ++ right. exists k, b. rewrite Nat.add_succ_comm. auto.
      * intros [H | (k & b & Hk & Hc & Hx)]; [left; exact H |].
        right. exists (S k), b. rewrite <- Nat.add_succ_comm. auto.
      * intros [H | (k & b & Hk & Hc & Hx)]; [left; exact H |].
        destruct k as [| k].
        -- simpl in Hk. injection Hk as <-. congruence.
        -- right. exists k, b. rewrite Nat.add_succ_comm. auto.
Qed.

Lemma num_ge_not_lt (a b : JsNumber) : num_ge a b = true -> num_lt a b = false.
Proof.
  destruct a as [| x], b as [| y]; simpl; try discriminate.
  intros ->. reflexivity.
Qed.

Lemma mergedLatestData_elem (w : ProcessWorld) (rawData : RawSnapshot)
    (useAI : bool) (existingProcessed newly : list ProcessedArticle)
    (p : ProcessedArticle) :
  p ∈ ld_articles (mergedLatestData w rawData useAI existingProcessed newly) <->
  (p ∈ existingProcessed \/ p ∈ newly) /\
  isRecent (cleanupNow (pclock w)) p = true.
Proof.
  unfold mergedLatestData, rollingCleanup, recentArticles.
  cbn [ld_articles cl_recentArticles].
  rewrite list_elem_of_filter, js_sort_perm, elem_of_app. tauto.
Qed.

(** C6 (as amended). With the default threshold 0.25, an article of
    the list being classified whose confidence is below 0.25 gets a
    rejected record with the reason "low_confidence", its confidence,
    the threshold and the time of the rejection; the record is
    appended to the rejected cache (and stays in the written cache
    exactly when that time is inside the cache window), and no record
    of the article is among the newly processed ones or in the latest
    snapshot.  An article whose confidence is at least 0.25 gets a
    processed record, which is in the latest snapshot exactly when its
    date is inside the rolling window. *)
Theorem confidence_threshold_routing (w : ProcessWorld)
    (rawData : RawSnapshot) (existingProcessed : list ProcessedArticle)
    (rejectedArticles : list RejectedArticle) (k : nat) (article : Article) :
  let useAI := modelsLoaded w in
  let clk := pclock w in
  let todo :=
    finalArticlesToProcess (env w)
      (articlesToProcess (raw_articles rawData) existingProcessed rejectedArticles) in
  let out := processLoop (env w) useAI (stampOf clk) O todo ([], []) in
  let latestData :=
    mergedLatestData w rawData useAI existingProcessed (fst out) in
  let rejectedData := rejectedOutputData w rejectedArticles (snd out) in
  let result := classify useAI article in
  let rejectedRecord :=
    {| r_article := article;
       rejectedReason := u16 "low_confidence";
       r_confidence := res_confidence result;
       confidenceThreshold := Num (25 # 100);
       rejected_at := Instant (stampOf clk k) |} in
  let processedRecord := processedArticle useAI (stampOf clk k) article result in
  PROCESS_CONFIDENCE_THRESHOLD (env w) = None ->
  todo !! k = Some article ->
  (num_lt (res_confidence result) (Num (25 # 100)) = true ->
     rejectedRecord ∈ snd out /\
     rejectedRecord ∈ rejectedArticles ++ snd out /\
     (rejectedRecord ∈ rd_articles rejectedData <->
      date_gt (Some (stampOf clk k))
        (rejectedThreshold (rejectedCleanupDays (env w)) (rejectedCleanupNow clk))
      = true) /\
     (forall p, p ∈ fst out -> p_article p <> article) /\
     (forall p, p ∈ ld_articles latestData -> p_article p <> article)) /\
  (num_ge (res_confidence result) (Num (25 # 100)) = true ->
     processedRecord ∈ fst out /\
     (processedRecord ∈ ld_articles latestData <->
      isRecent (cleanupNow clk) processedRecord = true)).
Proof.
  intros useAI clk todo out latestData rejectedData result rejectedRecord
    processedRecord Hthr Hk.
  destruct (processLoop_elem (env w) useAI (stampOf clk) todo O [] [])
    as [Hp Hr].
  fold out in Hp, Hr.
  assert (Hdef : processThreshold (env w) = Num (25 # 100))
    by (unfold processThreshold; rewrite Hthr; reflexivity).
  rewrite Hdef in Hp, Hr.
  split.
  - intros Hlow.
    assert (Hrec : rejectedRecord ∈ snd out).
    { apply Hr. right. exists k, article.
      split; [exact Hk |]. split; [exact Hlow |].
      unfold rejectedRecord, rejectedArticle. rewrite Hdef. reflexivity. }
    assert (Hnew : forall p, p ∈ fst out -> p_article p <> article).
    { intros p Hin Heq. apply Hp in Hin as [Hin | (j & b & _ & Hb & ->)];
        [inversion Hin |].
      simpl in Heq. subst b. unfold result in Hlow.
      rewrite Hlow in Hb. discriminate. }
    split; [exact Hrec |]. split; [apply elem_of_app; right; exact Hrec |].
    split; [| split; [exact Hnew |]].
    + unfold rejectedData, rejectedOutputData, recentRejected.
      cbn [rd_articles]. rewrite list_elem_of_filter.
      split; [intros [H _]; exact H |].
      intros H. split; [exact H | apply elem_of_app; right; exact Hrec].
    + intros p Hin Heq.
      apply mergedLatestData_elem in Hin as [[Hex | Hin] _].
      * apply list_elem_of_lookup_2 in Hk.
        eapply elem_of_prefix in Hk; [| apply finalArticlesToProcess_prefix].
        apply articlesToProcess_elem in Hk as (_ & Hnot & _).
        apply Hnot. rewrite <- Heq.
        apply (list_elem_of_fmap_2 (fun q => id (p_article q))), Hex.
      * exact (Hnew p Hin Heq).
  - intros Hge. apply num_ge_not_lt in Hge.
    assert (Hrec : processedRecord ∈ fst out).
    { apply Hp. right. exists k, article. auto. }
    split; [exact Hrec |].
    unfold latestData. rewrite mergedLatestData_elem. split; [tauto |].
    intros H. split; [right; exact Hrec | exact H].
Qed.

(** C7 (as amended). The articles handed to the classification loop
    are a prefix of the eligible ones, the eligible ones being exactly
    the raw articles whose id is in neither the processed snapshot nor
    the rejected cache: all of them when [PROCESSING_LIMIT] is unset,
    not a number or 0, and [slice(0, PROCESSING_LIMIT)] of them
    otherwise.  No article whose id is already processed or rejected
    is handed to the loop, and the loop only classifies what it is
    handed. *)
Theorem incremental_selection (e : Env) (raw : list Article)
    (existingProcessed : list ProcessedArticle)
    (rejectedArticles : list RejectedArticle) :
  let eligible := articlesToProcess raw existingProcessed rejectedArticles in
  let todo := finalArticlesToProcess e eligible in
  (forall a, a ∈ eligible <->
     a ∈ raw /\
     (id a ∉ (fun p => id (p_article p)) <$> existingProcessed) /\
     (id a ∉ (fun r => id (r_article r)) <$> rejectedArticles)) /\
  eligible `sublist_of` raw /\
  todo `prefix_of` eligible /\
  (forall a, a ∈ todo ->
     a ∈ raw /\
     (forall p, p ∈ existingProcessed -> id (p_article p) <> id a) /\
     (forall r, r ∈ rejectedArticles -> id (r_article r) <> id a)) /\
  match PROCESSING_LIMIT e with
  | None | Some IntNaN | Some (Int 0) => todo = eligible
  | Some (Int testLimit) => todo = slice0 testLimit eligible
  end /\
  (forall (useAI : bool) (stamp : nat -> Z),
     let out := processLoop e useAI stamp O todo ([], []) in
     (forall p, p ∈ fst out -> p_article p ∈ todo) /\
     (forall r, r ∈ snd out -> r_article r ∈ todo)).
Proof.
  intros eligible todo.
  split; [intros a; apply articlesToProcess_elem |].
  split; [apply sublist_filter |].
  split; [apply finalArticlesToProcess_prefix |].
  split; [| split].
  - intros a Ha.
    eapply elem_of_prefix in Ha; [| apply finalArticlesToProcess_prefix].
    apply articlesToProcess_elem in Ha as (Hraw & Hp & Hr).
    split; [exact Hraw |]. split.
    + intros p Hin Heq. apply Hp. rewrite <- Heq.
      apply (list_elem_of_fmap_2 (fun q => id (p_article q))), Hin.
    + intros r Hin Heq. apply Hr. rewrite <- Heq.
      apply (list_elem_of_fmap_2 (fun q => id (r_article q))), Hin.
  - unfold todo, finalArticlesToProcess.
    destruct (PROCESSING_LIMIT e) as [[| [| n | n]] |]; reflexivity.
  - intros useAI stamp out.
    destruct (processLoop_elem e useAI stamp todo O [] []) as [Hp Hr].
    fold out in Hp, Hr. split.
    + intros p Hin. apply Hp in Hin as [Hin | (k & a & Hk & _ & ->)];
        [inversion Hin |].
      simpl. eapply list_elem_of_lookup_2, Hk.
    + intros r Hin. apply Hr in Hin as [Hin | (k & a & Hk & _ & ->)];
        [inversion Hin |].
      simpl. eapply list_elem_of_lookup_2, Hk.
Qed.

(** What a run that classifies writes when the disk works: the latest
    snapshot, the daily file, and the rejected cache if something was
    rejected. *)
Lemma processNew_healthy (w : ProcessWorld) (rawData : RawSnapshot)
    (existingProcessed : list ProcessedArticle)
    (rejectedArticles : list RejectedArticle) (todo : list Article)
    (disk : Disk) :
  (forall path, write_error disk path = None) ->
  let out := processLoop (env w) (modelsLoaded w) (stampOf (pclock w)) O
               todo ([], []) in
  fst (run (processNew classifier classifyCategory enrich w rawData
              existingProcessed rejectedArticles todo) disk)
  = Fulfilled (mergedLatestData w rawData (modelsLoaded w)
                 existingProcessed (fst out)).
Proof.
  intros Hok out. unfold processNew, run. fold out.
  destruct out as [newly rejected].
  unfold bind, writeFile, ret. rewrite !Hok.
  destruct (0 <? length rejected)%nat; [rewrite Hok |]; reflexivity.
Qed.

(** The run function passes a failed write of the latest snapshot on
    to its caller. *)
Lemma processArticlesWithAI_write_failure (w : ProcessWorld)
    (rawData : RawSnapshot) (disk : Disk) (e : Error) :
  rawFile w = Fulfilled rawData ->
  write_error disk LatestProcessed = Some e ->
  run (processArticlesWithAI w) disk = (Rejected e, []).
Proof.
  intros Hraw Hw.
  unfold processArticlesWithAI, run, bind at 1, await. rewrite Hraw.
  unfold ret at 1.
  destruct (length _ =? 0)%nat.
  - unfold updateCached, bind, writeFile. rewrite Hw. reflexivity.
  - unfold processNew.
    destruct (processLoop _ _ _ _ _ _) as [newly rejected].
    unfold bind, writeFile. rewrite Hw. reflexivity.
Qed.

(** A run is only fulfilled when its writes of the latest snapshot and
    of the daily file succeeded: the run function swallows no write
    error. *)
Lemma processArticlesWithAI_fulfilled (w : ProcessWorld) (disk : Disk)
    (latestData : LatestData) :
  fst (run (processArticlesWithAI w) disk) = Fulfilled latestData ->
  write_error disk LatestProcessed = None /\
  write_error disk (DailyProcessed (utcDay (todayNow (pclock w)))) = None.
Proof.
  unfold processArticlesWithAI, run, bind at 1, await.
  destruct (rawFile w) as [rawData | e]; [| discriminate].
  unfold ret at 1.
  destruct (length _ =? 0)%nat.
  - unfold updateCached, bind, writeFile.
    destruct (write_error disk LatestProcessed); [discriminate |].
    destruct (write_error disk (DailyProcessed _)); [discriminate |].
    intros _. split; reflexivity.
  - unfold processNew.
    destruct (processLoop _ _ _ _ _ _) as [newly rejected].
    unfold bind, writeFile.
    destruct (write_error disk LatestProcessed); [discriminate |].
    destruct (write_error disk (DailyProcessed _)); [discriminate |].
    intros _. split; reflexivity.
Qed.

(** C8 (the defect). When the latest snapshot cannot be written, the
    run function of the processing pass rejects with the error (so the
    failure is not swallowed there), but its entry point only logs the
    error and the process ends with exit code 0, where the crawler's
    entry point ends with 1. *)
Theorem processing_write_failure_exits_zero (w : ProcessWorld)
    (rawData : RawSnapshot) (e : Error) :
  rawFile w = Fulfilled rawData ->
  write_error (process_disk w) LatestProcessed = Some e ->
  run (processArticlesWithAI w) (process_disk w) = (Rejected e, []) /\
  process_main w = {| exit_code := 0; error_logged := Some e |}.
Proof.
  intros Hraw Hw.
  pose proof (processArticlesWithAI_write_failure w rawData _ e Hraw Hw) as H.
  split; [exact H |].
  unfold process_main. rewrite H. reflexivity.
Qed.

Lemma process_main_exit_code (w : ProcessWorld) : exit_code (process_main w) = 0.
Proof.
  unfold process_main. destruct (fst _); reflexivity.
Qed.

End ProcessFacts.

(** The crawler's entry point, for comparison: a failed write of
    [latest-raw.json] rejects the run and ends the process with 1. *)
Lemma crawl_write_failure_exits_one
    (url_hostname : jsstring -> option jsstring)
    (toLowerCase : jsstring -> jsstring)
    (isRelevant : bool -> Source -> jsstring -> jsstring -> bool)
    (w : CrawlWorld) (sources : list Source) (e : Error) :
  sourcesFile w = Fulfilled sources ->
  mkdir_error (crawl_disk w) = None ->
  write_error (crawl_disk w) LatestRaw = Some e ->
  run (crawlAllSources url_hostname toLowerCase isRelevant w) (crawl_disk w)
    = (Rejected e, []) /\
  crawl_main url_hostname toLowerCase isRelevant w
    = {| exit_code := 1; error_logged := Some e |}.
Proof.
  intros Hsrc Hmk Hw.
  assert (H : run (crawlAllSources url_hostname toLowerCase isRelevant w)
                (crawl_disk w) = (Rejected e, [])).
  { unfold crawlAllSources, run, bind, await, mkdir, writeFile.
    rewrite Hsrc. unfold ret. rewrite Hmk, Hw. reflexivity. }
  split; [exact H |]. unfold crawl_main. rewrite H. reflexivity.
Qed.

Lemma crawl_main_rejection_exits_one
    (url_hostname : jsstring -> option jsstring)
    (toLowerCase : jsstring -> jsstring)
    (isRelevant : bool -> Source -> jsstring -> jsstring -> bool)
    (w : CrawlWorld) (e : Error) :
  fst (run (crawlAllSources url_hostname toLowerCase isRelevant w) (crawl_disk w))
    = Rejected e ->
  exit_code (crawl_main url_hostname toLowerCase isRelevant w) = 1.
Proof. unfold crawl_main. intros ->. reflexivity. Qed.

(** * Concrete runs *)

(** ** Identifiers *)

Example generateId_sample :
  generateId (u16 "AI wins") (u16 "https://a.com/x") = u16 "7p4etb".
Proof. vm_compute. reflexivity. Qed.

Example generateId_empty : generateId [] [] = u16 "0".
Proof. reflexivity. Qed.

(** The most negative hash has the absolute value 2^31. *)
Example toString36_min_int : toString36 (Z.abs (- 2 ^ 31)) = u16 "zik0zk".
Proof. vm_compute. reflexivity. Qed.

Lemma generateId_deterministic_base36_witness :
  generateId (u16 "AI wins") (u16 "https://a.com/x")
    = generateId (u16 "AI wins") (u16 "https://a.com/x") /\
  parse36 (generateId (u16 "AI wins") (u16 "https://a.com/x"))
    = Some (Z.abs (spec_hash (u16 "AI wins" ++ u16 "https://a.com/x"))).
Proof.
  destruct (generateId_deterministic_base36
              (u16 "AI wins") (u16 "https://a.com/x"))
    as (Hdet & _ & _ & Hparse & _).
  split; [apply Hdet; reflexivity | exact Hparse].
Defined.

Lemma generateId_boundary_insensitive_witness :
  u16 "ab" ++ u16 "c" = u16 "a" ++ u16 "bc" /\
  generateId (u16 "ab") (u16 "c") = generateId (u16 "a") (u16 "bc").
Proof.
  split; [reflexivity |].
  destruct (generateId_boundary_insensitive [] [] []) as [_ H].
  apply H. reflexivity.
Defined.

(** ** The crawler *)

(** Scenario A of the specification: the two titles are cleaned to the
    same text and the article of the first feed item is the one kept. *)
Example crawl_then_dedup :
  let src := source_of "Feed" "news" in
  let clock := fun _ : nat => frozen_item_clock sample_now in
  let feed :=
    [item_of "[Tag] AI wins" "https://a.com/x" (Instant (sample_now - day_ms));
     item_of "AI wins" "https://b.com/y" (Instant (sample_now - 2 * day_ms))] in
  let articles := crawlFeed plain_hostname always_relevant false src (Some feed) clock in
  map title articles = [u16 "AI wins"; u16 "AI wins"] /\
  map source_domain (removeDuplicates ascii_toLowerCase articles) = [u16 "a.com"].
Proof. vm_compute. split; reflexivity. Qed.

Lemma normalization_date_handling_witness :
  let src := source_of "Feed" "news" in
  let clk := frozen_item_clock sample_now in
  let item := item_of "AI wins" "https://a.com/x" (Instant (sample_now + day_ms)) in
  let past := item_of "GPT news" "https://b.com/y" (Instant (sample_now - day_ms)) in
  (exists a,
      crawlItem plain_hostname always_relevant false src clk item = Some a /\
      pubDate a = Instant sample_now) /\
  (exists a,
      crawlItem plain_hostname always_relevant false src clk past = Some a /\
      pubDate a = Instant (sample_now - day_ms)).
Proof.
  intros src clk item past. split.
  - destruct (normalization_date_handling plain_hostname always_relevant
                false src clk item) as (_ & _ & Hfuture & _).
    apply (Hfuture (sample_now + day_ms)).
    + vm_compute. reflexivity.
    + reflexivity.
    + vm_compute. reflexivity.
    + apply Z.leb_le. vm_compute. reflexivity.
  - destruct (normalization_date_handling plain_hostname always_relevant
                false src clk past) as (_ & _ & _ & _ & _ & _ & _ & Hkept & _).
    apply (Hkept (sample_now - day_ms)).
    + vm_compute. reflexivity.
    + reflexivity.
    + apply Z.leb_le. vm_compute. reflexivity.
    + vm_compute. reflexivity.
Defined.

(** A hostname with "www." after its first character. *)
Lemma extractDomain_inner_www_witness :
  plain_hostname (u16 "https://awww.example.com/x") = Some (u16 "awww.example.com") /\
  extractDomain plain_hostname (u16 "https://awww.example.com/x")
    = u16 "aexample.com".
Proof.
  split; [vm_compute; reflexivity |].
  apply (extractDomain_inner_www plain_hostname
           (u16 "https://awww.example.com/x") (u16 "example.com") 97).
  - vm_compute. reflexivity.
  - vm_compute. reflexivity.
Defined.

Example extractDomain_samples :
  extractDomain plain_hostname (u16 "https://www.example.com/x") = u16 "example.com" /\
  extractDomain plain_hostname (u16 "https://example.com/x") = u16 "example.com" /\
  extractDomain plain_hostname (u16 "not a url") = u16 "unknown".
Proof. vm_compute. repeat split. Qed.

(** ** The processing pass *)

(** An article dated exactly [now - 15 days], which is not older than
    15 days, is dropped by the cleanup. *)
Lemma rolling_window_boundary_is_dropped :
  let boundary :=
    processed_of
      (article_of "a1" "On the boundary" "https://example.com/a"
         (Instant (sample_now - cleanupThresholdDays * day_ms)))
      (9 # 10) in
  effectiveDate (p_article boundary)
    = Some (sample_now - cleanupThresholdDays * day_ms) /\
  recentArticles sample_now [boundary] = [] /\
  boundary ∉ recentArticles sample_now [boundary].
Proof.
  intros boundary. split; [reflexivity |].
  assert (H : recentArticles sample_now [boundary] = [])
    by (vm_compute; reflexivity).
  split; [exact H |]. rewrite H. apply not_elem_of_nil.
Qed.

Lemma rolling_window_strictly_newer_witness :
  let dated := fun (i : string) (days : Z) =>
    processed_of
      (article_of i "An article" "https://example.com/a"
         (Instant (sample_now - days * day_ms)))
      (9 # 10) in
  dated "a14" 14 ∈ recentArticles sample_now [dated "a16" 16; dated "a14" 14] /\
  dated "a16" 16 ∉ recentArticles sample_now [dated "a16" 16; dated "a14" 14].
Proof.
  intros dated.
  assert (Hvalid : Z.abs (sample_now - cleanupThresholdDays * day_ms)
                   <= 8640000000000000)
    by (apply Z.leb_le; vm_compute; reflexivity).
  destruct (rolling_window_strictly_newer sample_now
              [dated "a16" 16; dated "a14" 14] Hvalid)
    as (_ & _ & Hold & Hfresh & _).
  split.
  - apply Hfresh; [| reflexivity].
    apply elem_of_cons. right. apply elem_of_cons. left. reflexivity.
  - apply Hold; [| reflexivity].
    apply elem_of_cons. left. reflexivity.
Defined.

(** Scenario B of the specification, on two articles: the one dated 16
    days ago is cleaned up. *)
Example cleanup_counts :
  let dated := fun (i : string) (days : Z) =>
    processed_of
      (article_of i "An article" "https://example.com/a"
         (Instant (sample_now - days * day_ms)))
      (9 # 10) in
  rollingCleanup sample_now [dated "a1" 1; dated "a16" 16]
  = {| cl_recentArticles := [dated "a1" 1];
       cl_cleanedUpCount := 1;
       cl_cleanupApplied := true |}.
Proof. vm_compute. reflexivity. Qed.

(** An article classified with confidence 0.9 whose date is 15 days and
    one hour before the run: it is processed, and it is in neither the
    latest snapshot nor the daily file. *)
Lemma confident_stale_article_not_in_snapshot :
  let a := article_of "a1" "GPT release" "https://example.com/a"
             (Instant (sample_now - 15 * day_ms - 3600000)) in
  let w := process_world [a] [] [] default_env sample_now healthy_disk in
  let classifier := constant_classifier (9 # 10) in
  num_ge (res_confidence (classify classifier default_rules (modelsLoaded w) a))
    (processThreshold (env w)) = true /\
  exists ld dd,
    run (processArticlesWithAI classifier default_rules no_enrichment w)
      healthy_disk
    = (Fulfilled ld,
       [(LatestProcessed, LatestDoc ld);
        (DailyProcessed (utcDay sample_now), DailyDoc dd)]) /\
    ld_articles ld = [] /\ dd_articles dd = [].
Proof.
  intros a w classifier. split; [vm_compute; reflexivity |].
  eexists. eexists. split; [vm_compute; reflexivity |].
  split; reflexivity.
Qed.

(** Scenario C of the specification: confidence 0.20 against the
    threshold 0.25. *)
Lemma confidence_threshold_routing_witness :
  let a := article_of "a1" "Some title" "https://example.com/a"
             (Instant (sample_now - day_ms)) in
  let w := process_world [a] [] [] default_env sample_now healthy_disk in
  let classifier := constant_classifier (20 # 100) in
  let out :=
    processLoop classifier default_rules no_enrichment (env w) true
      (stampOf (pclock w)) O [a] ([], []) in
  {| r_article := a;
     rejectedReason := u16 "low_confidence";
     r_confidence := Num (20 # 100);
     confidenceThreshold := Num (25 # 100);
     rejected_at := Instant sample_now |} ∈ snd out /\
  (forall p, p ∈ fst out -> p_article p <> a).
Proof.
  intros a w classifier out.
  destruct (confidence_threshold_routing classifier default_rules
              no_enrichment w (raw_snapshot sample_now [a]) [] [] O a
              eq_refl ltac:(vm_compute; reflexivity)) as [Hlow _].
  destruct (Hlow ltac:(vm_compute; reflexivity)) as (Hrec & _ & _ & Hnew & _).
  split; [exact Hrec | exact Hnew].
Defined.

Example low_confidence_run :
  let a := article_of "a1" "Some title" "https://example.com/a"
             (Instant (sample_now - day_ms)) in
  let w := process_world [a] [] [] default_env sample_now healthy_disk in
  exists ld dd rd,
    run (processArticlesWithAI (constant_classifier (20 # 100)) default_rules
           no_enrichment w) healthy_disk
    = (Fulfilled ld,
       [(LatestProcessed, LatestDoc ld);
        (DailyProcessed (utcDay sample_now), DailyDoc dd);
        (RejectedCache, RejectedDoc rd)]) /\
    ld_articles ld = [] /\
    map (fun r => (id (r_article r), rejectedReason r)) (rd_articles rd)
      = [(u16 "a1", u16 "low_confidence")].
Proof.
  intros a w. do 3 eexists. split; [vm_compute; reflexivity |].
  split; reflexivity.
Qed.

(** With [PROCESSING_LIMIT=1] the second of two eligible articles is not
    handed to the classifier. *)
Lemma processing_limit_leaves_eligible_out :
  let a1 := article_of "a1" "One" "https://example.com/1" (Instant (sample_now - day_ms)) in
  let a2 := article_of "a2" "Two" "https://example.com/2" (Instant (sample_now - day_ms)) in
  let e := {| PROCESSING_LIMIT := Some (Int 1);
              PROCESS_CONFIDENCE_THRESHOLD := None;
              REJECTED_CACHE_CLEANUP_DAYS := None |} in
  let eligible := articlesToProcess [a1; a2] [] [] in
  eligible = [a1; a2] /\
  finalArticlesToProcess e eligible = [a1] /\
  a2 ∉ finalArticlesToProcess e eligible.
Proof.
  intros a1 a2 e eligible.
  assert (He : eligible = [a1; a2]) by (vm_compute; reflexivity).
  assert (Hf : finalArticlesToProcess e eligible = [a1])
    by (vm_compute; reflexivity).
  split; [exact He |]. split; [exact Hf |].
  rewrite Hf. intros Hin. apply list_elem_of_singleton in Hin. discriminate.
Qed.

Lemma incremental_selection_witness :
  let a1 := article_of "a1" "One" "https://example.com/1" (Instant (sample_now - day_ms)) in
  let a2 := article_of "a2" "Two" "https://example.com/2" (Instant (sample_now - day_ms)) in
  let existing := [processed_of a1 (9 # 10)] in
  finalArticlesToProcess default_env (articlesToProcess [a1; a2] existing []) = [a2] /\
  (forall p, p ∈ existing -> id (p_article p) <> id a2).
Proof.
  intros a1 a2 existing.
  assert (Hf : finalArticlesToProcess default_env
                 (articlesToProcess [a1; a2] existing []) = [a2])
    by (vm_compute; reflexivity).
  split; [exact Hf |].
  destruct (incremental_selection (constant_classifier (9 # 10)) default_rules
              no_enrichment default_env [a1; a2] existing [])
    as (_ & _ & _ & Hskip & _).
  apply (Hskip a2). rewrite Hf. apply list_elem_of_singleton. reflexivity.
Defined.

(** A run whose write of [latest-processed.json] fails. *)
Lemma processing_write_failure_exits_zero_witness :
  let a := article_of "a1" "Some title" "https://example.com/a"
             (Instant (sample_now - day_ms)) in
  let disk := failing_disk LatestProcessed "EACCES: permission denied" in
  let w := process_world [a] [] [] default_env sample_now disk in
  process_main (constant_classifier (9 # 10)) default_rules no_enrichment w
  = {| exit_code := 0; error_logged := Some "EACCES: permission denied" |}.
Proof.
  intros a disk w.
  destruct (processing_write_failure_exits_zero (constant_classifier (9 # 10))
              default_rules no_enrichment w (raw_snapshot sample_now [a])
              "EACCES: permission denied" eq_refl eq_refl) as [_ H].
  exact H.
Defined.

(** The same failure in the crawler ends the process with 1. *)
Example crawl_write_failure_run :
  let disk := failing_disk LatestRaw "EACCES: permission denied" in
  let w := crawl_world [source_of "Feed" "news"]
             [item_of "AI wins" "https://a.com/x" (Instant (sample_now - day_ms))]
             sample_now disk in
  crawl_main plain_hostname ascii_toLowerCase always_relevant w
  = {| exit_code := 1; error_logged := Some "EACCES: permission denied" |}.
Proof. vm_compute. reflexivity. Qed.

(** * Further properties of the crawler *)

(** ** White space *)

Lemma single_spaced_weaken (s : jsstring) :
  single_spaced true s = true -> single_spaced false s = true.
Proof.
  destruct s as [| c r]; [reflexivity |]. simpl.
  destruct (is_space c); [| trivial].
  rewrite andb_false_r. discriminate.
Qed.

Lemma single_spaced_app_l (s t : jsstring) (b : bool) :
  single_spaced b (s ++ t) = true -> single_spaced b s = true.
Proof.
  revert b. induction s as [| c r IH]; intros b; [reflexivity |].
  simpl. destruct (is_space c); [| apply IH].
  intros H. apply andb_true_iff in H as [H1 H2].
  rewrite H1. simpl. apply IH, H2.
Qed.

Lemma single_spaced_space_char (s : jsstring) (b : bool) (c : Z) :
  single_spaced b s = true -> c ∈ s -> is_space c = true -> c = 32.
Proof.
  revert b. induction s as [| x r IH]; intros b Hs Hin Hc; [inversion Hin |].
  simpl in Hs. apply elem_of_cons in Hin as [-> | Hin].
  - rewrite Hc in Hs. apply andb_true_iff in Hs as [H1 _].
    apply andb_true_iff in H1 as [H1 _]. apply Z.eqb_eq, H1.
  - destruct (is_space x).
    + apply andb_true_iff in Hs as [_ H2]. exact (IH _ H2 Hin Hc).
    + exact (IH _ Hs Hin Hc).
Qed.

Lemma collapse_spaces_single_spaced (s : jsstring) :
  single_spaced true (collapse_spaces true s) = true /\
  single_spaced false (collapse_spaces false s) = true.
Proof.
  induction s as [| c r [IHt IHf]]; [split; reflexivity |].
  simpl. destruct (is_space c) eqn:E.
  - split; [exact IHt |]. simpl. exact IHt.
  - simpl. rewrite E. split; exact IHf.
Qed.

Lemma trimStart_single_spaced (s : jsstring) :
  single_spaced false s = true -> single_spaced true (trimStart s) = true.
Proof.
  induction s as [| c r IH]; [reflexivity |].
  simpl. destruct (is_space c) eqn:E.
  - intros H. apply andb_true_iff in H as [_ H].
    apply IH, single_spaced_weaken, H.
  - intros H. simpl. rewrite E. exact H.
Qed.

(** [trimStart] removes a run of white space and stops at a character
    that is not. *)
Lemma trimStart_split (s : jsstring) :
  exists sp, s = sp ++ trimStart s /\
    Forall (fun c => is_space c = true) sp /\
    (forall c, head (trimStart s) = Some c -> is_space c = false).
Proof.
  induction s as [| c r (sp & Heq & Hsp & Hhd)].
  - exists []. split; [reflexivity |]. split; [constructor |].
    intros c Hc. discriminate.
  - simpl. destruct (is_space c) eqn:E.
    + exists (c :: sp). split; [simpl; f_equal; exact Heq |].
      split; [constructor; assumption | exact Hhd].
    + exists []. split; [reflexivity |]. split; [constructor |].
      intros x [= <-]. exact E.
Qed.

(** [trim] cuts white space off both ends and nothing else. *)
Lemma trim_split (s : jsstring) :
  exists front back, s = front ++ trim s ++ back /\
    Forall (fun c => is_space c = true) front /\
    Forall (fun c => is_space c = true) back /\
    (forall c, head (trim s) = Some c -> is_space c = false) /\
    (forall c, last (trim s) = Some c -> is_space c = false).
Proof.
  unfold trim.
  destruct (trimStart_split s) as (front & Hs & Hfront & Hhd).
  destruct (trimStart_split (reverse (trimStart s))) as (back & Hr & Hback & Hlast).
  set (t := trimStart (reverse (trimStart s))) in *.
  assert (Hmid : trimStart s = reverse t ++ reverse back).
  { rewrite <- reverse_app, <- Hr, reverse_involutive. reflexivity. }
  exists front, (reverse back).
  split; [rewrite <- Hmid; exact Hs |].
  split; [exact Hfront |].
  split; [apply Forall_reverse, Hback |].
  split.
  - intros c Hc. destruct (reverse t) as [| x xs] eqn:Ex; [discriminate |].
    simpl in Hc. injection Hc as <-. apply Hhd. rewrite Hmid. reflexivity.
  - intros c Hc. rewrite last_reverse in Hc. apply Hlast, Hc.
Qed.

Lemma trim_single_spaced (s : jsstring) :
  single_spaced false s = true -> single_spaced true (trim s) = true.
Proof.
  intros H. apply trimStart_single_spaced in H.
  destruct (trim_split s) as (front & back & Heq & _ & _ & _ & _).
  destruct (trimStart_split s) as (sp & Hs & _ & _).
  unfold trim in *.
  destruct (trimStart_split (reverse (trimStart s))) as (bk & Hr & _ & _).
  assert (Hmid : trimStart s
                 = reverse (trimStart (reverse (trimStart s))) ++ reverse bk).
  { rewrite <- reverse_app, <- Hr, reverse_involutive. reflexivity. }
  rewrite Hmid in H. eapply single_spaced_app_l, H.
Qed.

Lemma sublist_filter_mono {A : Type} (P : A -> Prop)
    `{!forall x, Decision (P x)} (l1 l2 : list A) :
  l1 `sublist_of` l2 -> filter P l1 `sublist_of` filter P l2.
Proof.
  induction 1 as [| x l1 l2 _ IH | x l1 l2 _ IH].
  - constructor.
  - rewrite !filter_cons. destruct (decide (P x)); [constructor |]; exact IH.
  - rewrite filter_cons. destruct (decide (P x)); [constructor |]; exact IH.
Qed.

Lemma remove_groups_sublist (inner : Z -> bool) (open close : Z)
    (s : jsstring) :
  forall skip, remove_groups inner open close skip s `sublist_of` s.
Proof.
  induction s as [| c r IH]; intros skip; [constructor |].
  cbn [remove_groups]. destruct skip as [| k].
  - destruct (c =? open).
    + destruct (close_index inner close r); [apply sublist_cons |
        apply sublist_skip]; apply IH.
    + apply sublist_skip, IH.
  - apply sublist_cons, IH.
Qed.

Lemma collapse_spaces_keeps_others (s : jsstring) :
  forall b,
    filter (fun c => is_space c = false) (collapse_spaces b s)
    = filter (fun c => is_space c = false) s.
Proof.
  induction s as [| c r IH]; intros b; [reflexivity |].
  cbn [collapse_spaces]. destruct (is_space c) eqn:E.
  - rewrite (filter_cons_False _ c r) by (rewrite E; discriminate).
    destruct b; [apply IH |].
    rewrite filter_cons_False by (vm_compute; discriminate). apply IH.
  - rewrite !filter_cons_True by exact E. f_equal. apply IH.
Qed.

Lemma collapse_spaces_chars (s : jsstring) :
  forall b c, c ∈ collapse_spaces b s -> c ∈ s \/ c = 32.
Proof.
  induction s as [| x r IH]; intros b c Hc; [inversion Hc |].
  cbn [collapse_spaces] in Hc. destruct (is_space x).
  - destruct b.
    + destruct (IH _ _ Hc) as [H | H]; [left; apply elem_of_cons; right |
        right]; exact H.
    + apply elem_of_cons in Hc as [-> | Hc]; [right; reflexivity |].
      destruct (IH _ _ Hc) as [H | H]; [left; apply elem_of_cons; right |
        right]; exact H.
  - apply elem_of_cons in Hc as [-> | Hc]; [left; apply elem_of_cons; left;
      reflexivity |].
    destruct (IH _ _ Hc) as [H | H]; [left; apply elem_of_cons; right |
      right]; exact H.
Qed.

Lemma trim_sublist (s : jsstring) : trim s `sublist_of` s.
Proof.
  destruct (trim_split s) as (front & back & Heq & _).
  rewrite Heq at 2. apply sublist_inserts_l, sublist_inserts_r. reflexivity.
Qed.

(** X1. A cleaned title holds no white space but single spaces between
    its words: none at either end, never two in a row, never a tab or a
    line break; and cleaning invents nothing: the characters of the
    result that are not spaces are characters of the input, in their
    order. *)
Theorem cleanTitle_tidy (title : jsstring) :
  single_spaced true (cleanTitle title) = true /\
  (forall c, c ∈ cleanTitle title -> is_space c = true -> c = 32) /\
  (forall c, head (cleanTitle title) = Some c -> is_space c = false) /\
  (forall c, last (cleanTitle title) = Some c -> is_space c = false) /\
  filter (fun c => is_space c = false) (cleanTitle title) `sublist_of` title.
Proof.
  unfold cleanTitle.
  set (stripped := remove_groups is_dot 40 41 0 (remove_groups is_dot 91 93 0 title)).
  assert (Hss : single_spaced true (trim (collapse_spaces false stripped)) = true)
    by apply trim_single_spaced, collapse_spaces_single_spaced.
  destruct (trim_split (collapse_spaces false stripped))
    as (_ & _ & _ & _ & _ & Hhd & Hlast).
  split; [exact Hss |].
  split; [intros c; apply single_spaced_space_char with (b := true), Hss |].
  split; [exact Hhd |]. split; [exact Hlast |].
  transitivity (filter (fun c => is_space c = false) (collapse_spaces false stripped)).
  { apply sublist_filter_mono, trim_sublist. }
  rewrite collapse_spaces_keeps_others.
  transitivity stripped; [apply sublist_filter |].
  unfold stripped.
  transitivity (remove_groups is_dot 91 93 0 title); apply remove_groups_sublist.
Qed.

(** ** Tags *)

Lemma close_index_any_None (close : Z) (r : jsstring) :
  close_index (fun _ => true) close r = None <-> close ∉ r.
Proof.
  induction r as [| c r IH]; simpl.
  - split; [intros _ H; inversion H | reflexivity].
  - destruct (c =? close) eqn:E.
    + apply Z.eqb_eq in E as ->. split; [discriminate |].
      intros H. exfalso. apply H, elem_of_cons. left. reflexivity.
    + apply Z.eqb_neq in E. rewrite not_elem_of_cons.
      destruct (close_index (fun _ => true) close r); simpl.
      * split; [discriminate |]. intros [_ H]. apply IH in H. discriminate.
      * split; [| reflexivity]. intros _. split; [congruence | apply IH; reflexivity].
Qed.

Lemma strip_tags_fixed (t : jsstring) :
  (forall pre post, t = pre ++ 60 :: post -> 62 ∉ post) ->
  strip_tags t = t.
Proof.
  unfold strip_tags. induction t as [| c r IH]; intros H; [reflexivity |].
  cbn [remove_groups].
  assert (Hr : forall pre post, r = pre ++ 60 :: post -> 62 ∉ post)
    by (intros pre post ->; apply (H (c :: pre) post); reflexivity).
  destruct (c =? 60) eqn:E.
  - apply Z.eqb_eq in E as ->.
    replace (close_index (fun _ => true) 62 r) with (@None nat)
      by (symmetry; apply close_index_any_None, (H [] r); reflexivity).
    f_equal. apply IH, Hr.
  - f_equal. apply IH, Hr.
Qed.

Lemma remove_tags_no_tag (s : jsstring) :
  forall skip pre post,
    remove_groups (fun _ => true) 60 62 skip s = pre ++ 60 :: post ->
    62 ∉ post.
Proof.
  induction s as [| c r IH]; intros skip pre post Heq.
  - destruct pre; discriminate.
  - cbn [remove_groups] in Heq. destruct skip as [| k]; [| exact (IH _ _ _ Heq)].
    destruct (c =? 60) eqn:E.
    + destruct (close_index (fun _ => true) 62 r) eqn:Ei; [exact (IH _ _ _ Heq) |].
      apply close_index_any_None in Ei.
      destruct pre as [| x pre]; simpl in Heq; injection Heq as -> Heq.
      * subst post. intros Hin. apply Ei.
        eapply elem_of_sublist; [exact Hin | apply remove_groups_sublist].
      * exact (IH _ _ _ Heq).
    + destruct pre as [| x pre]; simpl in Heq; injection Heq as -> Heq.
      * apply Z.eqb_neq in E. congruence.
      * exact (IH _ _ _ Heq).
Qed.

(** X2. After the tags are stripped, no "<" of the text is followed by
    a ">" any more; stripping again changes nothing; and stripping only
    deletes characters. *)
Theorem strip_tags_no_tag (s : jsstring) :
  (forall pre post, strip_tags s = pre ++ 60 :: post -> 62 ∉ post) /\
  strip_tags (strip_tags s) = strip_tags s /\
  strip_tags s `sublist_of` s.
Proof.
  assert (H : forall pre post, strip_tags s = pre ++ 60 :: post -> 62 ∉ post)
    by (intros pre post; apply remove_tags_no_tag).
  split; [exact H |]. split; [apply strip_tags_fixed, H |].
  apply remove_groups_sublist.
Qed.

(** ** Words and keys *)

Lemma split_space_nonempty (s : jsstring) : split_space s <> [].
Proof.
  destruct s as [| c r]; simpl; [discriminate |].
  destruct (c =? 32); [discriminate |].
  destruct (split_space r); discriminate.
Qed.

Lemma split_space_words (s : jsstring) :
  Forall (fun w => 32 ∉ w) (split_space s).
Proof.
  induction s as [| c r IH]; simpl.
  - constructor; [apply not_elem_of_nil | constructor].
  - destruct (c =? 32) eqn:E.
    + constructor; [apply not_elem_of_nil | exact IH].
    + apply Z.eqb_neq in E.
      destruct (split_space r) as [| w ws].
      * constructor; [| constructor].
        intros H. apply list_elem_of_singleton in H. congruence.
      * inversion IH as [| ? ? Hw Hws]; subst.
        constructor; [| exact Hws].
        rewrite not_elem_of_cons. split; [congruence | exact Hw].
Qed.

Lemma join_space_cons (w : jsstring) (ws : list jsstring) :
  ws <> [] -> join_space (w :: ws) = w ++ 32 :: join_space ws.
Proof. destruct ws; [congruence | reflexivity]. Qed.

Lemma join_space_take_prefix (ws : list jsstring) :
  forall n, join_space (take n ws) `prefix_of` join_space ws.
Proof.
  induction ws as [| w ws IH]; intros n.
  - rewrite take_nil. reflexivity.
  - destruct n as [| n]; [apply prefix_nil |].
    cbn [take]. destruct ws as [| w' ws].
    + rewrite take_nil. reflexivity.
    + rewrite (join_space_cons w (w' :: ws)) by discriminate.
      destruct n as [| n].
      * cbn [take join_space]. apply prefix_app_r. reflexivity.
      * rewrite join_space_cons by (cbn [take]; discriminate).
        apply prefix_app, prefix_cons, IH.
Qed.

Lemma join_space_spaces (ws : list jsstring) :
  Forall (fun w => 32 ∉ w) ws ->
  length (filter (fun c => c = 32) (join_space ws)) = pred (length ws).
Proof.
  assert (Hnone : forall w : jsstring, 32 ∉ w -> filter (fun c => c = 32) w = []).
  { induction w as [| c w IHw]; [reflexivity |].
    rewrite not_elem_of_cons. intros [Hc Hw].
    rewrite filter_cons_False by congruence. apply IHw, Hw. }
  induction ws as [| w ws IH]; intros Hall; [reflexivity |].
  inversion Hall as [| ? ? Hw Hws]; subst.
  destruct ws as [| w' ws].
  - simpl. rewrite Hnone by exact Hw. reflexivity.
  - rewrite join_space_cons by discriminate.
    rewrite filter_app, Hnone by exact Hw.
    rewrite filter_cons_True by reflexivity.
    cbn [app length]. rewrite IH by exact Hws. reflexivity.
Qed.

Lemma join_space_split_space (s : jsstring) :
  join_space (split_space s) = s.
Proof.
  induction s as [| c r IH]; [reflexivity |].
  cbn [split_space]. destruct (c =? 32) eqn:E.
  - apply Z.eqb_eq in E as ->.
    rewrite join_space_cons by apply split_space_nonempty.
    rewrite IH. reflexivity.
  - pose proof (split_space_nonempty r) as Hne.
    destruct (split_space r) as [| w ws]; [congruence |].
    destruct ws as [| w' ws].
    + cbn [join_space] in IH |- *. rewrite IH. reflexivity.
    + rewrite join_space_cons in IH |- * by discriminate.
      rewrite <- app_comm_cons, IH. reflexivity.
Qed.

(** [split(' ')] and [join(' ')] are inverse to each other: joining
    the words of a string gives the string back, the words hold no
    space, and the first [n] words joined are a prefix of the string. *)
Theorem join_split_roundtrip (s : jsstring) :
  join_space (split_space s) = s /\
  Forall (fun w => 32 ∉ w) (split_space s) /\
  (forall n, join_space (take n (split_space s)) `prefix_of` s).
Proof.
  split; [apply join_space_split_space |].
  split; [apply split_space_words |].
  intros n. rewrite <- (join_space_split_space s) at 2.
  apply join_space_take_prefix.
Qed.

Section KeyFacts.

Variable toLowerCase : jsstring -> jsstring.

Local Abbreviation dedupKey := (dedupKey toLowerCase).
Local Abbreviation removeDuplicates := (removeDuplicates toLowerCase).
Local Abbreviation removeDuplicates_step := (removeDuplicates_step toLowerCase).

Lemma dedupKey_prefix (title : jsstring) :
  dedupKey title `prefix_of`
    trim (collapse_spaces false
            (filter (fun c => is_key_char c = true) (toLowerCase title))).
Proof.
  unfold dedupKey.
  set (y := trim _).
  pose proof (join_space_take_prefix (split_space y) 8) as H.
  rewrite join_space_split_space in H. exact H.
Qed.

(** X3. Whatever the title, its deduplication key is made of lower-case
    ASCII letters, digits and single spaces only, does not start with a
    space, never has two spaces in a row, and has at most eight words
    (seven spaces). *)
Theorem dedupKey_shape (title : jsstring) :
  Forall (fun c => is_key_symbol c = true) (dedupKey title) /\
  single_spaced true (dedupKey title) = true /\
  (length (filter (fun c : Z => c = 32%Z) (dedupKey title)) <= 7)%nat.
Proof.
  pose proof (dedupKey_prefix title) as [rest Hrest].
  set (kept := filter (fun c => is_key_char c = true) (toLowerCase title)) in *.
  assert (Hss : single_spaced true (trim (collapse_spaces false kept)) = true)
    by apply trim_single_spaced, collapse_spaces_single_spaced.
  assert (Hkey : single_spaced true (dedupKey title) = true)
    by (rewrite Hrest in Hss; eapply single_spaced_app_l, Hss).
  split; [| split; [exact Hkey |]].
  - apply Forall_forall. intros c Hc.
    assert (Hy : c ∈ trim (collapse_spaces false kept))
      by (rewrite Hrest; apply elem_of_app; left; exact Hc).
    assert (Hk : is_key_char c = true).
    { eapply elem_of_sublist in Hy; [| apply trim_sublist].
      apply collapse_spaces_chars in Hy as [Hy | ->]; [| reflexivity].
      apply list_elem_of_filter in Hy as [Hy _]. exact Hy. }
    unfold is_key_char in Hk. unfold is_key_symbol.
    apply orb_true_iff in Hk as [Hk | Hk]; [rewrite Hk; reflexivity |].
    rewrite (single_spaced_space_char _ _ _ Hkey Hc Hk). reflexivity.
  - unfold dedupKey. fold kept.
    rewrite join_space_spaces
      by (apply Forall_take, split_space_words).
    rewrite length_take. lia.
Qed.

Lemma removeDuplicates_fold_distinct (articles : list Article) :
  forall (unique : list Article) (seen : gset (list Z)),
    NoDup ((fun a => dedupKey (title a)) <$> articles) ->
    (forall a, a ∈ articles -> dedupKey (title a) ∉ seen) ->
    fst (fold_left removeDuplicates_step articles (unique, seen))
    = unique ++ articles.
Proof.
  induction articles as [| a rest IH]; intros unique seen Hnd Hfresh.
  - simpl. rewrite app_nil_r. reflexivity.
  - cbn [fold_left]. unfold removeDuplicates_step at 2.
    rewrite decide_False
      by (apply Hfresh, elem_of_cons; left; reflexivity).
    rewrite fmap_cons in Hnd. apply NoDup_cons in Hnd as [Ha Hnd].
    rewrite IH; [rewrite <- app_assoc; reflexivity | exact Hnd |].
    intros b Hb Hin. apply elem_of_union in Hin as [Hin | Hin].
    + eapply Hfresh; [apply elem_of_cons; right; exact Hb | exact Hin].
    + apply elem_of_singleton in Hin. apply Ha. rewrite <- Hin.
      apply (list_elem_of_fmap_2 (fun a => dedupKey (title a))), Hb.
Qed.

(** X4. Removing duplicates twice is removing them once; a list whose
    keys are pairwise different comes back unchanged; and the result is
    never longer than the input. *)
Theorem removeDuplicates_idempotent (articles : list Article) :
  removeDuplicates (removeDuplicates articles) = removeDuplicates articles /\
  (NoDup ((fun a => dedupKey (title a)) <$> articles) ->
   removeDuplicates articles = articles) /\
  (length (removeDuplicates articles) <= length articles)%nat.
Proof.
  assert (Hfix : forall l, NoDup ((fun a => dedupKey (title a)) <$> l) ->
            removeDuplicates l = l).
  { intros l Hnd. unfold removeDuplicates.
    rewrite removeDuplicates_fold_distinct; [reflexivity | exact Hnd |].
    intros a _. apply not_elem_of_empty. }
  destruct (removeDuplicates_fold toLowerCase articles [] ∅)
    as (kept & Heq & Hsub & Hnd & _).
  assert (Hk : removeDuplicates articles = kept) by exact Heq.
  split; [rewrite Hk; apply Hfix, Hnd |]. split; [apply Hfix |].
  rewrite Hk. apply sublist_length, Hsub.
Qed.

End KeyFacts.

(** ** The key in the words of the specification *)

(** *** The words of a string *)

Lemma spec_words_space (c : Z) (r : jsstring) :
  is_space c = true -> spec_words (c :: r) = spec_words r.
Proof. intros H. cbn [spec_words]. rewrite H. reflexivity. Qed.

Lemma spec_words_start (c : Z) (r : jsstring) :
  is_space c = false ->
  exists w ws, spec_words (c :: r) = (c :: w) :: ws.
Proof.
  intros H. cbn [spec_words]. rewrite H.
  destruct r as [| d r']; [exists [], []; reflexivity |].
  destruct (is_space d); [eexists [], _; reflexivity |].
  destruct (spec_words (d :: r')) as [| w ws];
    [exists [], [] | exists w, ws]; reflexivity.
Qed.

(** Every word is a non-empty run of characters that are not white
    space. *)
Lemma spec_words_wellformed (s : jsstring) :
  Forall (fun w => w <> [] /\ Forall (fun c => is_space c = false) w)
    (spec_words s).
Proof.
  induction s as [| c r IH]; [constructor |].
  cbn [spec_words]. destruct (is_space c) eqn:E; [exact IH |].
  assert (Hc : [c] <> [] /\ Forall (fun c => is_space c = false) [c])
    by (split; [discriminate | repeat constructor; exact E]).
  destruct r as [| d r']; [constructor; [exact Hc | constructor] |].
  destruct (is_space d); [constructor; [exact Hc | exact IH] |].
  destruct (spec_words (d :: r')) as [| w ws];
    [constructor; [exact Hc | constructor] |].
  inversion IH as [| ? ? [_ Hw] Hws]; subst.
  constructor; [| exact Hws].
  split; [discriminate | constructor; assumption].
Qed.

(** White space in front of a string adds no word, and a run of other
    characters that ends the string or is followed by white space is
    its first word. *)
Lemma spec_words_skip (sp s : jsstring) :
  Forall (fun c => is_space c = true) sp ->
  spec_words (sp ++ s) = spec_words s.
Proof.
  induction 1 as [| c sp Hc _ IH]; [reflexivity |].
  cbn [app]. rewrite spec_words_space by exact Hc. exact IH.
Qed.

Lemma spec_words_word (w s : jsstring) :
  w <> [] ->
  Forall (fun c => is_space c = false) w ->
  (forall c, head s = Some c -> is_space c = true) ->
  spec_words (w ++ s) = w :: spec_words s.
Proof.
  intros Hne Hw Hs. induction Hw as [| c w Hc Hw IH]; [congruence |].
  cbn [app spec_words]. rewrite Hc.
  destruct w as [| d w'].
  - cbn [app]. destruct s as [| x s']; [reflexivity |].
    rewrite (Hs x eq_refl). reflexivity.
  - cbn [app] in IH |- *.
    inversion Hw as [| ? ? Hd _]; subst. rewrite Hd.
    rewrite IH by discriminate. reflexivity.
Qed.

(** *** [trim] *)

Lemma trimStart_spaces (front u : jsstring) :
  Forall (fun c => is_space c = true) front ->
  trimStart (front ++ u) = trimStart u.
Proof.
  induction 1 as [| c front Hc _ IH]; [reflexivity |].
  cbn [app trimStart]. rewrite Hc. exact IH.
Qed.

Lemma trimStart_head (u : jsstring) :
  (forall c, head u = Some c -> is_space c = false) -> trimStart u = u.
Proof.
  destruct u as [| c r]; [reflexivity |].
  intros H. cbn [trimStart]. rewrite (H c eq_refl). reflexivity.
Qed.

(** What [trim] returns is the part between the white space of both
    ends. *)
Lemma trim_unique (front t back : jsstring) :
  Forall (fun c => is_space c = true) front ->
  Forall (fun c => is_space c = true) back ->
  (forall c, head t = Some c -> is_space c = false) ->
  (forall c, last t = Some c -> is_space c = false) ->
  trim (front ++ t ++ back) = t.
Proof.
  intros Hfront Hback Hhead Hlast. unfold trim.
  rewrite trimStart_spaces by exact Hfront.
  destruct t as [| c t'].
  - cbn [app].
    rewrite <- (app_nil_r back), trimStart_spaces by exact Hback.
    reflexivity.
  - rewrite (trimStart_head ((c :: t') ++ back))
      by (intros x [= <-]; apply Hhead; reflexivity).
    rewrite reverse_app, trimStart_spaces by (apply Forall_reverse, Hback).
    rewrite trimStart_head; [apply reverse_involutive |].
    intros x Hx. apply Hlast. rewrite <- head_reverse. exact Hx.
Qed.

(** *** From the pipeline of the code to the words *)

Lemma join_space_cons_char (c : Z) (w : jsstring) (ws : list jsstring) :
  join_space ((c :: w) :: ws) = c :: join_space (w :: ws).
Proof. destruct ws; reflexivity. Qed.

(** A string with its runs of white space collapsed is the words of
    the string joined by single spaces, with one space in front when
    the string starts with white space (and no run is under way), and
    at most one space behind. *)
Lemma collapse_spaces_words (s : jsstring) :
  forall b,
  exists back,
    Forall (fun c => is_space c = true) back /\
    collapse_spaces b s
    = match s with
      | c :: _ => if is_space c && negb b then [32] else []
      | [] => []
      end ++ join_space (spec_words s) ++ back.
Proof.
  induction s as [| c r IH]; intros b.
  - exists []. split; [constructor | reflexivity].
  - cbn [collapse_spaces]. destruct (is_space c) eqn:E.
    + rewrite (spec_words_space c r E).
      destruct (IH true) as (back & Hback & Heq).
      assert (Hlead : match r with
                      | c0 :: _ => if is_space c0 && negb true then [32] else []
                      | [] => []
                      end = []).
      { destruct r as [| d r']; [reflexivity |].
        rewrite andb_false_r. reflexivity. }
      rewrite Hlead in Heq. cbn [app] in Heq.
      exists back. split; [exact Hback |].
      rewrite Heq. destruct b; reflexivity.
    + cbn [andb app].
      destruct (IH false) as (back & Hback & Heq). rewrite Heq.
      cbn [spec_words]. rewrite E.
      destruct r as [| d r'].
      * exists back. split; [exact Hback | reflexivity].
      * rewrite andb_true_r. destruct (is_space d) eqn:Ed.
        -- rewrite (spec_words_space d r' Ed).
           destruct (spec_words r') as [| w ws].
           ++ exists (32 :: back).
              split; [constructor; [reflexivity | exact Hback] | reflexivity].
           ++ exists back. split; [exact Hback | reflexivity].
        -- destruct (spec_words_start d r' Ed) as (w & ws & Hw).
           rewrite Hw. exists back. split; [exact Hback |].
           cbn [app]. rewrite (join_space_cons_char c (d :: w) ws).
           reflexivity.
Qed.

Lemma join_space_head (ws : list jsstring) (c : Z) :
  Forall (fun w => w <> [] /\ Forall (fun c => is_space c = false) w) ws ->
  head (join_space ws) = Some c -> is_space c = false.
Proof.
  intros Hws. destruct Hws as [| w ws [Hne Hw] _]; [discriminate |].
  destruct w as [| x w']; [congruence |].
  rewrite join_space_cons_char. intros [= <-].
  inversion Hw; assumption.
Qed.

Lemma join_space_last (ws : list jsstring) (c : Z) :
  Forall (fun w => w <> [] /\ Forall (fun c => is_space c = false) w) ws ->
  last (join_space ws) = Some c -> is_space c = false.
Proof.
  induction 1 as [| w ws [Hne Hw] Hws IH]; [discriminate |].
  destruct ws as [| w' ws'].
  - cbn [join_space]. intros Hl.
    rewrite Forall_forall in Hw. apply Hw.
    apply last_Some in Hl as [l' ->]. apply elem_of_app. right.
    apply list_elem_of_singleton. reflexivity.
  - rewrite join_space_cons by discriminate.
    inversion Hws as [| ? ? [Hne' _] _]; subst.
    assert (Hj : join_space (w' :: ws') <> []).
    { destruct w' as [| y w'']; [congruence |].
      rewrite join_space_cons_char. discriminate. }
    rewrite last_app.
    destruct (last (32 :: join_space (w' :: ws'))) as [z |] eqn:El.
    + intros [= <-]. apply IH.
      destruct (join_space (w' :: ws')) as [| y j]; [congruence |].
      exact El.
    + destruct (join_space (w' :: ws')) as [| y j]; [congruence |].
      apply last_None in El. discriminate.
Qed.

(** Collapsing the white space and trimming leaves the words joined by
    single spaces. *)
Lemma trim_collapse_spaces (s : jsstring) :
  trim (collapse_spaces false s) = join_space (spec_words s).
Proof.
  destruct (collapse_spaces_words s false) as (back & Hback & ->).
  apply trim_unique.
  - destruct s as [| c r]; [constructor |].
    destruct (is_space c && negb false); repeat constructor.
  - exact Hback.
  - intros c. apply join_space_head, spec_words_wellformed.
  - intros c. apply join_space_last, spec_words_wellformed.
Qed.

Lemma split_space_word (w s : jsstring) :
  32 ∉ w -> split_space (w ++ 32 :: s) = w :: split_space s.
Proof.
  induction w as [| c w IH]; intros Hw; [reflexivity |].
  apply not_elem_of_cons in Hw as [Hc Hw].
  cbn [app split_space].
  rewrite (proj2 (Z.eqb_neq c 32)) by congruence.
  rewrite IH by exact Hw. reflexivity.
Qed.

Lemma split_space_single (w : jsstring) :
  32 ∉ w -> split_space w = [w].
Proof.
  induction w as [| c w IH]; intros Hw; [reflexivity |].
  apply not_elem_of_cons in Hw as [Hc Hw].
  cbn [split_space].
  rewrite (proj2 (Z.eqb_neq c 32)) by congruence.
  rewrite IH by exact Hw. reflexivity.
Qed.

Lemma split_space_join_space (ws : list jsstring) :
  ws <> [] ->
  Forall (fun w => 32 ∉ w) ws ->
  split_space (join_space ws) = ws.
Proof.
  intros Hne Hws. induction Hws as [| w ws Hw Hws IH]; [congruence |].
  destruct ws as [| w' ws'].
  - apply split_space_single, Hw.
  - rewrite join_space_cons by discriminate.
    rewrite split_space_word by exact Hw.
    rewrite IH by discriminate. reflexivity.
Qed.

Lemma spec_words_no_space (s : jsstring) :
  Forall (fun w => 32 ∉ w) (spec_words s).
Proof.
  eapply Forall_impl; [apply spec_words_wellformed |].
  intros w [_ Hw] Hin. rewrite Forall_forall in Hw.
  specialize (Hw 32 Hin). discriminate.
Qed.

Section KeyRefinement.

Variable toLowerCase : jsstring -> jsstring.

(** The key of the code is the key as the specification words it. *)
Lemma dedupKey_spec_key (title : jsstring) :
  dedupKey toLowerCase title = spec_key toLowerCase title.
Proof.
  unfold dedupKey, spec_key. rewrite trim_collapse_spaces.
  destruct (spec_words _) as [| w ws] eqn:E; [reflexivity |].
  rewrite split_space_join_space; [reflexivity | discriminate |].
  rewrite <- E. apply spec_words_no_space.
Qed.

Local Abbreviation dedupKey := (dedupKey toLowerCase).
Local Abbreviation removeDuplicates := (removeDuplicates toLowerCase).
Local Abbreviation removeDuplicates_step := (removeDuplicates_step toLowerCase).
Local Abbreviation spec_key := (spec_key toLowerCase).

(** The loop from any state whose set of seen keys is the keys listed
    in [earlier]: it appends the articles whose key is neither listed
    nor borne by an article before them. *)
Lemma removeDuplicates_fold_closed (articles : list Article) :
  forall (unique : list Article) (seen : gset (list Z))
         (earlier : list jsstring),
    (forall k, k ∈ seen <-> k ∈ earlier) ->
    fst (fold_left removeDuplicates_step articles (unique, seen))
    = unique
      ++ concat
           (imap (fun i a =>
                    if decide (dedupKey (title a)
                               ∈ earlier
                                 ++ ((fun b => dedupKey (title b))
                                       <$> take i articles))
                    then [] else [a])
              articles).
Proof.
  induction articles as [| a rest IH]; intros unique seen earlier Hseen.
  - simpl. rewrite app_nil_r. reflexivity.
  - cbn [fold_left imap]. unfold removeDuplicates_step at 2.
    cbn [take fmap list_fmap]. rewrite app_nil_r.
    assert (Hext :
      imap ((fun i a0 =>
               if decide (dedupKey (title a0)
                          ∈ earlier
                            ++ ((fun b => dedupKey (title b))
                                  <$> take i (a :: rest)))
               then [] else [a0]) ∘ S) rest
      = imap (fun i a0 =>
                if decide (dedupKey (title a0)
                           ∈ (earlier ++ [dedupKey (title a)])
                             ++ ((fun b => dedupKey (title b))
                                   <$> take i rest))
                then [] else [a0]) rest).
    { apply imap_ext. intros i x _. unfold compose.
      cbn [take]. rewrite fmap_cons, <- app_assoc. reflexivity. }
    rewrite Hext.
    destruct (decide (dedupKey (title a) ∈ seen)) as [Hin | Hnotin].
    + rewrite decide_True by (apply Hseen, Hin).
      cbn [concat app]. apply IH.
      intros k. rewrite elem_of_app, list_elem_of_singleton, <- Hseen.
      split; [intros H; left; exact H | intros [H | ->]; assumption].
    + rewrite decide_False by (intros H; apply Hnotin, Hseen, H).
      cbn [concat app].
      rewrite (IH (unique ++ [a]) (seen ∪ {[dedupKey (title a)]})
                 (earlier ++ [dedupKey (title a)])).
      * rewrite <- app_assoc. reflexivity.
      * intros k.
        rewrite elem_of_union, elem_of_singleton, elem_of_app,
          list_elem_of_singleton, <- Hseen. reflexivity.
Qed.

(** C3. [removeDuplicates] keeps the input order and the first
    occurrence of every key, the key of an article being the one the
    specification words: its title in lower case, without the
    characters outside a-z, 0-9 and white space, the first eight words
    joined by single spaces.  The key the code computes is that key,
    for every title.  The result is a subsequence of the input, holds
    no two articles with the same key, holds an article for every key
    of the input, and each article it holds is the earliest of the
    input with that key; it is the input without the articles whose
    key an earlier article bears.  In particular two articles with the
    same key collapse to the first, whatever their URLs, and two
    articles with different keys are both kept, in their order. *)
Theorem removeDuplicates_first_occurrence (articles : list Article) :
  let key := fun a : Article => spec_key (title a) in
  (forall title : jsstring, dedupKey title = spec_key title) /\
  removeDuplicates articles `sublist_of` articles /\
  NoDup (key <$> removeDuplicates articles) /\
  (forall a, a ∈ articles ->
     exists b, b ∈ removeDuplicates articles /\ key b = key a) /\
  (forall b, b ∈ removeDuplicates articles ->
     exists i, list_find (fun a => key a = key b) articles = Some (i, b)) /\
  removeDuplicates articles
  = concat
      (imap (fun i a =>
               if decide (key a ∈ key <$> take i articles)
               then [] else [a])
         articles) /\
  (forall first second : Article,
     key first = key second ->
     removeDuplicates [first; second] = [first]) /\
  (forall first second : Article,
     key first <> key second ->
     removeDuplicates [first; second] = [first; second]).
Proof.
  intros key.
  assert (Hkey : forall a : Article, dedupKey (title a) = key a)
    by (intros a; apply dedupKey_spec_key).
  assert (Hmap : forall l : list Article,
             (fun a => dedupKey (title a)) <$> l = key <$> l).
  { intros l. apply list_fmap_ext. intros i a _. apply Hkey. }
  assert (Hclosed : forall l : list Article,
             removeDuplicates l
             = concat
                 (imap (fun i a =>
                          if decide (key a ∈ key <$> take i l)
                          then [] else [a]) l)).
  { intros l. unfold removeDuplicates.
    rewrite (removeDuplicates_fold_closed l [] ∅ []).
    - cbn [app]. f_equal. apply imap_ext. intros i a _.
      rewrite Hmap, Hkey. reflexivity.
    - intros k. split; intros H; [apply not_elem_of_empty in H | inversion H];
        contradiction. }
  split; [apply dedupKey_spec_key |].
  unfold removeDuplicates at 1 2 3 4.
  destruct (removeDuplicates_fold toLowerCase articles [] ∅)
    as (kept & -> & Hsub & Hnd & Hfirst & Hcov).
  rewrite app_nil_l.
  split; [exact Hsub |].
  split; [rewrite <- Hmap; exact Hnd |].
  split; [| split; [| split; [| split]]].
  - intros a Ha. destruct (Hcov a Ha) as [Hs | (b & Hb & Hkb)].
    + apply not_elem_of_empty in Hs. contradiction.
    + exists b. split; [exact Hb |]. rewrite <- !Hkey. exact Hkb.
  - intros b Hb. destruct (Hfirst b Hb) as (_ & i & Hi). exists i.
    rewrite <- Hi. apply list_find_ext. intros a.
    rewrite <- !Hkey. reflexivity.
  - apply Hclosed.
  - intros first second Hk. rewrite Hclosed.
    cbn [imap take fmap list_fmap compose].
    rewrite decide_False by apply not_elem_of_nil.
    rewrite decide_True by (rewrite Hk; apply elem_of_cons; left; reflexivity).
    reflexivity.
  - intros first second Hk. rewrite Hclosed.
    cbn [imap take fmap list_fmap compose].
    rewrite decide_False by apply not_elem_of_nil.
    rewrite decide_False
      by (intros H; apply list_elem_of_singleton in H; congruence).
    reflexivity.
Qed.

End KeyRefinement.

(** Three articles, the third with the key of the first. *)
Lemma removeDuplicates_first_occurrence_witness :
  let first := article_of "id1" "AI wins!" "https://a.com/x" (Instant sample_now) in
  let other := article_of "id2" "GPT-5:  news" "https://c.com/z" (Instant sample_now) in
  let second := article_of "id3" "ai   WINS" "https://b.com/y" (Instant sample_now) in
  url first <> url second /\
  dedupKey ascii_toLowerCase (title first) = u16 "ai wins" /\
  dedupKey ascii_toLowerCase (title second) = u16 "ai wins" /\
  dedupKey ascii_toLowerCase (title other) = u16 "gpt5 news" /\
  removeDuplicates ascii_toLowerCase [first; other; second] = [first; other] /\
  removeDuplicates ascii_toLowerCase [first; second] = [first] /\
  removeDuplicates ascii_toLowerCase [other; first] = [other; first].
Proof.
  intros first other second.
  destruct (removeDuplicates_first_occurrence ascii_toLowerCase
              [first; other; second])
    as (Hkey & _ & _ & _ & _ & Hclosed & Hpair & Hdiff).
  split; [discriminate |].
  split; [rewrite Hkey; vm_compute; reflexivity |].
  split; [rewrite Hkey; vm_compute; reflexivity |].
  split; [rewrite Hkey; vm_compute; reflexivity |].
  split; [rewrite Hclosed; vm_compute; reflexivity |].
  split.
  - apply Hpair. vm_compute. reflexivity.
  - apply Hdiff. vm_compute. discriminate.
Defined.

(** ** Feeds and the crawl run *)

Lemma sort_insert_newestFirst (x : Article) (l : list Article) :
  is_Some (Date_of_field (pubDate x)) ->
  Forall (fun a => is_Some (Date_of_field (pubDate a))) l ->
  StronglySorted newer_or_equal l ->
  StronglySorted newer_or_equal (sort_insert newestFirst x l).
Proof.
  intros [tx Hx]. induction l as [| y r IH]; intros Hvalid Hsorted.
  - simpl. repeat constructor.
  - inversion Hvalid as [| ? ? [ty Hy] Hvr]; subst.
    inversion Hsorted as [| ? ? Hsr Hyr]; subst.
    cbn [sort_insert]. unfold newestFirst at 1. rewrite Hx, Hy.
    cbn [date_diff cmp_positive]. destruct (0 <? ty - tx) eqn:E.
    + apply Z.ltb_lt in E. constructor; [apply IH; assumption |].
      rewrite js_sort_insert_perm. constructor; [| exact Hyr].
      exists ty, tx. repeat split; [assumption | assumption | lia].
    + apply Z.ltb_ge in E. constructor; [exact Hsorted |].
      constructor; [exists tx, ty; repeat split; [assumption | assumption | lia] |].
      eapply Forall_impl; [exact Hyr |].
      intros z (a & b & Ha & Hb & Hab). rewrite Hy in Ha. injection Ha as <-.
      exists tx, b. repeat split; [assumption | assumption | lia].
Qed.

Lemma js_sort_newestFirst_sorted (l : list Article) :
  Forall (fun a => is_Some (Date_of_field (pubDate a))) l ->
  StronglySorted newer_or_equal (js_sort newestFirst l).
Proof.
  unfold js_sort. induction l as [| x l IH]; intros Hvalid; [constructor |].
  inversion Hvalid as [| ? ? Hx Hl]; subst. cbn [foldr].
  apply sort_insert_newestFirst; [exact Hx | | apply IH, Hl].
  fold (js_sort newestFirst l). rewrite js_sort_perm. exact Hl.
Qed.

Section CrawlRun.

Variable url_hostname : jsstring -> option jsstring.
Variable toLowerCase : jsstring -> jsstring.
Variable isRelevant : bool -> Source -> jsstring -> jsstring -> bool.

Local Abbreviation extractDomain := (extractDomain url_hostname).
Local Abbreviation dedupKey := (dedupKey toLowerCase).
Local Abbreviation removeDuplicates := (removeDuplicates toLowerCase).
Local Abbreviation crawlItem := (crawlItem url_hostname isRelevant).
Local Abbreviation crawlItems := (crawlItems url_hostname isRelevant).
Local Abbreviation crawlFeed := (crawlFeed url_hostname isRelevant).
Local Abbreviation crawlSources := (crawlSources url_hostname isRelevant).
Local Abbreviation crawlAllSources :=
  (crawlAllSources url_hostname toLowerCase isRelevant).

Lemma itemLimit_le (source : Source) : (itemLimit source <= 25)%nat.
Proof.
  unfold itemLimit.
  repeat (destruct (is_category source _); [lia |]). lia.
Qed.

Lemma daysBack_range (source : Source) : 3 <= daysBack source <= 15.
Proof.
  unfold daysBack.
  repeat (destruct (is_category source _); [lia |]). lia.
Qed.

Lemma crawlItems_length (useAIFilter : bool) (source : Source)
    (clock : nat -> ItemClock) (items : list RawItem) :
  forall i acc,
    (length (crawlItems useAIFilter source clock i items acc)
     <= length acc + length items)%nat.
Proof.
  induction items as [| item rest IH]; intros i acc; simpl; [lia |].
  destruct (crawlItem useAIFilter source (clock i) item).
  - etransitivity; [apply IH |]. rewrite length_app. simpl. lia.
  - etransitivity; [apply IH |]. lia.
Qed.

(** X5. A feed never yields more articles than the item limit of its
    source, which is at most 25; what the feed holds beyond the limit
    has no effect; and a feed that cannot be fetched yields none. *)
Theorem crawlFeed_bounded (useAIFilter : bool) (source : Source)
    (clock : nat -> ItemClock) :
  (forall feed,
      (length (crawlFeed useAIFilter source feed clock) <= itemLimit source)%nat /\
      (length (crawlFeed useAIFilter source feed clock) <= 25)%nat) /\
  (forall items more,
      (itemLimit source <= length items)%nat ->
      crawlFeed useAIFilter source (Some (items ++ more)) clock
      = crawlFeed useAIFilter source (Some items) clock) /\
  crawlFeed useAIFilter source None clock = [].
Proof.
  split; [| split; [| reflexivity]].
  - intros feed.
    assert (H : (length (crawlFeed useAIFilter source feed clock)
                 <= itemLimit source)%nat).
    { destruct feed as [items |]; simpl; [| lia].
      etransitivity; [apply crawlItems_length |].
      rewrite length_take. simpl. lia. }
    split; [exact H |]. pose proof (itemLimit_le source). lia.
  - intros items more Hlen. unfold crawlFeed.
    rewrite take_app_le by exact Hlen. reflexivity.
Qed.

(** X6. Every article the crawler produces is well formed: its title is
    the cleaned title of the entry and is not empty, its url is the
    entry's link (or its guid when there is no link) and is not empty,
    its description has at most 200 characters, its id is the id of
    that title and url, it passed the relevance filter, and its date is
    at most [now] and not before the cut-off of the source, which lies
    between 3 and 15 days back. *)
Theorem crawlItem_wellformed (useAIFilter : bool) (source : Source)
    (clk : ItemClock) (item : RawItem) (a : Article) :
  crawlItem useAIFilter source clk item = Some a ->
  title a = cleanTitle (default [] (or_str (item_title item) (Some []))) /\
  title a <> [] /\
  Some (url a) = or_str (link item) (guid item) /\
  url a <> [] /\
  (length (metaDescription a) <= 200)%nat /\
  id a = generateId (title a) (url a) /\
  source_domain a = extractDomain (url a) /\
  isRelevant useAIFilter source (title a) (metaDescription a) = true /\
  3 <= daysBack source <= 15 /\
  exists t, pubDate a = Instant t /\ t <= now clk /\
    (forall cutoff,
        Date_of_number (cutoffNow clk - daysBack source * day_ms) = Some cutoff ->
        cutoff <= t).
Proof.
  intros H. pose proof H as H0.
  apply crawlItem_Some in H0 as (_ & t & Ht & Hp).
  unfold crawlItem in H.
  destruct (cleanTitle _) as [| c ct] eqn:Etitle; [discriminate |].
  destruct (or_str (link item) (guid item)) as [[| u ut] |] eqn:Eurl;
    try discriminate.
  cbn [truthy_str negb orb default] in H.
  destruct (isRelevant _ _ _ _) eqn:Erel; [| discriminate].
  cbn [negb] in H. rewrite Ht in H. injection H as <-.
  cbn [title url metaDescription id source_domain pubDate].
  split; [reflexivity |]. split; [discriminate |].
  split; [reflexivity |]. split; [discriminate |].
  split.
  { unfold itemDescription.
    repeat (destruct (truthy_str _); [rewrite length_take; lia |]).
    simpl. lia. }
  split; [reflexivity |]. split; [reflexivity |].
  split; [exact Erel |]. split; [apply daysBack_range |].
  exists t. split; [reflexivity |].
  split; [eapply normalizeDate_le_now, Ht |].
  intros cutoff Hcut. unfold normalizeDate in Ht.
  destruct (itemDate clk item) as [parsed |]; [| discriminate].
  rewrite Hcut in Ht. unfold date_lt, date_gt in Ht.
  destruct (_ <? cutoff) eqn:E; [discriminate |].
  injection Ht as <-. apply Z.ltb_ge in E. exact E.
Qed.

Lemma crawlSources_concat (w : CrawlWorld) (sources : list Source) :
  forall k acc,
    crawlSources w k sources acc
    = acc ++ concat (imap (fun j s =>
                             crawlFeed (aiFilterReady w) s
                               (feedOf w (k + j)%nat) (clockOf w (k + j)%nat))
                       sources).
Proof.
  induction sources as [| s rest IH]; intros k acc.
  - simpl. rewrite app_nil_r. reflexivity.
  - cbn [crawlSources]. rewrite IH, imap_cons. cbn [concat].
    rewrite Nat.add_0_r, <- app_assoc. do 3 f_equal.
    apply imap_ext. intros j x _. simpl.
    rewrite Nat.add_succ_r. reflexivity.
Qed.

Lemma crawlFeed_dated (useAIFilter : bool) (source : Source)
    (feed : option (list RawItem)) (clock : nat -> ItemClock) (a : Article) :
  a ∈ crawlFeed useAIFilter source feed clock ->
  is_Some (Date_of_field (pubDate a)).
Proof.
  destruct feed as [items |]; [| intros H; inversion H].
  intros H. apply crawlFeed_elem in H as (k & entry & _ & _ & Hc).
  apply crawlItem_Some in Hc as (_ & t & _ & ->). simpl. eauto.
Qed.

Lemma crawlSources_app (w : CrawlWorld) (l1 l2 : list Source) :
  forall k acc,
    crawlSources w k (l1 ++ l2) acc
    = crawlSources w (k + length l1)%nat l2 (crawlSources w k l1 acc).
Proof.
  induction l1 as [| s l1 IH]; intros k acc.
  - simpl. rewrite Nat.add_0_r. reflexivity.
  - cbn [app crawlSources length]. rewrite IH, Nat.add_succ_comm. reflexivity.
Qed.

Lemma crawlSources_acc (w : CrawlWorld) (sources : list Source) (k : nat)
    (acc : list Article) :
  crawlSources w k sources acc = acc ++ crawlSources w k sources [].
Proof. rewrite !crawlSources_concat. reflexivity. Qed.

(** X7. One source's failure stays its own: the articles collected from
    the sources are the articles of each feed, one feed after the other
    in the order of the sources, so a feed that cannot be fetched only
    leaves out its own articles. *)
Theorem crawlSources_isolation (w : CrawlWorld) (sources : list Source) :
  crawlSources w O sources []
  = concat (imap (fun k s =>
                    crawlFeed (aiFilterReady w) s (feedOf w k) (clockOf w k))
              sources) /\
  (forall before failed after,
      sources = before ++ failed :: after ->
      feedOf w (length before) = None ->
      crawlSources w O sources []
      = crawlSources w O before []
        ++ crawlSources w (S (length before)) after []).
Proof.
  split; [rewrite crawlSources_concat; reflexivity |].
  intros before failed after -> Hfail.
  rewrite crawlSources_app. cbn [crawlSources Nat.add].
  rewrite Hfail. unfold crawlFeed.
  rewrite app_nil_r. apply crawlSources_acc.
Qed.

Lemma crawlSources_dated (w : CrawlWorld) (sources : list Source) :
  forall k acc,
    Forall (fun a => is_Some (Date_of_field (pubDate a))) acc ->
    Forall (fun a => is_Some (Date_of_field (pubDate a)))
      (crawlSources w k sources acc).
Proof.
  induction sources as [| s rest IH]; intros k acc Hacc; [exact Hacc |].
  cbn [crawlSources]. apply IH, Forall_app. split; [exact Hacc |].
  apply Forall_forall. intros a Ha. eapply crawlFeed_dated, Ha.
Qed.

(** X8. A crawl run either rejects, and then it has written nothing and
    the error is that of the sources file, of [mkdir] or of the write;
    or it is fulfilled, and then it has written exactly
    [latest-raw.json], holding the articles it returns with their
    count: the de-duplicated articles of the feeds, no two with the
    same key, newest first. *)
Theorem crawlAllSources_outcome (w : CrawlWorld) (disk : Disk) :
  match run (crawlAllSources w) disk with
  | (Fulfilled articles, written) =>
      exists sources,
        sourcesFile w = Fulfilled sources /\
        written
        = [(LatestRaw,
            RawDoc {| raw_crawledAt := Instant (snapshotNow w);
                      raw_totalSources := length sources;
                      raw_totalArticles := length articles;
                      raw_aiFilterUsed := aiFilterReady w;
                      raw_articles := articles |})] /\
        articles ≡ₚ removeDuplicates (crawlSources w O sources []) /\
        NoDup ((fun a => dedupKey (title a)) <$> articles) /\
        StronglySorted newer_or_equal articles
  | (Rejected e, written) =>
      written = [] /\
      (sourcesFile w = Rejected e \/ mkdir_error disk = Some e \/
       write_error disk LatestRaw = Some e)
  end.
Proof.
  unfold crawlAllSources, run, bind, await, mkdir, writeFile.
  destruct (sourcesFile w) as [sources | e]; unfold ret, throw; [| auto].
  destruct (mkdir_error disk) as [e |]; [auto |].
  destruct (write_error disk LatestRaw) as [e |]; [auto |].
  exists sources. split; [reflexivity |]. split; [reflexivity |].
  set (all := crawlSources w 0 sources []).
  destruct (removeDuplicates_fold toLowerCase all [] ∅)
    as (kept & Heq & Hsub & Hnd & _).
  assert (Hk : removeDuplicates all = kept) by exact Heq.
  split; [apply js_sort_perm |].
  split; [rewrite js_sort_perm, Hk; exact Hnd |].
  apply js_sort_newestFirst_sorted. rewrite Hk.
  apply Forall_forall. intros a Ha.
  eapply elem_of_sublist in Ha; [| exact Hsub].
  pose proof (crawlSources_dated w sources 0 [] ltac:(constructor)) as Hd.
  rewrite Forall_forall in Hd. apply Hd, Ha.
Qed.

End CrawlRun.

(** * Further properties of the processing pass *)

Lemma utcDay_bounds (t : Z) :
  utcDay t * day_ms <= t <= utcDay t * day_ms + (day_ms - 1).
Proof.
  unfold utcDay, day_ms.
  pose proof (Z.div_mod t (24 * 60 * 60 * 1000) ltac:(lia)).
  pose proof (Z.mod_pos_bound t (24 * 60 * 60 * 1000) ltac:(lia)).
  lia.
Qed.

Lemma date_ge_spec (a b : option Z) :
  date_ge a b = true <-> exists x y, a = Some x /\ b = Some y /\ y <= x.
Proof.
  unfold date_ge. split.
  - destruct a as [x |], b as [y |]; try discriminate.
    intros H. apply Z.leb_le in H. eauto.
  - intros (x & y & -> & -> & H). apply Z.leb_le. exact H.
Qed.

(** A date inside the UTC day number [day]. *)
Lemma isToday_spec (today : Z) (p : ProcessedArticle) :
  isToday today p = true <->
  (exists t, effectiveDate (p_article p) = Some t /\
             today * day_ms <= t <= today * day_ms + (day_ms - 1)) \/
  (exists t, processedDate p = Some t /\
             today * day_ms <= t <= today * day_ms + (day_ms - 1)).
Proof.
  unfold isToday, date_le. rewrite orb_true_iff, !andb_true_iff, !date_ge_spec.
  split.
  - intros [[(x & y & Hx & [= <-] & H1) (x' & y' & [= <-] & Hy & H2)]
           | [(x & y & Hx & [= <-] & H1) (x' & y' & [= <-] & Hy & H2)]].
    + left. exists x. rewrite Hx in Hy. injection Hy as <-. auto.
    + right. exists x. rewrite Hx in Hy. injection Hy as <-. auto.
  - intros [(t & Ht & H1 & H2) | (t & Ht & H1 & H2)]; [left | right];
      (split; [exists t; eexists | eexists; exists t]; eauto).
Qed.

Section ProcessRun.

Variable classifier : jsstring -> option ClassResult.
Variable classifyCategory : jsstring -> jsstring -> ClassResult.
Variable enrich : bool -> Article -> Enrichment.

Local Abbreviation classify := (classify classifier classifyCategory).
Local Abbreviation processedArticle := (processedArticle enrich).
Local Abbreviation processOne := (processOne classifier classifyCategory enrich).
Local Abbreviation processLoop := (processLoop classifier classifyCategory enrich).
Local Abbreviation processNew := (processNew classifier classifyCategory enrich).
Local Abbreviation processArticlesWithAI :=
  (processArticlesWithAI classifier classifyCategory enrich).

(** What a fulfilled run has computed and written, branch by branch. *)
Lemma processArticlesWithAI_fulfilled_inv (w : ProcessWorld) (disk : Disk)
    (latestData : LatestData) (written : list (Path * FileDoc)) :
  run (processArticlesWithAI w) disk = (Fulfilled latestData, written) ->
  exists rawData dailyData,
    rawFile w = Fulfilled rawData /\
    let existing := default [] (processedFile w) in
    let rejected := default [] (rejectedFile w) in
    let todo :=
      finalArticlesToProcess (env w)
        (articlesToProcess (raw_articles rawData) existing rejected) in
    let out := processLoop (env w) (modelsLoaded w) (stampOf (pclock w)) O
                 todo ([], []) in
    let today := utcDay (todayNow (pclock w)) in
    dd_articles dailyData = todaysArticles today (ld_articles latestData) /\
    dd_totalArticles dailyData = length (dd_articles dailyData) /\
    dd_dailyArticlesCount dailyData = length (dd_articles dailyData) /\
    dd_filterDate dailyData = today /\
    ((todo = [] /\
      latestData = cachedLatestData w rawData existing /\
      written = [(LatestProcessed, LatestDoc latestData);
                 (DailyProcessed today, DailyDoc dailyData)]) \/
     (todo <> [] /\
      latestData
      = mergedLatestData w rawData (modelsLoaded w) existing (fst out) /\
      written
      = [(LatestProcessed, LatestDoc latestData);
         (DailyProcessed today, DailyDoc dailyData)]
        ++ (if (0 <? length (snd out))%nat
            then [(RejectedCache,
                   RejectedDoc (rejectedOutputData w rejected (snd out)))]
            else []))).
Proof.
  unfold processArticlesWithAI, run, bind at 1, await.
  destruct (rawFile w) as [rawData | e]; [| discriminate].
  unfold ret at 1. intros H. exists rawData.
  set (existing := default [] (processedFile w)) in *.
  set (rejected := default [] (rejectedFile w)) in *.
  set (todo := finalArticlesToProcess (env w) _) in *.
  destruct (length todo =? 0)%nat eqn:Elen.
  - apply Nat.eqb_eq in Elen.
    assert (Hnil : todo = []) by (destruct todo; [reflexivity | discriminate]).
    unfold updateCached, bind, writeFile, ret in H.
    destruct (write_error disk LatestProcessed); [discriminate |].
    destruct (write_error disk (DailyProcessed _)); [discriminate |].
    lazymatch type of H with context [DailyDoc ?d] => exists d end.
    injection H as <- <-. split; [reflexivity |].
    cbn zeta. cbn [dd_articles dd_totalArticles dd_dailyArticlesCount dd_filterDate].
    repeat (split; [reflexivity |]). left.
    split; [exact Hnil |]. split; reflexivity.
  - apply Nat.eqb_neq in Elen.
    assert (Hne : todo <> []) by (intros E; rewrite E in Elen; apply Elen; reflexivity).
    unfold processNew in H.
    destruct (processLoop _ _ _ _ _ _) as [newly rej] eqn:Eout.
    unfold bind, writeFile, ret in H.
    destruct (write_error disk LatestProcessed); [discriminate |].
    destruct (write_error disk (DailyProcessed _)); [discriminate |].
    cbn zeta. cbn [fst snd].
    destruct (0 <? length rej)%nat.
    + destruct (write_error disk RejectedCache); [discriminate |].
      lazymatch type of H with context [DailyDoc ?d] => exists d end.
      injection H as <- <-. split; [reflexivity |].
      cbn [dd_articles dd_totalArticles dd_dailyArticlesCount dd_filterDate].
      repeat (split; [reflexivity |]). right.
      split; [exact Hne |]. split; reflexivity.
    + lazymatch type of H with context [DailyDoc ?d] => exists d end.
      injection H as <- <-. split; [reflexivity |].
      cbn [dd_articles dd_totalArticles dd_dailyArticlesCount dd_filterDate].
      repeat (split; [reflexivity |]). right.
      split; [exact Hne |]. split; reflexivity.
Qed.

Lemma rollingCleanup_count (nowMs : Z) (articles : list ProcessedArticle) :
  0 <= cl_cleanedUpCount (rollingCleanup nowMs articles) /\
  Z.of_nat (length (cl_recentArticles (rollingCleanup nowMs articles)))
  + cl_cleanedUpCount (rollingCleanup nowMs articles)
  = Z.of_nat (length articles) /\
  cl_cleanupApplied (rollingCleanup nowMs articles)
  = (0 <? cl_cleanedUpCount (rollingCleanup nowMs articles)).
Proof.
  unfold rollingCleanup.
  cbn [cl_cleanedUpCount cl_recentArticles cl_cleanupApplied].
  pose proof (length_filter (fun a => isRecent nowMs a = true) articles).
  unfold recentArticles. split; [lia |]. split; [lia | reflexivity].
Qed.

(** The loop splits the list it is handed, in order, by the threshold
    test. *)
Lemma processLoop_partition (e : Env) (useAI : bool) (stamp : nat -> Z)
    (todo : list Article) :
  forall i processed rejected,
    map p_article
      (fst (processLoop e useAI stamp i todo (processed, rejected)))
    = map p_article processed
      ++ filter (fun a => num_lt (res_confidence (classify useAI a))
                            (processThreshold e) = false) todo /\
    map r_article
      (snd (processLoop e useAI stamp i todo (processed, rejected)))
    = map r_article rejected
      ++ filter (fun a => num_lt (res_confidence (classify useAI a))
                            (processThreshold e) = true) todo.
Proof.
  induction todo as [| a rest IH]; intros i processed rejected.
  - simpl. rewrite !app_nil_r. split; reflexivity.
  - cbn [processLoop]. unfold processOne at 1 2.
    destruct (num_lt (res_confidence (classify useAI a)) (processThreshold e))
      eqn:E.
    + destruct (IH (S i) processed
                  (rejected ++ [rejectedArticle e (stamp i) a (classify useAI a)]))
        as [-> ->].
      rewrite filter_cons_False by (rewrite E; discriminate).
      rewrite filter_cons_True by exact E.
      rewrite map_app, <- app_assoc. split; reflexivity.
    + destruct (IH (S i)
                  (processed ++ [processedArticle useAI (stamp i) a (classify useAI a)])
                  rejected)
        as [-> ->].
      rewrite filter_cons_True by exact E.
      rewrite filter_cons_False by (rewrite E; discriminate).
      rewrite map_app, <- app_assoc. split; reflexivity.
Qed.

Lemma filter_bool_partition {A : Type} (f : A -> bool) (l : list A) :
  (length (filter (fun a => f a = false) l)
   + length (filter (fun a => f a = true) l) = length l)%nat.
Proof.
  induction l as [| x l IH]; [reflexivity |].
  destruct (f x) eqn:E.
  - rewrite filter_cons_False by (rewrite E; discriminate).
    rewrite filter_cons_True by exact E. simpl. lia.
  - rewrite filter_cons_True by exact E.
    rewrite filter_cons_False by (rewrite E; discriminate). simpl. lia.
Qed.

(** X9. The classification loop splits the articles it is handed in
    two, keeping their order: the processed ones are those whose
    confidence is not below the threshold, the rejected ones those whose
    confidence is below it, nothing is lost or duplicated, and when the
    configured threshold is not a number nothing is rejected. *)
Theorem processLoop_splits (e : Env) (useAI : bool) (stamp : nat -> Z)
    (todo : list Article) :
  let out := processLoop e useAI stamp O todo ([], []) in
  map p_article (fst out)
  = filter (fun a => num_lt (res_confidence (classify useAI a))
                       (processThreshold e) = false) todo /\
  map r_article (snd out)
  = filter (fun a => num_lt (res_confidence (classify useAI a))
                       (processThreshold e) = true) todo /\
  (length (fst out) + length (snd out) = length todo)%nat /\
  (processThreshold e = NaN -> snd out = [] /\ map p_article (fst out) = todo).
Proof.
  intros out. destruct (processLoop_partition e useAI stamp todo O [] [])
    as [Hp Hr]. fold out in Hp, Hr. simpl in Hp, Hr.
  split; [exact Hp |]. split; [exact Hr |]. split.
  - rewrite <- (length_map p_article (fst out)), <- (length_map r_article (snd out)).
    rewrite Hp, Hr. apply filter_bool_partition.
  - intros Hnan. rewrite Hnan in Hp, Hr.
    assert (Hall : forall l : list Article,
              filter (fun a => num_lt (res_confidence (classify useAI a)) NaN = true) l = []
              /\ filter (fun a => num_lt (res_confidence (classify useAI a)) NaN = false) l = l).
    { induction l as [| x l [IH1 IH2]]; [split; reflexivity |].
      assert (Hx : num_lt (res_confidence (classify useAI x)) NaN = false)
        by (destruct (res_confidence (classify useAI x)); reflexivity).
      rewrite filter_cons_False by (rewrite Hx; discriminate).
      rewrite filter_cons_True by exact Hx.
      split; [exact IH1 | f_equal; exact IH2]. }
    destruct (Hall todo) as [H1 H2]. rewrite H1 in Hr. rewrite H2 in Hp.
    split; [| exact Hp].
    destruct (snd out); [reflexivity | discriminate].
Qed.

(** X10. Every article of the snapshot that a fulfilled run returns
    (and writes as [latest-processed.json]) is strictly inside the
    15-day window, and is either an article of the previous snapshot,
    unchanged, or a raw article whose id was in neither the previous
    snapshot nor the rejected cache, classified in this run with a
    confidence that is not below the threshold. *)
Theorem latest_snapshot_sound (w : ProcessWorld) (disk : Disk)
    (latestData : LatestData) (written : list (Path * FileDoc)) :
  run (processArticlesWithAI w) disk = (Fulfilled latestData, written) ->
  exists rawData,
    rawFile w = Fulfilled rawData /\
    (LatestProcessed, LatestDoc latestData) ∈ written /\
    forall p, p ∈ ld_articles latestData ->
      isRecent (cleanupNow (pclock w)) p = true /\
      (p ∈ default [] (processedFile w) \/
       (p_article p ∈ raw_articles rawData /\
        (forall q, q ∈ default [] (processedFile w) ->
                   id (p_article q) <> id (p_article p)) /\
        (forall r, r ∈ default [] (rejectedFile w) ->
                   id (r_article r) <> id (p_article p)) /\
        num_lt (p_confidence p) (processThreshold (env w)) = false /\
        exists k,
          p = processedArticle (modelsLoaded w) (stampOf (pclock w) k)
                (p_article p) (classify (modelsLoaded w) (p_article p)))).
Proof.
  intros Hrun.
  apply processArticlesWithAI_fulfilled_inv in Hrun
    as (rawData & dd & Hraw & _ & _ & _ & _ & Hbranch).
  exists rawData. split; [exact Hraw |].
  destruct Hbranch as [(_ & Hld & Hw) | (_ & Hld & Hw)].
  - split; [rewrite Hw; apply elem_of_cons; left; reflexivity |].
    intros p Hp. rewrite Hld in Hp. unfold cachedLatestData in Hp.
    cbn [ld_articles] in Hp. unfold rollingCleanup in Hp.
    cbn [cl_recentArticles] in Hp. unfold recentArticles in Hp.
    apply list_elem_of_filter in Hp as [Hrec Hin]. auto.
  - split; [rewrite Hw; apply elem_of_app; left; apply elem_of_cons; left;
            reflexivity |].
    intros p Hp. rewrite Hld in Hp.
    apply (mergedLatestData_elem enrich) in Hp. destruct Hp as [Horigin Hrec].
    split; [exact Hrec |].
    destruct Horigin as [Hex | Hnew]; [left; exact Hex | right].
    destruct (processLoop_elem classifier classifyCategory enrich (env w)
                (modelsLoaded w) (stampOf (pclock w))
                (finalArticlesToProcess (env w)
                   (articlesToProcess (raw_articles rawData)
                      (default [] (processedFile w))
                      (default [] (rejectedFile w)))) O [] []) as [Hp _].
    apply Hp in Hnew as [Hnil | (k & a & Hk & Hconf & ->)]; [inversion Hnil |].
    simpl p_article. simpl p_confidence.
    apply list_elem_of_lookup_2 in Hk as Hin.
    eapply elem_of_prefix in Hin; [| apply finalArticlesToProcess_prefix].
    apply articlesToProcess_elem in Hin as (Hraw' & Hnp & Hnr).
    split; [exact Hraw' |].
    split; [| split; [| split; [exact Hconf | exists k; reflexivity]]].
    + intros q Hq Heq. apply Hnp. rewrite <- Heq.
      apply (list_elem_of_fmap_2 (fun x => id (p_article x))), Hq.
    + intros r Hr Heq. apply Hnr. rewrite <- Heq.
      apply (list_elem_of_fmap_2 (fun x => id (r_article x))), Hr.
Qed.

(** X11. The counters of the snapshot add up: [totalArticles] is the
    number of its articles, [cleanedUpCount] is never negative,
    [cleanupApplied] says whether it is positive, and the articles kept
    plus the articles cleaned up are the articles of the previous
    snapshot plus the newly processed ones (which a run that classified
    something reports as [existingArticlesKept] and
    [newArticlesProcessed]). *)
Theorem latest_snapshot_accounting (w : ProcessWorld) (disk : Disk)
    (latestData : LatestData) (written : list (Path * FileDoc)) :
  run (processArticlesWithAI w) disk = (Fulfilled latestData, written) ->
  ld_totalArticles latestData = length (ld_articles latestData) /\
  0 <= cleanedUpCount latestData /\
  cleanupApplied latestData = (0 <? cleanedUpCount latestData) /\
  rollingWindowDays latestData = 15 /\
  match ld_newArticlesProcessed latestData,
        ld_existingArticlesKept latestData with
  | Some new, Some kept =>
      kept = length (default [] (processedFile w)) /\
      Z.of_nat (ld_totalArticles latestData) + cleanedUpCount latestData
      = Z.of_nat (new + kept)
  | None, None =>
      Z.of_nat (ld_totalArticles latestData) + cleanedUpCount latestData
      = Z.of_nat (length (default [] (processedFile w)))
  | _, _ => False
  end.
Proof.
  intros Hrun.
  apply processArticlesWithAI_fulfilled_inv in Hrun
    as (rawData & dd & _ & _ & _ & _ & _ & Hbranch).
  destruct Hbranch as [(_ & -> & _) | (_ & -> & _)].
  - unfold cachedLatestData.
    cbn [ld_totalArticles ld_articles cleanedUpCount cleanupApplied
         rollingWindowDays ld_newArticlesProcessed ld_existingArticlesKept].
    destruct (rollingCleanup_count (cleanupNow (pclock w))
                (default [] (processedFile w))) as (H0 & Hsum & Happ).
    split; [reflexivity |]. split; [exact H0 |]. split; [exact Happ |].
    split; [reflexivity | exact Hsum].
  - unfold mergedLatestData.
    cbn [ld_totalArticles ld_articles cleanedUpCount cleanupApplied
         rollingWindowDays ld_newArticlesProcessed ld_existingArticlesKept].
    match goal with
    | |- context [rollingCleanup ?n ?l] =>
        destruct (rollingCleanup_count n l) as (H0 & Hsum & Happ)
    end.
    split; [reflexivity |]. split; [exact H0 |]. split; [exact Happ |].
    split; [reflexivity |]. split; [reflexivity |].
    rewrite Hsum, js_sort_perm, length_app. f_equal. lia.
Qed.

(** X12. The daily file of a fulfilled run is named by the UTC day of
    the run and holds, in the order of the latest snapshot, exactly the
    articles of that snapshot published or processed on that day; so it
    is a part of the latest snapshot, and it holds every article of the
    snapshot that was stamped as processed on that day. *)
Theorem daily_snapshot_of_latest (w : ProcessWorld) (disk : Disk)
    (latestData : LatestData) (written : list (Path * FileDoc)) :
  run (processArticlesWithAI w) disk = (Fulfilled latestData, written) ->
  let today := utcDay (todayNow (pclock w)) in
  today * day_ms <= todayNow (pclock w) <= today * day_ms + (day_ms - 1) /\
  exists dailyData,
    (DailyProcessed today, DailyDoc dailyData) ∈ written /\
    dd_totalArticles dailyData = length (dd_articles dailyData) /\
    dd_articles dailyData `sublist_of` ld_articles latestData /\
    (forall p, p ∈ dd_articles dailyData <->
       p ∈ ld_articles latestData /\
       ((exists t, effectiveDate (p_article p) = Some t /\
                   today * day_ms <= t <= today * day_ms + (day_ms - 1)) \/
        (exists t, processedDate p = Some t /\
                   today * day_ms <= t <= today * day_ms + (day_ms - 1)))) /\
    (forall p t, p ∈ ld_articles latestData ->
       processed_at p = Instant t -> utcDay t = today ->
       p ∈ dd_articles dailyData).
Proof.
  intros Hrun today. split; [apply utcDay_bounds |].
  apply processArticlesWithAI_fulfilled_inv in Hrun
    as (rawData & dd & _ & Hdd & Htot & _ & _ & Hbranch).
  fold today in Hdd, Hbranch.
  assert (Hchar : forall p, p ∈ dd_articles dd <->
            p ∈ ld_articles latestData /\
            ((exists t, effectiveDate (p_article p) = Some t /\
                        today * day_ms <= t <= today * day_ms + (day_ms - 1)) \/
             (exists t, processedDate p = Some t /\
                        today * day_ms <= t <= today * day_ms + (day_ms - 1)))).
  { intros p. rewrite Hdd. unfold todaysArticles.
    rewrite list_elem_of_filter, isToday_spec. tauto. }
  exists dd. split.
  { destruct Hbranch as [(_ & _ & ->) | (_ & _ & ->)].
    - apply elem_of_cons. right. apply elem_of_cons. left. reflexivity.
    - apply elem_of_app. left. apply elem_of_cons. right.
      apply elem_of_cons. left. reflexivity. }
  split; [exact Htot |].
  split; [rewrite Hdd; apply sublist_filter |].
  split; [exact Hchar |].
  intros p t Hp Hat Hday. apply Hchar. split; [exact Hp |]. right.
  exists t. split; [unfold processedDate; rewrite Hat; reflexivity |].
  rewrite <- Hday. apply utcDay_bounds.
Qed.

Lemma recentRejected_count (threshold : option Z)
    (articles : list RejectedArticle) :
  (length (recentRejected threshold articles) <= length articles)%nat.
Proof. apply length_filter. Qed.

(** X13. A fulfilled run rewrites the rejected cache exactly when it
    rejected something.  The cache it writes holds, in order, the
    entries of the old cache followed by the new rejections, without
    those whose [rejected_at] is not strictly after the cache
    threshold; its counters are the number of entries, the number of
    new rejections and the number dropped. *)
Theorem rejected_cache_update (w : ProcessWorld) (disk : Disk)
    (latestData : LatestData) (written : list (Path * FileDoc)) :
  run (processArticlesWithAI w) disk = (Fulfilled latestData, written) ->
  exists rawData,
    rawFile w = Fulfilled rawData /\
    let rejected := default [] (rejectedFile w) in
    let todo :=
      finalArticlesToProcess (env w)
        (articlesToProcess (raw_articles rawData)
           (default [] (processedFile w)) rejected) in
    let newly :=
      snd (processLoop (env w) (modelsLoaded w) (stampOf (pclock w)) O
             todo ([], [])) in
    let threshold :=
      rejectedThreshold (rejectedCleanupDays (env w))
        (rejectedCleanupNow (pclock w)) in
    ((exists doc, (RejectedCache, doc) ∈ written) <-> newly <> []) /\
    forall doc, (RejectedCache, doc) ∈ written ->
      exists rd,
        doc = RejectedDoc rd /\
        rd_articles rd `sublist_of` rejected ++ newly /\
        (forall r, r ∈ rd_articles rd <->
           (r ∈ rejected \/ r ∈ newly) /\
           date_gt (Date_of_field (rejected_at r)) threshold = true) /\
        rd_totalRejected rd = length (rd_articles rd) /\
        rd_newlyRejected rd = length newly /\
        0 <= rd_cleanedUpCount rd /\
        Z.of_nat (rd_totalRejected rd) + rd_cleanedUpCount rd
        = Z.of_nat (length rejected + length newly).
Proof.
  intros Hrun.
  apply processArticlesWithAI_fulfilled_inv in Hrun
    as (rawData & dd & Hraw & _ & _ & _ & _ & Hbranch).
  exists rawData. split; [exact Hraw |]. cbn zeta.
  set (rejected := default [] (rejectedFile w)) in *.
  set (todo := finalArticlesToProcess (env w) _) in *.
  set (out := processLoop (env w) (modelsLoaded w) (stampOf (pclock w)) O
                todo ([], [])) in *.
  assert (Hnot : forall doc (l : list (Path * FileDoc)),
            (RejectedCache, doc)
              ∈ (LatestProcessed, LatestDoc latestData)
                :: (DailyProcessed (utcDay (todayNow (pclock w))), DailyDoc dd)
                :: l ->
            (RejectedCache, doc) ∈ l).
  { intros doc l H. apply elem_of_cons in H as [H | H]; [discriminate |].
    apply elem_of_cons in H as [H | H]; [discriminate | exact H]. }
  destruct Hbranch as [(Hnil & _ & ->) | (_ & _ & ->)].
  - assert (Hout : snd out = []) by (unfold out; rewrite Hnil; reflexivity).
    rewrite Hout. split.
    + split; [| congruence].
      intros (doc & H). apply Hnot in H. inversion H.
    + intros doc H. apply Hnot in H. inversion H.
  - cbn [app]. destruct (snd out) as [| r0 rs] eqn:Eout.
    + cbn [length Nat.ltb Nat.leb]. split.
      * split; [| congruence].
        intros (doc & H). apply Hnot in H. inversion H.
      * intros doc H. apply Hnot in H. inversion H.
    + cbn [length Nat.ltb Nat.leb]. split.
      * split; [discriminate |]. intros _. eexists.
        apply elem_of_cons. right. apply elem_of_cons. right.
        apply elem_of_cons. left. reflexivity.
      * intros doc H. apply Hnot in H.
        apply list_elem_of_singleton in H. injection H as ->.
        eexists. split; [reflexivity |].
        unfold rejectedOutputData.
        cbn [rd_articles rd_totalRejected rd_newlyRejected rd_cleanedUpCount].
        fold rejected.
        split; [apply sublist_filter |]. split.
        { intros r. unfold recentRejected.
          rewrite list_elem_of_filter, elem_of_app. tauto. }
        split; [reflexivity |]. split; [reflexivity |].
        pose proof (recentRejected_count
                      (rejectedThreshold (rejectedCleanupDays (env w))
                         (rejectedCleanupNow (pclock w)))
                      (rejected ++ r0 :: rs)) as Hle.
        rewrite length_app in Hle |- *.
        change (length (r0 :: rs)) with (S (length rs)) in *. split; lia.
Qed.

Lemma prefix_is_sublist {A : Type} (l1 l2 : list A) :
  l1 `prefix_of` l2 -> l1 `sublist_of` l2.
Proof. intros [rest ->]. apply sublist_inserts_r. reflexivity. Qed.

Lemma NoDup_fmap_eq {A B : Type} (f : A -> B) (l : list A) (x y : A) :
  NoDup (f <$> l) -> x ∈ l -> y ∈ l -> f x = f y -> x = y.
Proof.
  induction l as [| z l IH]; intros Hnd Hx Hy Hf; [inversion Hx |].
  rewrite fmap_cons in Hnd. apply NoDup_cons in Hnd as [Hz Hnd].
  apply elem_of_cons in Hx as [-> | Hx]; apply elem_of_cons in Hy as [-> | Hy].
  - reflexivity.
  - exfalso. apply Hz. rewrite Hf. apply list_elem_of_fmap_2, Hy.
  - exfalso. apply Hz. rewrite <- Hf. apply list_elem_of_fmap_2, Hx.
  - apply IH; assumption.
Qed.

(** X14. Which articles are classified again by the next run.  Let the
    ids of the raw articles be pairwise different, let a run be
    fulfilled, and let the next run read the same raw file, the
    snapshot this run wrote and the rejected cache as this run left it.
    Then an article classified in this run is eligible again in the
    next one exactly when its record did not survive: it was processed
    but its date is outside the 15-day window, or it was rejected but
    the time of its rejection is outside the cache window. *)
Theorem reclassified_next_run (w : ProcessWorld) (disk : Disk)
    (latestData : LatestData) (written : list (Path * FileDoc))
    (rawData : RawSnapshot) (cacheAfter : list RejectedArticle)
    (k : nat) (a : Article) :
  let existing := default [] (processedFile w) in
  let rejected := default [] (rejectedFile w) in
  let todo :=
    finalArticlesToProcess (env w)
      (articlesToProcess (raw_articles rawData) existing rejected) in
  let low :=
    num_lt (res_confidence (classify (modelsLoaded w) a))
      (processThreshold (env w)) in
  run (processArticlesWithAI w) disk = (Fulfilled latestData, written) ->
  rawFile w = Fulfilled rawData ->
  NoDup (id <$> raw_articles rawData) ->
  (forall rd, (RejectedCache, RejectedDoc rd) ∈ written ->
              cacheAfter = rd_articles rd) ->
  ((forall doc, (RejectedCache, doc) ∉ written) -> cacheAfter = rejected) ->
  todo !! k = Some a ->
  (a ∈ articlesToProcess (raw_articles rawData) (ld_articles latestData)
         cacheAfter
   <->
   if low
   then date_gt (Some (stampOf (pclock w) k))
          (rejectedThreshold (rejectedCleanupDays (env w))
             (rejectedCleanupNow (pclock w))) = false
   else date_gt (effectiveDate a) (cleanupThreshold (cleanupNow (pclock w)))
        = false).
Proof.
  intros existing rejected todo low Hrun Hraw Hids Hcache1 Hcache0 Hk.
  pose proof Hrun as Hinv.
  apply processArticlesWithAI_fulfilled_inv in Hinv
    as (rawData' & dd & Hraw' & _ & _ & _ & _ & Hbranch).
  rewrite Hraw in Hraw'. injection Hraw' as <-.
  fold existing rejected todo in Hbranch.
  set (out := processLoop (env w) (modelsLoaded w) (stampOf (pclock w)) O
                todo ([], [])) in *.
  destruct Hbranch as [(Hnil & _) | (_ & Hld & Hw)];
    [rewrite Hnil in Hk; discriminate |].
  destruct (processLoop_elem classifier classifyCategory enrich (env w)
              (modelsLoaded w) (stampOf (pclock w)) todo O [] [])
    as [Hpe Hre]. fold out in Hpe, Hre.
  assert (Hin_todo : a ∈ todo) by (eapply list_elem_of_lookup_2, Hk).
  assert (Hin : a ∈ articlesToProcess (raw_articles rawData) existing rejected)
    by (eapply elem_of_prefix; [exact Hin_todo | apply finalArticlesToProcess_prefix]).
  pose proof Hin as Hin'.
  apply articlesToProcess_elem in Hin' as (Ha_raw & Ha_np & Ha_nr).
  assert (Hsame : forall j b, todo !! j = Some b -> id b = id a -> b = a /\ j = k).
  { intros j b Hj Hid.
    assert (Hb : b ∈ raw_articles rawData).
    { apply list_elem_of_lookup_2 in Hj.
      eapply elem_of_prefix in Hj; [| apply finalArticlesToProcess_prefix].
      apply articlesToProcess_elem in Hj as (Hb & _). exact Hb. }
    assert (Heq : b = a) by (eapply NoDup_fmap_eq; eauto).
    split; [exact Heq |]. subst b.
    assert (Hnd : NoDup todo).
    { assert (Hsub : todo `sublist_of` raw_articles rawData).
      { transitivity (articlesToProcess (raw_articles rawData) existing rejected).
        - apply prefix_is_sublist, finalArticlesToProcess_prefix.
        - apply sublist_filter. }
      pose proof (NoDup_fmap_1 id _ Hids) as Hraw_nd.
      exact (sublist_NoDup _ _ Hraw_nd Hsub). }
    eapply NoDup_lookup; eauto. }
  (* the id of [a] in the new snapshot *)
  assert (Hsnap : id a ∈ (fun p => id (p_article p)) <$> ld_articles latestData
                  <-> low = false /\
                      date_gt (effectiveDate a)
                        (cleanupThreshold (cleanupNow (pclock w))) = true).
  { rewrite list_elem_of_fmap. split.
    - intros (p & Hid & Hp). rewrite Hld in Hp.
      apply (mergedLatestData_elem enrich) in Hp as [[Hex | Hnew] Hrec].
      + exfalso. apply Ha_np. rewrite Hid.
        apply (list_elem_of_fmap_2 (fun q => id (p_article q))), Hex.
      + apply Hpe in Hnew as [Hnil | (j & b & Hj & Hconf & ->)];
          [inversion Hnil |].
        simpl in Hid. destruct (Hsame j b Hj (eq_sym Hid)) as [-> ->].
        split; [exact Hconf | exact Hrec].
    - intros [Hlow Hrec].
      exists (processedArticle (modelsLoaded w) (stampOf (pclock w) k) a
                (classify (modelsLoaded w) a)).
      split; [reflexivity |]. rewrite Hld.
      apply (mergedLatestData_elem enrich). split; [| exact Hrec].
      right. apply Hpe. right. exists k, a. auto. }
  (* the id of [a] in the cache after the run *)
  assert (Hcache : id a ∈ (fun r => id (r_article r)) <$> cacheAfter
                   <-> low = true /\
                       date_gt (Some (stampOf (pclock w) k))
                         (rejectedThreshold (rejectedCleanupDays (env w))
                            (rejectedCleanupNow (pclock w))) = true).
  { destruct (snd out) as [| r0 rs] eqn:Eout.
    - assert (Hnone : forall doc, (RejectedCache, doc) ∉ written).
      { intros doc H. rewrite Hw in H. cbn [length Nat.ltb Nat.leb app] in H.
        apply elem_of_cons in H as [H | H]; [discriminate |].
        apply elem_of_cons in H as [H | H]; [discriminate | inversion H]. }
      rewrite (Hcache0 Hnone). split.
      + intros H. exfalso. apply Ha_nr, H.
      + intros [Hlow _]. exfalso.
        assert (Hr : rejectedArticle (env w) (stampOf (pclock w) k) a
                       (classify (modelsLoaded w) a) ∈ [])
          by (apply Hre; right; exists k, a; auto).
        inversion Hr.
    - assert (Hdoc : (RejectedCache,
                      RejectedDoc (rejectedOutputData w rejected (r0 :: rs)))
                     ∈ written).
      { rewrite Hw. cbn [length Nat.ltb Nat.leb app].
        apply elem_of_cons. right. apply elem_of_cons. right.
        apply elem_of_cons. left. reflexivity. }
      rewrite (Hcache1 _ Hdoc). unfold rejectedOutputData.
      cbn [rd_articles]. unfold recentRejected.
      rewrite list_elem_of_fmap. split.
      + intros (r & Hid & Hr).
        apply list_elem_of_filter in Hr as [Hwin Hr].
        apply elem_of_app in Hr as [Hold | Hnew].
        * exfalso. apply Ha_nr. rewrite Hid.
          apply (list_elem_of_fmap_2 (fun q => id (r_article q))), Hold.
        * apply Hre in Hnew as [Hnil | (j & b & Hj & Hconf & ->)];
            [inversion Hnil |].
          simpl in Hid. destruct (Hsame j b Hj (eq_sym Hid)) as [-> ->].
          split; [exact Hconf | exact Hwin].
      + intros [Hlow Hwin].
        exists (rejectedArticle (env w) (stampOf (pclock w) k) a
                  (classify (modelsLoaded w) a)).
        split; [reflexivity |]. apply list_elem_of_filter.
        split; [exact Hwin |]. apply elem_of_app. right.
        apply Hre. right. exists k, a. auto. }
  rewrite articlesToProcess_elem, Hsnap, Hcache.
  destruct low; destruct (date_gt (Some _) _);
    destruct (date_gt (effectiveDate a) _); intuition congruence.
Qed.

End ProcessRun.

(** * Properties of the rule-based analysis *)

Lemma starts_with_spec (pat s : jsstring) :
  starts_with pat s = true <-> exists post, s = pat ++ post.
Proof.
  revert s. induction pat as [| p pat IH]; intros s.
  - simpl. split; [intros _; exists s; reflexivity | reflexivity].
  - destruct s as [| c s]; simpl.
    + split; [discriminate | intros [post H]; discriminate].
    + rewrite andb_true_iff, Z.eqb_eq, IH. split.
      * intros [-> [post ->]]. exists post. reflexivity.
      * intros [post H]. injection H as -> ->. split; [reflexivity |].
        exists post. reflexivity.
Qed.

(** [includes] is the search for a substring. *)
Lemma includes_spec (pat s : jsstring) :
  includes pat s = true <-> exists pre post, s = pre ++ pat ++ post.
Proof.
  induction s as [| c r IH].
  - simpl. rewrite orb_false_r, starts_with_spec. split.
    + intros [post H]. exists [], post. exact H.
    + intros (pre & post & H). destruct pre as [| x pre]; [| discriminate].
      exists post. exact H.
  - cbn [includes]. rewrite orb_true_iff, starts_with_spec, IH. split.
    + intros [[post H] | (pre & post & H)].
      * exists [], post. exact H.
      * exists (c :: pre), post. rewrite H. reflexivity.
    + intros (pre & post & H). destruct pre as [| x pre].
      * left. exists post. exact H.
      * right. injection H as -> ->. exists pre, post. reflexivity.
Qed.

Section RuleFacts.

Variable toLowerCase : jsstring -> jsstring.

Local Abbreviation classifyCategory := (classifyCategory toLowerCase).
Local Abbreviation extractEntities := (extractEntities toLowerCase).
Local Abbreviation calculateDifficulty := (calculateDifficulty toLowerCase).
Local Abbreviation createTopicBasedSummary :=
  (createTopicBasedSummary toLowerCase).

(** The rules answer with one of seven categories, each with its own
    confidence. *)
Lemma classifyCategory_cases (title source : jsstring) :
  classifyCategory title source
  ∈ [ {| res_category := u16 "model-release";
         res_confidence := Num double_0_85 |};
      {| res_category := u16 "research-paper";
         res_confidence := Num double_0_9 |};
      {| res_category := u16 "developer-tool";
         res_confidence := Num double_0_8 |};
      {| res_category := u16 "ai-agents";
         res_confidence := Num double_0_85 |};
      {| res_category := u16 "tutorial-guide";
         res_confidence := Num double_0_8 |};
      {| res_category := u16 "creative-ai";
         res_confidence := Num double_0_75 |};
      {| res_category := u16 "industry-news";
         res_confidence := Num double_0_6 |} ].
Proof.
  unfold classifyCategory. cbv zeta.
  repeat match goal with
         | |- context [if ?b then _ else _] => destruct b
         end;
    repeat (apply elem_of_cons; first [left; reflexivity | right]).
Qed.

Lemma classifyCategory_confidence (title source : jsstring) :
  exists q, res_confidence (classifyCategory title source) = Num q /\
            Qle_bool double_0_6 q = true /\ Qle_bool q double_0_9 = true.
Proof.
  pose proof (classifyCategory_cases title source) as H.
  repeat (apply elem_of_cons in H as [-> | H]);
    [eexists; split; [reflexivity | split; vm_compute; reflexivity] .. |].
  inversion H.
Qed.

(** X15. The rule-based classifier only ever answers with seven of the
    ten categories of the category list: model-release, research-paper,
    developer-tool, ai-agents, tutorial-guide, creative-ai and
    industry-news, never product-launch, infrastructure or
    safety-ethics.  Each of the seven comes with its own confidence,
    a number between the doubles 0.6 and 0.9. *)
Theorem classifyCategory_range (title source : jsstring) :
  let result := classifyCategory title source in
  res_category result ∈ categories /\
  Forall (fun c => res_category result <> u16 c)
    ["product-launch"; "infrastructure"; "safety-ethics"]%string /\
  (exists q, res_confidence result = Num q /\
             (double_0_6 <= q)%Q /\ (q <= double_0_9)%Q) /\
  res_category result
  ∈ map u16 ["model-release"; "research-paper"; "developer-tool";
             "ai-agents"; "tutorial-guide"; "creative-ai";
             "industry-news"]%string /\
  result
  ∈ [ {| res_category := u16 "model-release";
         res_confidence := Num double_0_85 |};
      {| res_category := u16 "research-paper";
         res_confidence := Num double_0_9 |};
      {| res_category := u16 "developer-tool";
         res_confidence := Num double_0_8 |};
      {| res_category := u16 "ai-agents";
         res_confidence := Num double_0_85 |};
      {| res_category := u16 "tutorial-guide";
         res_confidence := Num double_0_8 |};
      {| res_category := u16 "creative-ai";
         res_confidence := Num double_0_75 |};
      {| res_category := u16 "industry-news";
         res_confidence := Num double_0_6 |} ].
Proof.
  intros result. subst result.
  destruct (classifyCategory_confidence title source) as (q & Hq & Hlo & Hhi).
  split; [| split; [| split; [| split]]].
  - pose proof (classifyCategory_cases title source) as H.
    repeat (apply elem_of_cons in H as [-> | H]);
      [unfold categories; cbn [map];
       repeat (apply elem_of_cons; first [left; reflexivity | right]) .. |].
    inversion H.
  - pose proof (classifyCategory_cases title source) as H.
    repeat (apply elem_of_cons in H as [-> | H]);
      [repeat constructor; intros E; vm_compute in E; discriminate .. |].
    inversion H.
  - exists q. split; [exact Hq |].
    split; apply Qle_bool_iff; assumption.
  - pose proof (classifyCategory_cases title source) as H.
    repeat (apply elem_of_cons in H as [-> | H]);
      [cbn [map res_category];
       repeat (apply elem_of_cons; first [left; reflexivity | right]) .. |].
    inversion H.
  - apply classifyCategory_cases.
Qed.

Lemma inject_Z_plus_eq (a b : Z) :
  (inject_Z a + inject_Z b)%Q = inject_Z (a + b).
Proof. unfold inject_Z, Qplus. simpl. rewrite !Z.mul_1_r. reflexivity. Qed.

(** A pass over a term list adds the step once for every term the title
    includes. *)
Lemma add_terms_count (k : Z) (terms : list string) (titleLower : jsstring) :
  forall z,
    add_terms (inject_Z k) terms titleLower (inject_Z z)
    = inject_Z
        (z + k * Z.of_nat
                   (length (filter (fun term =>
                                      includes (u16 term) titleLower = true)
                              terms))).
Proof.
  unfold add_terms.
  induction terms as [| term terms IH]; intros z.
  - simpl. rewrite Z.mul_0_r, Z.add_0_r. reflexivity.
  - cbn [fold_left]. destruct (includes (u16 term) titleLower) eqn:E.
    + rewrite filter_cons_True by exact E.
      rewrite inject_Z_plus_eq, IH. f_equal.
      change (length (term :: ?l)) with (S (length l)). lia.
    + rewrite filter_cons_False by (rewrite E; discriminate).
      apply IH.
Qed.

Lemma Math_round_halves (n m : Z) :
  Math_round (inject_Z n + inject_Z m * (1 # 2)) = n + (m + 1) / 2.
Proof.
  unfold Math_round, inject_Z, Qplus, Qmult, Qfloor. simpl.
  rewrite !Z.mul_1_r.
  Z.div_mod_to_equations. lia.
Qed.

Lemma calculateDifficulty_closed_form {E : Type} (title : jsstring)
    (entities : list E) :
  let included terms :=
    Z.of_nat
      (length (filter (fun term =>
                         includes (u16 term) (toLowerCase title) = true)
                 terms)) in
  calculateDifficulty title entities
  = Z.min 10
      (3 + included technicalTerms + 2 * included researchTerms
       + 3 * included advancedTerms
       + (Z.of_nat (length entities) + 1) / 2).
Proof.
  intros included.
  unfold calculateDifficulty. cbv zeta.
  rewrite !add_terms_count, Math_round_halves.
  fold (included technicalTerms) (included researchTerms)
    (included advancedTerms).
  assert (0 <= included technicalTerms) by apply Nat2Z.is_nonneg.
  assert (0 <= included researchTerms) by apply Nat2Z.is_nonneg.
  assert (0 <= included advancedTerms) by apply Nat2Z.is_nonneg.
  assert (0 <= (Z.of_nat (length entities) + 1) / 2)
    by (apply Z.div_pos; lia).
  lia.
Qed.

Lemma calculateDifficulty_bounds {E : Type} (title : jsstring)
    (entities : list E) :
  3 <= calculateDifficulty title entities <= 10.
Proof.
  rewrite calculateDifficulty_closed_form.
  assert (0 <= (Z.of_nat (length entities) + 1) / 2)
    by (apply Z.div_pos; lia).
  lia.
Qed.

(** X16. The difficulty is the base 3, plus one for every technical
    term, two for every research term and three for every advanced term
    that the lower-cased title includes, plus half the number of
    entities rounded half up, capped at 10; it is never below 3, so the
    lower clamp at 1 never acts, and one more entity never lowers it. *)
Theorem calculateDifficulty_formula {E : Type} (title : jsstring)
    (entities : list E) (entity : E) :
  let included terms :=
    Z.of_nat
      (length (filter (fun term =>
                         includes (u16 term) (toLowerCase title) = true)
                 terms)) in
  calculateDifficulty title entities
  = Z.min 10
      (3 + included technicalTerms + 2 * included researchTerms
       + 3 * included advancedTerms
       + (Z.of_nat (length entities) + 1) / 2) /\
  3 <= calculateDifficulty title entities <= 10 /\
  calculateDifficulty title entities
  <= calculateDifficulty title (entity :: entities).
Proof.
  intros included.
  split; [apply calculateDifficulty_closed_form |].
  split; [apply calculateDifficulty_bounds |].
  rewrite !calculateDifficulty_closed_form.
  change (length (entity :: entities)) with (S (length entities)).
  assert ((Z.of_nat (length entities) + 1) / 2
          <= (Z.of_nat (S (length entities)) + 1) / 2)
    by (apply Z.div_le_mono; lia).
  lia.
Qed.

Lemma entitiesOf_sound (label : string) (names : list string)
    (title : jsstring) :
  Forall (fun e => e.2 = u16 label /\
                   includes (toLowerCase e.1) (toLowerCase title) = true)
    (entitiesOf toLowerCase label names title) /\
  (length (entitiesOf toLowerCase label names title) <= length names)%nat.
Proof.
  unfold entitiesOf. induction names as [| x names [IH1 IH2]].
  - split; [constructor | reflexivity].
  - cbn [List.filter].
    destruct (includes (toLowerCase (u16 x)) (toLowerCase title)) eqn:E.
    + cbn [map]. split.
      * constructor; [split; [reflexivity | exact E] | exact IH1].
      * cbn [length]. lia.
    + split; [exact IH1 | cbn [length]; lia].
Qed.

(** X17. Every entity the rules extract is one of the names of the
    three lists, carries the label ORG, PRODUCT or TECH, and its
    lower-cased text occurs in the lower-cased title; the entities come
    grouped by label in that order and there are at most 40 of them. *)
Theorem extractEntities_sound (title : jsstring) :
  exists orgs products techs,
    extractEntities title = orgs ++ products ++ techs /\
    Forall (fun e => e.2 = u16 "ORG") orgs /\
    Forall (fun e => e.2 = u16 "PRODUCT") products /\
    Forall (fun e => e.2 = u16 "TECH") techs /\
    Forall (fun e => includes (toLowerCase e.1) (toLowerCase title) = true)
      (extractEntities title) /\
    (length (extractEntities title) <= 40)%nat.
Proof.
  unfold extractEntities.
  match goal with
  | |- context [entitiesOf _ "ORG" ?a _ ++ entitiesOf _ "PRODUCT" ?b _
                ++ entitiesOf _ "TECH" ?c _] =>
      destruct (entitiesOf_sound "ORG" a title) as [Ho Lo];
      destruct (entitiesOf_sound "PRODUCT" b title) as [Hp Lp];
      destruct (entitiesOf_sound "TECH" c title) as [Ht Lt]
  end.
  eexists _, _, _. split; [reflexivity |].
  split; [eapply Forall_impl; [exact Ho | intros e [H _]; exact H] |].
  split; [eapply Forall_impl; [exact Hp | intros e [H _]; exact H] |].
  split; [eapply Forall_impl; [exact Ht | intros e [H _]; exact H] |].
  split.
  - rewrite !Forall_app. repeat split;
      (eapply Forall_impl; [eassumption | intros e [_ H]; exact H]).
  - rewrite !length_app. cbn [length] in Lo, Lp, Lt. lia.
Qed.

Lemma filter_all_spaces (s : jsstring) :
  Forall (fun c => is_space c = true) s ->
  filter (fun c => is_space c = false) s = [].
Proof.
  induction 1 as [| c r Hc _ IH]; [reflexivity |].
  rewrite filter_cons_False by (rewrite Hc; discriminate). exact IH.
Qed.

Lemma trim_keeps_others (s : jsstring) :
  filter (fun c => is_space c = false) (trim s)
  = filter (fun c => is_space c = false) s.
Proof.
  destruct (trim_split s) as (front & back & Heq & Hf & Hb & _).
  rewrite Heq at 2. rewrite !filter_app.
  rewrite (filter_all_spaces front Hf), (filter_all_spaces back Hb).
  rewrite app_nil_r. reflexivity.
Qed.

Lemma trim_nonempty_others (s : jsstring) :
  trim s <> [] -> filter (fun c => is_space c = false) s <> [].
Proof.
  intros Hne. rewrite <- trim_keeps_others.
  destruct (trim_split s) as (_ & _ & _ & _ & _ & Hhd & _).
  destruct (trim s) as [| c r]; [congruence |].
  rewrite filter_cons_True by (apply Hhd; reflexivity). discriminate.
Qed.

Lemma newline_to_space_keeps_others (s : jsstring) :
  filter (fun c => is_space c = false)
    (map (fun c => if c =? 10 then 32 else c) s)
  = filter (fun c => is_space c = false) s.
Proof.
  induction s as [| c r IH]; [reflexivity |].
  cbn [map]. destruct (c =? 10) eqn:E.
  - apply Z.eqb_eq in E. subst c.
    rewrite !filter_cons_False by (vm_compute; congruence). exact IH.
  - rewrite !filter_cons, IH. reflexivity.
Qed.

(** The rule-based summary of a text that is not all white space. *)
Lemma ruleSummary_bounds (content : jsstring) :
  filter (fun c => is_space c = false) content <> [] ->
  ruleSummary content <> [] /\ (length (ruleSummary content) <= 123)%nat.
Proof.
  intros Hne. unfold ruleSummary. cbv zeta.
  set (cleaned := trim (collapse_spaces false
                          (map (fun c => if c =? 10 then 32 else c) content))).
  assert (Hc : cleaned <> []).
  { intros E.
    assert (H : filter (fun c => is_space c = false) cleaned = [])
      by (rewrite E; reflexivity).
    unfold cleaned in H.
    rewrite trim_keeps_others, collapse_spaces_keeps_others,
      newline_to_space_keeps_others in H.
    contradiction. }
  destruct (120 <? length cleaned)%nat eqn:E.
  - split.
    + intros H. apply app_eq_nil in H as [_ H]. vm_compute in H. discriminate.
    + rewrite length_app, length_take. change (length (u16 "...")) with 3%nat.
      lia.
  - apply Nat.ltb_ge in E. split; [exact Hc | lia].
Qed.

Lemma contentToSummarize_Some (metaDescription content : jsstring) :
  contentToSummarize metaDescription = Some content ->
  content = trim metaDescription /\
  filter (fun c => is_space c = false) content <> [] /\
  isRedditBoilerplate metaDescription = false /\
  (50 < length metaDescription)%nat.
Proof.
  unfold contentToSummarize.
  destruct (truthy_str (Some metaDescription)); [| discriminate].
  destruct (truthy_str (Some (trim metaDescription))) eqn:Et; [| discriminate].
  destruct (isRedditBoilerplate metaDescription); [discriminate |].
  destruct (50 <? length metaDescription)%nat eqn:El; [| discriminate].
  simpl. intros H. injection H as <-.
  split; [reflexivity |]. split; [| split; [reflexivity |]].
  - rewrite trim_keeps_others. apply trim_nonempty_others.
    intros E. rewrite E in Et. discriminate.
  - apply Nat.ltb_lt, El.
Qed.

Lemma createTopicBasedSummary_cases (title : jsstring) :
  createTopicBasedSummary title
  ∈ map u16
      ["Discussion about AI models and tools mentioned in the title.";
       "Community discussion seeking help or recommendations on AI-related topics.";
       "Announcement or discussion about new AI model releases and updates.";
       "Discussion about AI-powered creative content generation and tools.";
       "Discussion of AI research findings and academic papers.";
       "Community discussion about AI developments and related topics."]%string.
Proof.
  unfold createTopicBasedSummary. cbv zeta. cbn [map].
  repeat match goal with
         | |- context [if ?b then _ else _] => destruct b
         end;
    repeat (apply elem_of_cons; first [left; reflexivity | right]).
Qed.

Lemma createTopicBasedSummary_bounds (title : jsstring) :
  createTopicBasedSummary title <> [] /\
  (length (createTopicBasedSummary title) <= 123)%nat.
Proof.
  pose proof (createTopicBasedSummary_cases title) as H. cbn [map] in H.
  repeat (apply elem_of_cons in H as [-> | H]);
    [split; [intros E; vm_compute in E; discriminate
            | apply Nat.leb_le; vm_compute; reflexivity] .. |].
  inversion H.
Qed.

Section SummaryFacts.

Variable summarizer : jsstring -> option jsstring.

Local Abbreviation generateSummary := (generateSummary toLowerCase summarizer).

Lemma generateSummary_source (title metaDescription source source' : jsstring)
    (useAI : bool) :
  generateSummary title metaDescription source' useAI
  = generateSummary title metaDescription source useAI.
Proof.
  unfold generateSummary. cbv zeta.
  destruct (contentToSummarize metaDescription) as [content |].
  - rewrite (bool_decide_eq_true_2 (is_Some (Some content)))
      by (exists content; reflexivity).
    reflexivity.
  - rewrite (bool_decide_eq_false_2 (is_Some (@None jsstring)))
      by (intros [x Hx]; discriminate).
    cbn [negb andb]. rewrite orb_true_r.
    destruct (truthy_str (Some source') && includes (u16 "reddit") source'),
      (truthy_str (Some source) && includes (u16 "reddit") source);
      reflexivity.
Qed.

Lemma generateSummary_cases (title metaDescription source : jsstring)
    (useAI : bool) :
  (exists content,
      useAI = true /\
      contentToSummarize metaDescription = Some content /\
      summarizer content
      = Some (generateSummary title metaDescription source useAI)) \/
  (generateSummary title metaDescription source useAI <> [] /\
   (length (generateSummary title metaDescription source useAI) <= 123)%nat).
Proof.
  unfold generateSummary. cbv zeta.
  destruct (contentToSummarize metaDescription) as [content |] eqn:Ec.
  - pose proof (contentToSummarize_Some _ _ Ec) as (_ & Hne & _).
    rewrite (bool_decide_eq_true_2 (is_Some (Some content)))
      by (exists content; reflexivity).
    cbn [negb andb orb]. rewrite orb_false_r.
    destruct useAI; cbn [negb].
    + destruct (summarizer content) as [summary |] eqn:Es.
      * left. exists content.
        split; [reflexivity | split; [reflexivity | exact Es]].
      * right. apply ruleSummary_bounds, Hne.
    + right. apply ruleSummary_bounds, Hne.
  - rewrite (bool_decide_eq_false_2 (is_Some (@None jsstring)))
      by (intros [x Hx]; discriminate).
    cbn [negb andb]. rewrite orb_true_r.
    right.
    destruct (truthy_str (Some source) && includes (u16 "reddit") source);
      apply createTopicBasedSummary_bounds.
Qed.

(** X18. The summary does not depend on the source, although the code
    tests it for reddit; and unless the summarization model answered on
    a usable description, the summary is a non-empty text of at most
    123 code units. *)
Theorem generateSummary_shape (title metaDescription source source' : jsstring)
    (useAI : bool) :
  let summary := generateSummary title metaDescription source useAI in
  generateSummary title metaDescription source' useAI = summary /\
  ((exists content,
       useAI = true /\
       contentToSummarize metaDescription = Some content /\
       summarizer content = Some summary) \/
   (summary <> [] /\ (length summary <= 123)%nat)).
Proof.
  intros summary. subst summary.
  split; [apply generateSummary_source | apply generateSummary_cases].
Qed.

End SummaryFacts.

End RuleFacts.

(** ** A run that classifies with the rules *)

Section RuleRun.

Variable toLowerCase : jsstring -> jsstring.
Variable classifier : jsstring -> option ClassResult.
Variable summarizer : jsstring -> option jsstring.
Variable ner : jsstring -> option (list (jsstring * jsstring)).

Local Abbreviation classifyCategory := (classifyCategory toLowerCase).
Local Abbreviation extractEntities := (extractEntities toLowerCase).
Local Abbreviation enrichArticle := (enrichArticle toLowerCase summarizer ner).

Lemma filter_all_true {A : Type} (P : A -> Prop) `{!forall x, Decision (P x)}
    (l : list A) :
  (forall x, P x) -> filter P l = l.
Proof.
  intros HP. induction l as [| x l IH]; [reflexivity |].
  rewrite filter_cons_True by apply HP. f_equal. exact IH.
Qed.

Lemma filter_all_false {A : Type} (P : A -> Prop) `{!forall x, Decision (P x)}
    (l : list A) :
  (forall x, ~ P x) -> filter P l = [].
Proof.
  intros HP. induction l as [| x l IH]; [reflexivity |].
  rewrite filter_cons_False by apply HP. exact IH.
Qed.

(** X19. When the models are not loaded, a threshold that is not above
    the double 0.6 (the default 0.25 for one) rejects no article: all
    the articles handed to the loop come out processed, in their order;
    and a threshold above the double 0.9 rejects them all. *)
Theorem rule_based_threshold (enrich : bool -> Article -> Enrichment)
    (e : Env) (stamp : nat -> Z) (todo : list Article) :
  let out := processLoop classifier classifyCategory enrich e false stamp O
               todo ([], []) in
  (num_lt (Num double_0_6) (processThreshold e) = false ->
   snd out = [] /\ map p_article (fst out) = todo) /\
  (num_lt (Num double_0_9) (processThreshold e) = true ->
   fst out = [] /\ map r_article (snd out) = todo).
Proof.
  intros out.
  destruct (processLoop_partition classifier classifyCategory enrich
              e false stamp todo O [] []) as [Hp Hr].
  fold out in Hp, Hr. cbn [map app] in Hp, Hr.
  split; intros Hthr.
  - assert (Hall : forall a,
              num_lt (res_confidence (classify classifier classifyCategory false a))
                (processThreshold e) = false).
    { intros a. cbn [classify].
      destruct (classifyCategory_confidence toLowerCase (title a) (source a))
        as (q & -> & Hlo & _).
      destruct (processThreshold e) as [| t]; [reflexivity |].
      cbn [num_lt] in *. apply negb_false_iff in Hthr.
      apply negb_false_iff. apply Qle_bool_iff.
      apply Qle_bool_iff in Hthr, Hlo. eapply Qle_trans; eassumption. }
    rewrite (filter_all_true _ todo Hall) in Hp.
    rewrite (filter_all_false _ todo) in Hr
      by (intros a; rewrite Hall; discriminate).
    split; [| exact Hp].
    destruct (snd out); [reflexivity | discriminate].
  - assert (Hall : forall a,
              num_lt (res_confidence (classify classifier classifyCategory false a))
                (processThreshold e) = true).
    { intros a. cbn [classify].
      destruct (classifyCategory_confidence toLowerCase (title a) (source a))
        as (q & -> & _ & Hhi).
      destruct (processThreshold e) as [| t]; [discriminate |].
      cbn [num_lt] in *. apply negb_true_iff in Hthr.
      apply negb_true_iff. apply not_true_iff_false.
      apply not_true_iff_false in Hthr. intros H. apply Hthr.
      apply Qle_bool_iff. apply Qle_bool_iff in H, Hhi.
      eapply Qle_trans; eassumption. }
    rewrite (filter_all_true _ todo Hall) in Hr.
    rewrite (filter_all_false _ todo) in Hp
      by (intros a; rewrite Hall; discriminate).
    split; [| exact Hr].
    destruct (fst out); [reflexivity | discriminate].
Qed.

(** X20. Whatever classifies the articles, a newly processed article
    carries the language en, a difficulty between 3 and 10, and, when
    the models are not loaded, the entities the rules extract from its
    title and a non-empty summary of at most 123 code units. *)
Theorem processed_enrichment_bounds (classifyRules : jsstring -> jsstring -> ClassResult)
    (e : Env) (useAI : bool) (stamp : nat -> Z) (todo : list Article) :
  Forall
    (fun p =>
       p_language p = u16 "en" /\
       3 <= p_difficulty p <= 10 /\
       (useAI = false ->
        p_entities p = extractEntities (title (p_article p)) /\
        p_summary p <> [] /\
        (length (p_summary p) <= 123)%nat))
    (fst (processLoop classifier classifyRules enrichArticle e useAI stamp O
            todo ([], []))).
Proof.
  apply Forall_forall. intros p Hp.
  apply (processLoop_elem classifier classifyRules enrichArticle) in Hp
    as [Hp | (k & a & _ & _ & ->)]; [inversion Hp |].
  unfold processedArticle, enrichArticle.
  cbn [p_language p_difficulty p_entities p_summary p_article
       enr_entities enr_difficulty enr_summary].
  split; [reflexivity |].
  split; [apply calculateDifficulty_bounds |].
  intros ->. split; [reflexivity |].
  destruct (generateSummary_cases toLowerCase summarizer (title a)
              (metaDescription a) (source a) false)
    as [(content & Hai & _) | H]; [discriminate | exact H].
Qed.

End RuleRun.

(** * Properties of the relevance filter *)

Section CrawlOrigin.

Variable url_hostname : jsstring -> option jsstring.
Variable toLowerCase : jsstring -> jsstring.
Variable isRelevant : bool -> Source -> jsstring -> jsstring -> bool.

Local Abbreviation crawlItem := (crawlItem url_hostname isRelevant).
Local Abbreviation crawlFeed := (crawlFeed url_hostname isRelevant).
Local Abbreviation crawlSources := (crawlSources url_hostname isRelevant).
Local Abbreviation crawlAllSources :=
  (crawlAllSources url_hostname toLowerCase isRelevant).

(** An article records the source it was produced for, and it passed
    the filter with its own title and description. *)
Lemma crawlItem_relevant (useAIFilter : bool) (s : Source)
    (clk : ItemClock) (item : RawItem) (a : Article) :
  crawlItem useAIFilter s clk item = Some a ->
  isRelevant useAIFilter s (title a) (metaDescription a) = true /\
  source a = name s /\
  source_category a = category s.
Proof.
  unfold crawlItem.
  destruct (cleanTitle _) as [| c ct] eqn:Etitle; [discriminate |].
  destruct (or_str (link item) (guid item)) as [[| u ut] |] eqn:Eurl;
    try discriminate.
  cbn [truthy_str negb orb default].
  destruct (isRelevant _ _ _ _) eqn:Erel; [| discriminate].
  cbn [negb].
  destruct (normalizeDate s clk item) as [t |]; [| discriminate].
  intros H. injection H as <-.
  cbn [title metaDescription source source_category].
  split; [exact Erel |]. split; reflexivity.
Qed.

Lemma crawlSources_elem (w : CrawlWorld) (sources : list Source) :
  forall (k : nat) (acc : list Article) (a : Article),
    a ∈ crawlSources w k sources acc ->
    a ∈ acc \/
    exists j s, sources !! j = Some s /\
      a ∈ crawlFeed (aiFilterReady w) s (feedOf w (k + j)%nat)
            (clockOf w (k + j)%nat).
Proof.
  induction sources as [| s rest IH]; intros k acc a; cbn [crawlSources].
  - intros H. left. exact H.
  - intros H. apply IH in H as [H | (j & s' & Hj & Ha)].
    + apply elem_of_app in H as [H | H]; [left; exact H |].
      right. exists O, s. rewrite Nat.add_0_r. split; [reflexivity | exact H].
    + right. exists (S j), s'. rewrite Nat.add_succ_r. split; assumption.
Qed.

(** Every article of the snapshot was produced from an entry of the feed
    of one of the sources. *)
Lemma crawlAllSources_origin (w : CrawlWorld) (disk : Disk)
    (articles : list Article) (written : list (Path * FileDoc))
    (a : Article) :
  run (crawlAllSources w) disk = (Fulfilled articles, written) ->
  a ∈ articles ->
  exists s clk item,
    crawlItem (aiFilterReady w) s clk item = Some a.
Proof.
  unfold crawlAllSources, run, bind, await, mkdir, writeFile.
  destruct (sourcesFile w) as [sources | e]; unfold ret, throw;
    [| discriminate].
  destruct (mkdir_error disk) as [e |]; [discriminate |].
  destruct (write_error disk LatestRaw) as [e |]; [discriminate |].
  intros H. injection H as <- _. rewrite js_sort_perm.
  unfold removeDuplicates.
  destruct (removeDuplicates_fold toLowerCase
              (crawlSources w 0 sources []) [] ∅)
    as (kept & -> & Hsub & _).
  cbn [app]. intros Ha.
  eapply elem_of_sublist in Ha; [| exact Hsub].
  apply crawlSources_elem in Ha as [Ha | (j & s & _ & Ha)]; [inversion Ha |].
  destruct (feedOf w (0 + j)) as [feed |]; [| inversion Ha].
  apply crawlFeed_elem in Ha as (i & item & _ & _ & Hc).
  eauto.
Qed.

End CrawlOrigin.

Lemma some_included_spec (list : list string) (text : jsstring) :
  some_included list text = true <->
  exists keyword pre post, keyword ∈ list /\ text = pre ++ u16 keyword ++ post.
Proof.
  unfold some_included. induction list as [| k rest IH]; cbn [existsb].
  - split; [discriminate | intros (k & _ & _ & H & _); inversion H].
  - rewrite orb_true_iff, includes_spec, IH. split.
    + intros [(pre & post & H) | (k' & pre & post & Hin & H)].
      * exists k, pre, post. split; [apply elem_of_cons; left; reflexivity | exact H].
      * exists k', pre, post. split; [apply elem_of_cons; right; exact Hin | exact H].
    + intros (k' & pre & post & Hin & H).
      apply elem_of_cons in Hin as [-> | Hin].
      * left. exists pre, post. exact H.
      * right. exists k', pre, post. split; assumption.
Qed.

Section RelevanceFacts.

Variable url_hostname : jsstring -> option jsstring.
Variable toLowerCase : jsstring -> jsstring.
Variable aiClassifier
  : option (jsstring -> list jsstring -> option ClassifierOutput).
Variable CATEGORIZATION_CONFIDENCE_THRESHOLD : option JsNumber.

Local Abbreviation isAIRelevant := (isAIRelevant toLowerCase).
Local Abbreviation isAIRelevantAI :=
  (isAIRelevantAI aiClassifier CATEGORIZATION_CONFIDENCE_THRESHOLD).
Local Abbreviation itemRelevant :=
  (itemRelevant toLowerCase aiClassifier CATEGORIZATION_CONFIDENCE_THRESHOLD).

(** The decision of the keyword branch, read as a proposition. *)
Lemma itemRelevant_keywords (s : Source) (title description : jsstring) :
  itemRelevant false s title description = true ->
  some_included excludeTerms (toLowerCase title) = false /\
  (some_included aiSources (toLowerCase (name s)) = true \/
   some_included aiKeywords (toLowerCase title) = true \/
   (category s ∈ map u16 ["youtube"; "research"; "tutorial";
                          "newsletter"]%string /\
    some_included educationalAIKeywords (toLowerCase title) = true)).
Proof.
  unfold itemRelevant, isAIRelevant. cbv zeta.
  destruct (some_included excludeTerms (toLowerCase title)); [discriminate |].
  intros H. split; [reflexivity |].
  destruct (some_included aiSources (toLowerCase (name s)));
    [left; reflexivity |].
  destruct (some_included aiKeywords (toLowerCase title));
    [right; left; reflexivity |].
  right. right.
  destruct (_ || _ || _ || _) eqn:Ecat; [| discriminate].
  cbn [orb] in H. split; [| exact H].
  cbn [map]. rewrite !elem_of_cons.
  apply orb_true_iff in Ecat as [Ecat | Ecat];
    [apply orb_true_iff in Ecat as [Ecat | Ecat];
     [apply orb_true_iff in Ecat as [Ecat | Ecat] |] |];
    apply bool_decide_eq_true in Ecat; tauto.
Qed.

(** X21. Without the classifier, no article of the snapshot a crawl
    writes has one of the excluded terms in its lower-cased title, and
    each one comes from a source whose name holds one of the AI source
    names, or has an AI keyword in its title, or comes from a source of
    the categories youtube, research, tutorial or newsletter and has one
    of the broader keywords in its title. *)
Theorem keyword_crawl_relevance (w : CrawlWorld) (disk : Disk)
    (articles : list Article) (written : list (Path * FileDoc)) :
  aiFilterReady w = false ->
  run (crawlAllSources url_hostname toLowerCase itemRelevant w) disk
  = (Fulfilled articles, written) ->
  Forall
    (fun a =>
       some_included excludeTerms (toLowerCase (title a)) = false /\
       (some_included aiSources (toLowerCase (source a)) = true \/
        some_included aiKeywords (toLowerCase (title a)) = true \/
        (source_category a ∈ map u16 ["youtube"; "research"; "tutorial";
                                      "newsletter"]%string /\
         some_included educationalAIKeywords (toLowerCase (title a)) = true)))
    articles.
Proof.
  intros Hmode Hrun. apply Forall_forall. intros a Ha.
  destruct (crawlAllSources_origin _ _ _ _ _ _ _ _ Hrun Ha)
    as (s & clk & item & Hc).
  apply crawlItem_relevant in Hc as (Hrel & -> & ->).
  rewrite Hmode in Hrel. apply itemRelevant_keywords in Hrel. exact Hrel.
Qed.

(** X22. The excluded terms only act in the keyword branch: an entry of
    a source with an AI source name whose title holds an excluded term
    is dropped when the classifier is not loaded, but kept when the
    classifier is loaded and its call fails. *)
Theorem excluded_terms_only_without_classifier (s : Source)
    (title description : jsstring) :
  some_included aiSources (toLowerCase (name s)) = true ->
  some_included excludeTerms (toLowerCase title) = true ->
  itemRelevant false s title description = false /\
  (isAIRelevantAI title description = None ->
   itemRelevant true s title description = true).
Proof.
  intros Hsrc Hex. unfold itemRelevant, isAIRelevant. cbv zeta.
  rewrite Hex, Hsrc. split; [reflexivity |].
  intros ->. reflexivity.
Qed.

(** X23. The keywords are searched as substrings, not as words: a title
    whose lower-cased text has the letters ai anywhere, inside a word
    too, passes the keyword filter unless it holds an excluded term. *)
Theorem keyword_inside_a_word (s : Source) (title description : jsstring)
    (pre post : jsstring) :
  toLowerCase title = pre ++ u16 "ai" ++ post ->
  isAIRelevant title (name s) = true /\
  itemRelevant false s title description
  = negb (some_included excludeTerms (toLowerCase title)).
Proof.
  intros Hai.
  assert (Hkw : some_included aiKeywords (toLowerCase title) = true).
  { apply some_included_spec. exists "ai"%string, pre, post.
    split; [apply elem_of_cons; left; reflexivity | exact Hai]. }
  assert (Hrel : isAIRelevant title (name s) = true).
  { unfold isAIRelevant. cbv zeta. rewrite Hkw.
    destruct (some_included aiSources _); reflexivity. }
  split; [exact Hrel |].
  unfold itemRelevant. cbv zeta. fold (isAIRelevant title (name s)).
  rewrite Hrel. cbn [orb].
  destruct (some_included excludeTerms (toLowerCase title)); [reflexivity |].
  match goal with
  | |- context [if ?b then _ else _] => destruct b
  end; reflexivity.
Qed.

(** X24. With the classifier loaded, an entry is kept only if the
    classifier failed on it and the keyword rule of [isAIRelevant]
    accepts it, or both calls answered and the first score of the first
    answer is a number strictly above the second and the third and not
    below the threshold (so an answer with a score missing, or a
    threshold that is not a number, keeps nothing). *)
Theorem ai_filter_decision (s : Source) (title description : jsstring) :
  itemRelevant true s title description = true ->
  (isAIRelevantAI title description = None /\
   isAIRelevant title (name s) = true) \/
  exists classify binaryResult a b c t,
    let text := take 500 (title ++ u16 " " ++ description) in
    aiClassifier = Some classify /\
    classify text binaryCategories = Some binaryResult /\
    is_Some (classify text aiSpecificCategories) /\
    score 0 binaryResult = Num a /\
    score 1 binaryResult = Num b /\
    score 2 binaryResult = Num c /\
    categorizationThreshold CATEGORIZATION_CONFIDENCE_THRESHOLD = Num t /\
    (b < a)%Q /\ (c < a)%Q /\ (t <= a)%Q.
Proof.
  unfold itemRelevant.
  destruct (isAIRelevantAI title description) as [r |] eqn:Eai;
    [| intros H; left; split; [reflexivity | exact H]].
  intros H. right. apply andb_true_iff in H as [Hrel Hq].
  unfold isAIRelevantAI in Eai.
  destruct aiClassifier as [classify |]; [| discriminate].
  cbv zeta in Eai.
  destruct (classify _ binaryCategories) as [binaryResult |] eqn:Eb;
    [| discriminate].
  assert (Hr : ai_isRelevant r
               = num_gt (score 0 binaryResult)
                   (Math_max (score 1 binaryResult) (score 2 binaryResult)) /\
               meetsQualityThreshold r
               = num_ge (score 0 binaryResult)
                   (categorizationThreshold CATEGORIZATION_CONFIDENCE_THRESHOLD) /\
               (ai_isRelevant r = true ->
                is_Some (classify (take 500 (title ++ u16 " " ++ description))
                           aiSpecificCategories))).
  { destruct (num_gt _ _) eqn:Egt.
    - destruct (classify _ aiSpecificCategories) as [sp |] eqn:Es;
        [| discriminate].
      injection Eai as <-. cbn [ai_isRelevant meetsQualityThreshold].
      split; [reflexivity |]. split; [reflexivity |]. intros _. eauto.
    - injection Eai as <-. cbn [ai_isRelevant meetsQualityThreshold].
      split; [reflexivity |]. split; [reflexivity |]. discriminate. }
  destruct Hr as (Hr1 & Hr2 & Hr3).
  rewrite Hr1 in Hrel. rewrite Hr2 in Hq. rewrite Hr1 in Hr3.
  specialize (Hr3 Hrel).
  destruct (score 0 binaryResult) as [| a] eqn:E0; [discriminate |].
  destruct (score 1 binaryResult) as [| b] eqn:E1;
    [unfold num_gt, num_lt, Math_max in Hrel; discriminate |].
  destruct (score 2 binaryResult) as [| c] eqn:E2;
    [unfold num_gt, num_lt, Math_max in Hrel; discriminate |].
  destruct (categorizationThreshold CATEGORIZATION_CONFIDENCE_THRESHOLD)
    as [| t]; [discriminate |].
  exists classify, binaryResult, a, b, c, t. cbv zeta.
  split; [reflexivity |]. split; [exact Eb |]. split; [exact Hr3 |].
  split; [exact E0 |]. split; [exact E1 |]. split; [exact E2 |].
  split; [reflexivity |].
  unfold num_gt, num_lt, Math_max in Hrel. cbn [num_ge] in Hq.
  apply negb_true_iff, not_true_iff_false in Hrel.
  apply Qle_bool_iff in Hq.
  destruct (Qle_bool b c) eqn:Ebc.
  - apply Qle_bool_iff in Ebc.
    assert (Hca : (c < a)%Q)
      by (apply Qnot_le_lt; intros Hle; apply Hrel, Qle_bool_iff, Hle).
    split; [eapply Qle_lt_trans; eassumption |]. split; assumption.
  - assert (Hba : (b < a)%Q)
      by (apply Qnot_le_lt; intros Hle; apply Hrel, Qle_bool_iff, Hle).
    assert (Hcb : (c < b)%Q).
    { apply Qnot_le_lt. intros Hle. apply Qle_bool_iff in Hle. congruence. }
    split; [exact Hba |]. split; [eapply Qlt_trans; eassumption | exact Hq].
Qed.

End RelevanceFacts.

(** * The metadata of the processed snapshot *)

(** [[...new Set(list)]] keeps the first occurrence of every element. *)
Lemma distinct_spec (l : list jsstring) :
  forall seen,
    NoDup (distinct seen l) /\
    distinct seen l `sublist_of` l /\
    (forall c, c ∈ distinct seen l <-> c ∈ l /\ c ∉ seen).
Proof.
  induction l as [| x r IH]; intros seen.
  - split; [constructor |]. split; [constructor |].
    intros c. split; [intros H; inversion H | intros [H _]; inversion H].
  - cbn [distinct]. destruct (decide (x ∈ seen)) as [Hin | Hnotin].
    + destruct (IH seen) as (Hnd & Hsub & Hel).
      split; [exact Hnd |]. split; [apply sublist_cons, Hsub |].
      intros c. rewrite Hel, elem_of_cons. split.
      * intros [H1 H2]. split; [right; exact H1 | exact H2].
      * intros [[-> | H1] H2]; [contradiction | split; assumption].
    + destruct (IH (x :: seen)) as (Hnd & Hsub & Hel).
      split; [| split].
      * constructor; [| exact Hnd].
        rewrite Hel. intros [_ H]. apply H, elem_of_cons. left. reflexivity.
      * apply sublist_skip, Hsub.
      * intros c. rewrite !elem_of_cons, Hel, elem_of_cons. split.
        -- intros [-> | [H1 H2]].
           ++ split; [left; reflexivity | exact Hnotin].
           ++ split; [right; exact H1 | intros H; apply H2; right; exact H].
        -- intros [[-> | H1] H2]; [left; reflexivity |].
           destruct (decide (c = x)) as [-> | Hne]; [left; reflexivity |].
           right. split; [exact H1 |]. intros [E | H]; [contradiction |].
           contradiction.
Qed.

Lemma distinct_elem (l seen : list jsstring) (c : jsstring) :
  c ∈ distinct seen l -> c ∈ l /\ c ∉ seen.
Proof.
  revert seen. induction l as [| x r IH]; intros seen H.
  - inversion H.
  - cbn [distinct] in H. destruct (decide (x ∈ seen)) as [Hin | Hnotin].
    + apply IH in H as [H1 H2]. split; [right; exact H1 | exact H2].
    + apply elem_of_cons in H as [-> | H].
      * split; [left | exact Hnotin].
      * apply IH in H as [H1 H2]. split; [right; exact H1 |].
        intros H. apply H2. right. exact H.
Qed.

(** The first index of a value in a list, one element further in. *)
Lemma list_find_eq_cons_ne (x c : jsstring) (r : list jsstring) (m : nat) :
  x <> c ->
  list_find (fun y => y = c) r = Some (m, c) ->
  list_find (fun y => y = c) (x :: r) = Some (S m, c).
Proof.
  intros Hne H. cbn [list_find]. destruct (decide (x = c)); [contradiction |].
  rewrite H. reflexivity.
Qed.

Lemma list_find_eq_elem (c : jsstring) (l : list jsstring) :
  c ∈ l -> exists m, list_find (fun y => y = c) l = Some (m, c).
Proof.
  intros H.
  destruct (list_find_elem_of (fun y => y = c) l c H eq_refl) as [[m y] E].
  pose proof E as E'. apply list_find_Some in E' as (_ & -> & _).
  exists m. exact E.
Qed.

(** The entries of the list without duplicates come in the order of
    their first occurrences in the list. *)
Lemma distinct_order (l : list jsstring) :
  forall (seen : list jsstring) (i j : nat) (c d : jsstring),
    (i < j)%nat ->
    distinct seen l !! i = Some c ->
    distinct seen l !! j = Some d ->
    exists m n,
      list_find (fun y => y = c) l = Some (m, c) /\
      list_find (fun y => y = d) l = Some (n, d) /\
      (m < n)%nat.
Proof.
  induction l as [| x r IH]; intros seen i j c d Hij Hc Hd.
  - discriminate.
  - cbn [distinct] in Hc, Hd.
    destruct (decide (x ∈ seen)) as [Hin | Hnotin].
    + assert (Hxc : x <> c).
      { intros ->. apply list_elem_of_lookup_2, distinct_elem in Hc as [_ H].
        contradiction. }
      assert (Hxd : x <> d).
      { intros ->. apply list_elem_of_lookup_2, distinct_elem in Hd as [_ H].
        contradiction. }
      destruct (IH seen i j c d Hij Hc Hd) as (m & n & Hm & Hn & Hlt).
      exists (S m), (S n).
      split; [apply list_find_eq_cons_ne; assumption |].
      split; [apply list_find_eq_cons_ne; assumption | lia].
    + destruct j as [| j]; [lia |]. cbn [lookup list_lookup] in Hd.
      assert (Hxd : x <> d).
      { intros ->. apply list_elem_of_lookup_2, distinct_elem in Hd as [_ H].
        apply H. left. }
      destruct i as [| i].
      * injection Hc as <-.
        pose proof Hd as Hd'.
        apply list_elem_of_lookup_2, distinct_elem in Hd' as [Hdr _].
        destruct (list_find_eq_elem d r Hdr) as [n Hn].
        exists 0%nat, (S n). split.
        -- cbn [list_find]. destruct (decide (x = x)); [reflexivity | contradiction].
        -- split; [apply list_find_eq_cons_ne; assumption | lia].
      * cbn [lookup list_lookup] in Hc.
        assert (Hxc : x <> c).
        { intros ->. apply list_elem_of_lookup_2, distinct_elem in Hc as [_ H].
          apply H. left. }
        destruct (IH (x :: seen) i j c d ltac:(lia) Hc Hd)
          as (m & n & Hm & Hn & Hlt).
        exists (S m), (S n).
        split; [apply list_find_eq_cons_ne; assumption |].
        split; [apply list_find_eq_cons_ne; assumption | lia].
Qed.

Section ProcessMeta.

Variable classifier : jsstring -> option ClassResult.
Variable classifyCategory : jsstring -> jsstring -> ClassResult.
Variable enrich : bool -> Article -> Enrichment.

Local Abbreviation processArticlesWithAI :=
  (processArticlesWithAI classifier classifyCategory enrich).

(** X25. The snapshot a fulfilled run writes carries the fields of the
    raw snapshot and tells which branch produced it.  A run that found
    nothing to classify writes the method cached and no category list;
    a run that classified writes ai-powered or rule-based by the
    loading of the models, and a category list that has no duplicates,
    misses none of the categories of the articles of the snapshot, and
    lists them in the order of their first occurrence: of two entries
    of the category list, the earlier one occurs first in the articles
    of the snapshot at a smaller index than the later one does. *)
Theorem snapshot_metadata (w : ProcessWorld) (disk : Disk)
    (latestData : LatestData) (written : list (Path * FileDoc)) :
  run (processArticlesWithAI w) disk = (Fulfilled latestData, written) ->
  exists rawData,
    rawFile w = Fulfilled rawData /\
    ld_raw latestData = rawData /\
    let todo :=
      finalArticlesToProcess (env w)
        (articlesToProcess (raw_articles rawData)
           (default [] (processedFile w)) (default [] (rejectedFile w))) in
    match ld_categories latestData with
    | None =>
        todo = [] /\ ld_processingMethod latestData = u16 "cached"
    | Some cats =>
        todo <> [] /\
        ld_processingMethod latestData
        = (if modelsLoaded w then u16 "ai-powered" else u16 "rule-based") /\
        NoDup cats /\
        cats `sublist_of` map p_category (ld_articles latestData) /\
        (forall p, p ∈ ld_articles latestData -> p_category p ∈ cats) /\
        (forall (i j : nat) (c d : jsstring),
            (i < j)%nat -> cats !! i = Some c -> cats !! j = Some d ->
            exists m n,
              list_find (fun y => y = c)
                (map p_category (ld_articles latestData)) = Some (m, c) /\
              list_find (fun y => y = d)
                (map p_category (ld_articles latestData)) = Some (n, d) /\
              (m < n)%nat)
    end.
Proof.
  intros Hrun.
  apply processArticlesWithAI_fulfilled_inv in Hrun
    as (rawData & dailyData & Hraw & _ & _ & _ & _ & Hbranch).
  exists rawData. split; [exact Hraw |].
  destruct Hbranch as [(Htodo & -> & _) | (Htodo & -> & _)].
  - split; [reflexivity |]. cbn [cachedLatestData ld_categories].
    split; [exact Htodo | reflexivity].
  - split; [reflexivity |].
    unfold mergedLatestData.
    cbn [ld_categories ld_processingMethod ld_articles].
    split; [exact Htodo |]. split; [reflexivity |].
    match goal with
    | |- context [distinct [] ?l] =>
        destruct (distinct_spec l []) as (Hnd & Hsub & Hel)
    end.
    split; [exact Hnd |]. split; [exact Hsub |].
    split.
    + intros p Hp. apply Hel. split.
      * apply (list_elem_of_fmap_2 p_category), Hp.
      * intros H. inversion H.
    + intros i j c d Hij Hc Hd. eapply distinct_order; eassumption.
Qed.

End ProcessMeta.

(** * Further concrete runs *)

(** ** The crawler *)

Lemma cleanTitle_tidy_witness :
  head (cleanTitle (u16 "[Tag] AI  wins (again) ")) = Some 65 /\
  is_space 65 = false.
Proof.
  split; [vm_compute; reflexivity |].
  destruct (cleanTitle_tidy (u16 "[Tag] AI  wins (again) "))
    as (_ & _ & Hhead & _).
  apply Hhead. vm_compute. reflexivity.
Defined.

Lemma strip_tags_no_tag_witness :
  strip_tags (u16 "a <b>c</b> < d") = u16 "a c " ++ 60 :: u16 " d" /\
  62 ∉ u16 " d".
Proof.
  split; [vm_compute; reflexivity |].
  destruct (strip_tags_no_tag (u16 "a <b>c</b> < d")) as [H _].
  apply (H (u16 "a c ")). vm_compute. reflexivity.
Defined.

Lemma removeDuplicates_idempotent_witness :
  let l := [article_of "id1" "AI wins" "https://a.com/x" (Instant sample_now);
            article_of "id2" "GPT news" "https://b.com/y" (Instant sample_now)] in
  removeDuplicates ascii_toLowerCase l = l.
Proof.
  intros l.
  destruct (removeDuplicates_idempotent ascii_toLowerCase l) as (_ & H & _).
  apply H. apply (bool_decide_unpack _). vm_compute. exact I.
Defined.

Lemma crawlFeed_bounded_witness :
  let src := source_of "Channel" "youtube" in
  let clock := fun _ : nat => frozen_item_clock sample_now in
  let item := item_of "AI wins" "https://a.com/x" (Instant (sample_now - day_ms)) in
  let late := item_of "GPT news" "https://b.com/y" (Instant (sample_now - day_ms)) in
  crawlFeed plain_hostname always_relevant false src
    (Some (replicate 10 item ++ [late])) clock
  = crawlFeed plain_hostname always_relevant false src
      (Some (replicate 10 item)) clock.
Proof.
  intros src clock item late.
  destruct (crawlFeed_bounded plain_hostname always_relevant false src clock)
    as (_ & H & _).
  apply H. vm_compute. lia.
Defined.

Lemma crawlItem_wellformed_witness :
  let src := source_of "Feed" "news" in
  let clk := frozen_item_clock sample_now in
  let item := item_of "[Tag] AI wins" "https://a.com/x"
                (Instant (sample_now - day_ms)) in
  exists a,
    crawlItem plain_hostname always_relevant false src clk item = Some a /\
    title a <> [] /\
    id a = generateId (title a) (url a).
Proof.
  intros src clk item.
  destruct (crawlItem plain_hostname always_relevant false src clk item)
    as [a |] eqn:E; [| vm_compute in E; discriminate].
  exists a. split; [reflexivity |].
  destruct (crawlItem_wellformed plain_hostname always_relevant false src
              clk item a E) as (_ & Hne & _ & _ & _ & Hid & _).
  split; assumption.
Defined.

Lemma crawlSources_isolation_witness :
  let item := item_of "AI wins" "https://a.com/x" (Instant (sample_now - day_ms)) in
  let w := {| aiFilterReady := false;
              sourcesFile := Fulfilled [];
              feedOf := fun k => if (k =? 1)%nat then None else Some [item];
              clockOf := fun _ _ => frozen_item_clock sample_now;
              snapshotNow := sample_now;
              crawl_disk := healthy_disk |} in
  let s := source_of "Feed" "news" in
  crawlSources plain_hostname always_relevant w O [s; s; s] []
  = crawlSources plain_hostname always_relevant w O [s] []
    ++ crawlSources plain_hostname always_relevant w 2 [s] [].
Proof.
  intros item w s.
  destruct (crawlSources_isolation plain_hostname always_relevant w [s; s; s])
    as [_ H].
  apply (H [s] s [s]); reflexivity.
Defined.

(** ** The processing pass *)

Lemma processLoop_splits_witness :
  let a := article_of "a1" "Some title" "https://example.com/a"
             (Instant (sample_now - day_ms)) in
  let e := {| PROCESSING_LIMIT := None;
              PROCESS_CONFIDENCE_THRESHOLD := Some NaN;
              REJECTED_CACHE_CLEANUP_DAYS := None |} in
  let out :=
    processLoop (constant_classifier (1 # 100)) default_rules no_enrichment e
      true (fun _ => sample_now) O [a] ([], []) in
  snd out = [] /\ map p_article (fst out) = [a].
Proof.
  intros a e out.
  destruct (processLoop_splits (constant_classifier (1 # 100)) default_rules
              no_enrichment e true (fun _ => sample_now) [a])
    as (_ & _ & _ & H).
  apply H. reflexivity.
Defined.

Lemma latest_snapshot_sound_witness :
  let a := article_of "a1" "Some title" "https://example.com/a"
             (Instant (sample_now - day_ms)) in
  let w := process_world [a] [] [] default_env sample_now healthy_disk in
  exists latestData written,
    run (processArticlesWithAI (constant_classifier (9 # 10)) default_rules
           no_enrichment w) healthy_disk
    = (Fulfilled latestData, written) /\
    (LatestProcessed, LatestDoc latestData) ∈ written.
Proof.
  intros a w.
  destruct (run (processArticlesWithAI (constant_classifier (9 # 10))
                   default_rules no_enrichment w) healthy_disk)
    as [[latestData | e] written] eqn:E; [| vm_compute in E; discriminate].
  exists latestData, written. split; [reflexivity |].
  destruct (latest_snapshot_sound _ _ _ w healthy_disk latestData written E)
    as (rawData & _ & H & _).
  exact H.
Defined.

Lemma latest_snapshot_accounting_witness :
  let a := article_of "a1" "Some title" "https://example.com/a"
             (Instant (sample_now - day_ms)) in
  let w := process_world [a] [] [] default_env sample_now healthy_disk in
  exists latestData written,
    run (processArticlesWithAI (constant_classifier (9 # 10)) default_rules
           no_enrichment w) healthy_disk
    = (Fulfilled latestData, written) /\
    ld_totalArticles latestData = length (ld_articles latestData) /\
    0 <= cleanedUpCount latestData.
Proof.
  intros a w.
  destruct (run (processArticlesWithAI (constant_classifier (9 # 10))
                   default_rules no_enrichment w) healthy_disk)
    as [[latestData | e] written] eqn:E; [| vm_compute in E; discriminate].
  exists latestData, written. split; [reflexivity |].
  destruct (latest_snapshot_accounting _ _ _ w healthy_disk latestData
              written E) as (H1 & H2 & _).
  split; assumption.
Defined.

Lemma daily_snapshot_of_latest_witness :
  let a := article_of "a1" "Some title" "https://example.com/a"
             (Instant (sample_now - day_ms)) in
  let w := process_world [a] [] [] default_env sample_now healthy_disk in
  exists latestData written dailyData,
    run (processArticlesWithAI (constant_classifier (9 # 10)) default_rules
           no_enrichment w) healthy_disk
    = (Fulfilled latestData, written) /\
    (DailyProcessed (utcDay sample_now), DailyDoc dailyData) ∈ written /\
    dd_articles dailyData `sublist_of` ld_articles latestData.
Proof.
  intros a w.
  destruct (run (processArticlesWithAI (constant_classifier (9 # 10))
                   default_rules no_enrichment w) healthy_disk)
    as [[latestData | e] written] eqn:E; [| vm_compute in E; discriminate].
  destruct (daily_snapshot_of_latest _ _ _ w healthy_disk latestData
              written E) as (_ & dailyData & H1 & _ & H2 & _).
  exists latestData, written, dailyData.
  split; [reflexivity |]. split; assumption.
Defined.

Lemma rejected_cache_update_witness :
  let a := article_of "a1" "Some title" "https://example.com/a"
             (Instant (sample_now - day_ms)) in
  let w := process_world [a] [] [] default_env sample_now healthy_disk in
  exists latestData written doc,
    run (processArticlesWithAI (constant_classifier (20 # 100)) default_rules
           no_enrichment w) healthy_disk
    = (Fulfilled latestData, written) /\
    (RejectedCache, doc) ∈ written.
Proof.
  intros a w.
  destruct (run (processArticlesWithAI (constant_classifier (20 # 100))
                   default_rules no_enrichment w) healthy_disk)
    as [[latestData | e] written] eqn:E; [| vm_compute in E; discriminate].
  destruct (rejected_cache_update _ _ _ w healthy_disk latestData written E)
    as (rawData & Hraw & Hiff & _).
  injection Hraw as <-.
  destruct (proj2 Hiff) as [doc Hdoc].
  { intros X. vm_compute in X. discriminate X. }
  exists latestData, written, doc. split; [reflexivity | exact Hdoc].
Defined.

Lemma reclassified_next_run_witness :
  let a := article_of "a1" "Some title" "https://example.com/a"
             (Instant (sample_now - day_ms)) in
  let w := process_world [a] [] [] default_env sample_now healthy_disk in
  exists latestData written,
    run (processArticlesWithAI (constant_classifier (9 # 10)) default_rules
           no_enrichment w) healthy_disk
    = (Fulfilled latestData, written) /\
    a ∉ articlesToProcess [a] (ld_articles latestData) [].
Proof.
  intros a w.
  destruct (run (processArticlesWithAI (constant_classifier (9 # 10))
                   default_rules no_enrichment w) healthy_disk)
    as [[latestData | e] written] eqn:E; [| vm_compute in E; discriminate].
  exists latestData, written. split; [reflexivity |].
  assert (Hnone : forall doc, (RejectedCache, doc) ∉ written).
  { pose proof E as E'. vm_compute in E'. injection E' as _ <-.
    intros doc H.
    repeat (apply elem_of_cons in H as [H | H]; [discriminate H |]).
    inversion H. }
  pose proof (reclassified_next_run (constant_classifier (9 # 10))
                default_rules no_enrichment w healthy_disk latestData written
                (raw_snapshot sample_now [a]) [] O a E eq_refl
                ltac:(apply (bool_decide_unpack _); vm_compute; exact I)
                ltac:(intros rd Hrd; destruct (Hnone _ Hrd))
                ltac:(intros _; reflexivity)
                ltac:(vm_compute; reflexivity)) as H.
  intros Hin. apply H in Hin. vm_compute in Hin. discriminate Hin.
Defined.

(** ** The rules *)

Lemma rule_based_threshold_witness :
  let a := article_of "a1" "Some title" "https://example.com/a"
             (Instant (sample_now - day_ms)) in
  let out :=
    processLoop (constant_classifier (1 # 100))
      (classifyCategory ascii_toLowerCase) no_enrichment default_env false
      (fun _ => sample_now) O [a] ([], []) in
  snd out = [] /\ map p_article (fst out) = [a].
Proof.
  intros a out.
  destruct (rule_based_threshold ascii_toLowerCase (constant_classifier (1 # 100))
              no_enrichment default_env (fun _ => sample_now) [a]) as [H _].
  apply H. vm_compute. reflexivity.
Defined.

(** ** The relevance filter *)

Lemma keyword_crawl_relevance_witness :
  let filter := itemRelevant ascii_toLowerCase None None in
  let feed :=
    [item_of "AI wins" "https://a.com/x" (Instant (sample_now - day_ms));
     item_of "AI in football" "https://b.com/y" (Instant (sample_now - day_ms))] in
  let w := crawl_world [source_of "Feed" "news"] feed sample_now healthy_disk in
  exists articles written,
    run (crawlAllSources plain_hostname ascii_toLowerCase filter w) healthy_disk
    = (Fulfilled articles, written) /\
    map title articles = [u16 "AI wins"] /\
    Forall (fun a => some_included excludeTerms (ascii_toLowerCase (title a))
                     = false) articles.
Proof.
  intros filter feed w.
  destruct (run (crawlAllSources plain_hostname ascii_toLowerCase filter w)
              healthy_disk) as [[articles | e] written] eqn:E;
    [| vm_compute in E; discriminate].
  exists articles, written. split; [reflexivity |]. split.
  - pose proof E as E'. vm_compute in E'. injection E' as <- _.
    vm_compute. reflexivity.
  - pose proof (keyword_crawl_relevance plain_hostname ascii_toLowerCase None
                  None w healthy_disk articles written eq_refl E) as H.
    eapply Forall_impl; [exact H |]. intros x [Hx _]. exact Hx.
Defined.

Lemma excluded_terms_only_without_classifier_witness :
  let failing := Some (fun (_ : jsstring) (_ : list jsstring) =>
                         @None ClassifierOutput) in
  let s := source_of "OpenAI Blog" "news" in
  itemRelevant ascii_toLowerCase None None false s (u16 "AI in sports") []
  = false /\
  itemRelevant ascii_toLowerCase failing None true s (u16 "AI in sports") []
  = true.
Proof.
  intros failing s. split.
  - destruct (excluded_terms_only_without_classifier ascii_toLowerCase None
                None s (u16 "AI in sports") []) as [H _];
      [vm_compute; reflexivity .. | exact H].
  - destruct (excluded_terms_only_without_classifier ascii_toLowerCase failing
                None s (u16 "AI in sports") []) as [_ H];
      [vm_compute; reflexivity .. | apply H; reflexivity].
Defined.

Lemma keyword_inside_a_word_witness :
  itemRelevant ascii_toLowerCase None None false (source_of "Feed" "news")
    (u16 "Rain in Spain") []
  = true.
Proof.
  destruct (keyword_inside_a_word ascii_toLowerCase None None
              (source_of "Feed" "news") (u16 "Rain in Spain") []
              (u16 "r") (u16 "n in spain")) as [_ H];
    [vm_compute; reflexivity |].
  rewrite H. vm_compute. reflexivity.
Defined.

Lemma ai_filter_decision_witness :
  let answer :=
    Some (fun (_ : jsstring) (_ : list jsstring) =>
            Some {| out_labels := [];
                    out_scores := [Num (8 # 10); Num (1 # 10); Num (1 # 10)] |}) in
  exists a b c t,
    (b < a)%Q /\ (c < a)%Q /\ (t <= a)%Q /\
    categorizationThreshold None = Num t /\
    [Num a; Num b; Num c] = [Num (8 # 10); Num (1 # 10); Num (1 # 10)] /\
    itemRelevant ascii_toLowerCase answer None true (source_of "Feed" "news")
      (u16 "Weather report") []
    = true.
Proof.
  intros answer.
  assert (Hrel : itemRelevant ascii_toLowerCase answer None true
                   (source_of "Feed" "news") (u16 "Weather report") [] = true)
    by (vm_compute; reflexivity).
  destruct (ai_filter_decision ascii_toLowerCase answer None
              (source_of "Feed" "news") (u16 "Weather report") [] Hrel)
    as [[Hnone _] | (classify & r & a & b & c & t & Hc & Hb & _ & H0 & H1 &
                     H2 & Ht & Hba & Hca & Hta)].
  - vm_compute in Hnone. discriminate Hnone.
  - injection Hc as <-. injection Hb as <-.
    exists a, b, c, t.
    split; [exact Hba |]. split; [exact Hca |]. split; [exact Hta |].
    split; [exact Ht |].
    split; [| exact Hrel].
    change (score 0 _) with (Num (8 # 10)) in H0.
    change (score 1 _) with (Num (1 # 10)) in H1.
    change (score 2 _) with (Num (1 # 10)) in H2.
    rewrite <- H0, <- H1, <- H2. reflexivity.
Defined.

(** ** The metadata *)

Lemma snapshot_metadata_witness :
  let a := article_of "a1" "Some title" "https://example.com/a"
             (Instant (sample_now - day_ms)) in
  let b := article_of "b2" "Paper one" "https://example.com/b"
             (Instant (sample_now - 2 * day_ms)) in
  let c := article_of "c3" "Other title" "https://example.com/c"
             (Instant (sample_now - 3 * day_ms)) in
  let w := process_world [a; b; c] [] [] default_env sample_now healthy_disk in
  exists latestData written,
    run (processArticlesWithAI (paper_classifier (9 # 10)) default_rules
           no_enrichment w) healthy_disk
    = (Fulfilled latestData, written) /\
    ld_raw latestData = raw_snapshot sample_now [a; b; c] /\
    map p_category (ld_articles latestData)
    = map u16 ["industry-news"; "research-paper"; "industry-news"]%string /\
    ld_categories latestData
    = Some (map u16 ["industry-news"; "research-paper"]%string).
Proof.
  intros a b c w.
  destruct (run (processArticlesWithAI (paper_classifier (9 # 10))
                   default_rules no_enrichment w) healthy_disk)
    as [[latestData | e] written] eqn:E; [| vm_compute in E; discriminate].
  exists latestData, written. split; [reflexivity |].
  destruct (snapshot_metadata _ _ _ w healthy_disk latestData written E)
    as (rawData & Hraw & Hld & _).
  injection Hraw as <-. split; [exact Hld |].
  vm_compute in E. injection E as <- _. split; reflexivity.
Defined.

(** * The grouped crawler *)

Section GroupedFeed.

Variable url_hostname : jsstring -> option jsstring.

Local Abbreviation crawlItem := (Grouped.crawlItem url_hostname).
Local Abbreviation crawlItems := (Grouped.crawlItems url_hostname).
Local Abbreviation crawlFeed_loop := (Grouped.crawlFeed_loop url_hostname).
Local Abbreviation crawlFeed := (Grouped.crawlFeed url_hostname).

(** What one turn of the item loop does to the counters, and what the
    article it pushes looks like. *)
Lemma grouped_crawlItem_cases (s : Source) (clk : ItemClock)
    (item : Grouped.Item) (stats : Grouped.Stats) :
  Grouped.failed (snd (crawlItem s clk item stats)) = Grouped.failed stats /\
  match fst (crawlItem s clk item stats) with
  | Some a =>
      Grouped.totalProcessed (snd (crawlItem s clk item stats))
      = S (Grouped.totalProcessed stats) /\
      Grouped.filtered (snd (crawlItem s clk item stats))
      = Grouped.filtered stats /\
      title (Grouped.article a) <> [] /\
      url (Grouped.article a) <> [] /\
      id (Grouped.article a)
      = generateId (title (Grouped.article a)) (url (Grouped.article a)) /\
      source (Grouped.article a) = name s /\
      Grouped.author a
      = default [] (or_str (Grouped.item_author item) (Some [])) /\
      exists t,
        pubDate (Grouped.article a) = Instant t /\
        t <= now clk /\
        (forall cutoff,
            Date_of_number (cutoffNow clk - 15 * day_ms) = Some cutoff ->
            cutoff <= t)
  | None =>
      (Grouped.totalProcessed (snd (crawlItem s clk item stats))
       = Grouped.totalProcessed stats /\
       Grouped.filtered (snd (crawlItem s clk item stats))
       = Grouped.filtered stats) \/
      (Grouped.totalProcessed (snd (crawlItem s clk item stats))
       = S (Grouped.totalProcessed stats) /\
       Grouped.filtered (snd (crawlItem s clk item stats))
       <= S (Grouped.filtered stats) /\
       Grouped.filtered stats
       <= Grouped.filtered (snd (crawlItem s clk item stats)))%nat
  end.
Proof.
  unfold crawlItem.
  destruct (cleanTitle _) as [| c ct] eqn:Etitle;
    [cbn; split; [reflexivity | left; split; reflexivity] |].
  destruct (or_str (link (Grouped.entry item)) (guid (Grouped.entry item)))
    as [[| u ut] |] eqn:Eurl;
    try (cbn; split; [reflexivity | left; split; reflexivity]).
  cbn [truthy_str negb orb default].
  destruct (itemDate clk (Grouped.entry item)) as [parsed |];
    [| cbn; split; [reflexivity | right; lia]].
  cbv zeta.
  destruct (date_lt _ _) eqn:Elt;
    [cbn; split; [reflexivity | right; lia] |].
  cbn [fst snd Grouped.failed Grouped.totalProcessed Grouped.filtered
       Grouped.article Grouped.author title url id source pubDate].
  split; [reflexivity |]. split; [reflexivity |]. split; [reflexivity |].
  split; [discriminate |]. split; [discriminate |].
  split; [reflexivity |]. split; [reflexivity |]. split; [reflexivity |].
  eexists. split; [reflexivity |]. split.
  - destruct (now clk <? parsed) eqn:E; [lia |].
    apply Z.ltb_ge in E. exact E.
  - intros cutoff Hc. unfold Grouped.daysBack in Elt. rewrite Hc in Elt.
    unfold date_lt, date_gt in Elt. apply Z.ltb_ge in Elt. exact Elt.
Qed.

Lemma grouped_crawlItems_inv (s : Source) (clock : nat -> ItemClock)
    (items : list Grouped.Item) :
  forall (i : nat) (articles : list Grouped.AuthoredArticle)
         (stats : Grouped.Stats),
  exists new,
    fst (crawlItems s clock i items articles stats) = articles ++ new /\
    Grouped.failed (snd (crawlItems s clock i items articles stats))
    = Grouped.failed stats /\
    (Grouped.totalProcessed stats
     <= Grouped.totalProcessed (snd (crawlItems s clock i items articles stats)))%nat /\
    (Grouped.filtered stats
     <= Grouped.filtered (snd (crawlItems s clock i items articles stats)))%nat /\
    (Grouped.totalProcessed (snd (crawlItems s clock i items articles stats))
     - Grouped.totalProcessed stats <= length items)%nat /\
    (length new
     + (Grouped.filtered (snd (crawlItems s clock i items articles stats))
        - Grouped.filtered stats)
     <= Grouped.totalProcessed (snd (crawlItems s clock i items articles stats))
        - Grouped.totalProcessed stats)%nat /\
    Forall (fun a => exists k, (k < length items)%nat /\
                               grouped_wellformed s (clock (i + k)%nat) a) new.
Proof.
  induction items as [| item rest IH]; intros i articles stats.
  - exists []. cbn. rewrite app_nil_r.
    repeat split; try reflexivity; try lia. constructor.
  - cbn [Grouped.crawlItems].
    pose proof (grouped_crawlItem_cases s (clock i) item stats) as [Hf Hc].
    destruct (crawlItem s (clock i) item stats) as [[a |] stats1].
    + cbn [fst snd] in Hf, Hc.
      destruct Hc as (Hp & Hfl & Ht & Hu & Hid & Hs & _ & Hd).
      destruct (IH (S i) (articles ++ [a]) stats1)
        as (new & Heq & Hfail & Hp' & Hfl' & Hpn & Hacc & Hwf).
      exists (a :: new).
      split; [rewrite Heq, <- app_assoc; reflexivity |].
      split; [congruence |].
      cbn [length]. repeat split; try lia.
      constructor.
      * exists O. split; [lia |]. rewrite Nat.add_0_r.
        repeat split; assumption.
      * eapply Forall_impl; [exact Hwf |].
        intros x (k & Hk & Hx). exists (S k). split; [lia |].
        rewrite Nat.add_succ_r. exact Hx.
    + cbn [fst snd] in Hf, Hc.
      destruct (IH (S i) articles stats1)
        as (new & Heq & Hfail & Hp' & Hfl' & Hpn & Hacc & Hwf).
      exists new. split; [exact Heq |]. split; [congruence |].
      cbn [length].
      assert (Hwf' : Forall (fun a => exists k, (k < S (length rest))%nat /\
                               grouped_wellformed s (clock (i + k)%nat) a) new).
      { eapply Forall_impl; [exact Hwf |].
        intros x (k & Hk & Hx). exists (S k). split; [lia |].
        rewrite Nat.add_succ_r. exact Hx. }
      destruct Hc as [[Hp Hfl] | (Hp & Hfl1 & Hfl2)];
        repeat split; try lia; exact Hwf'.
Qed.

(** Counting the [true]s of a list of booleans. *)
Lemma count_true_cons (b : bool) (l : list bool) :
  length (filter (fun x : bool => x = true) (b :: l))
  = ((if b then 1 else 0) + length (filter (fun x : bool => x = true) l))%nat.
Proof.
  rewrite filter_cons. destruct b.
  - destruct (decide (true = true)); [reflexivity | contradiction].
  - destruct (decide (false = true)); [discriminate | reflexivity].
Qed.

(** What one turn of the item loop adds to each counter and to the
    articles, by the entry alone. *)
Lemma grouped_crawlItem_counts (s : Source) (clk : ItemClock)
    (item : Grouped.Item) (stats : Grouped.Stats) :
  let counted :=
    truthy_str (Some (cleanTitle
                        (default [] (or_str (item_title (Grouped.entry item))
                                       (Some [])))))
    && truthy_str (or_str (link (Grouped.entry item))
                     (guid (Grouped.entry item))) in
  let old :=
    match itemDate clk (Grouped.entry item) with
    | Some parsed =>
        date_lt (Some (Z.min parsed (now clk)))
          (Date_of_number (cutoffNow clk - 15 * day_ms))
    | None => false
    end in
  let fresh :=
    match itemDate clk (Grouped.entry item) with
    | Some parsed =>
        negb (date_lt (Some (Z.min parsed (now clk)))
                (Date_of_number (cutoffNow clk - 15 * day_ms)))
    | None => false
    end in
  Grouped.totalProcessed (snd (crawlItem s clk item stats))
  = (Grouped.totalProcessed stats + (if counted then 1 else 0))%nat /\
  Grouped.filtered (snd (crawlItem s clk item stats))
  = (Grouped.filtered stats + (if counted && old then 1 else 0))%nat /\
  length (option_list (fst (crawlItem s clk item stats)))
  = (if counted && fresh then 1 else 0)%nat.
Proof.
  intros counted old fresh. subst counted old fresh.
  unfold crawlItem.
  destruct (truthy_str (Some (cleanTitle _))) eqn:Et;
    [| cbn; repeat split; lia].
  destruct (truthy_str (or_str _ _)) eqn:Eu; [| cbn; repeat split; lia].
  cbn [negb orb andb].
  destruct (itemDate clk (Grouped.entry item)) as [parsed |];
    [| cbn; repeat split; lia].
  cbv zeta.
  replace (if now clk <? parsed then now clk else parsed)
    with (Z.min parsed (now clk))
    by (destruct (now clk <? parsed) eqn:E;
        [apply Z.ltb_lt in E | apply Z.ltb_ge in E]; lia).
  unfold Grouped.daysBack.
  destruct (date_lt _ _); cbn; repeat split; lia.
Qed.

(** The counters and the articles after the items of an attempt. *)
Lemma grouped_crawlItems_counts (s : Source) (clock : nat -> ItemClock)
    (items : list Grouped.Item) :
  forall (i : nat) (articles : list Grouped.AuthoredArticle)
         (stats : Grouped.Stats),
  let counted := fun item : Grouped.Item =>
    truthy_str (Some (cleanTitle
                        (default [] (or_str (item_title (Grouped.entry item))
                                       (Some [])))))
    && truthy_str (or_str (link (Grouped.entry item))
                     (guid (Grouped.entry item))) in
  let old := fun (k : nat) (item : Grouped.Item) =>
    match itemDate (clock (i + k)%nat) (Grouped.entry item) with
    | Some parsed =>
        date_lt (Some (Z.min parsed (now (clock (i + k)%nat))))
          (Date_of_number (cutoffNow (clock (i + k)%nat) - 15 * day_ms))
    | None => false
    end in
  let fresh := fun (k : nat) (item : Grouped.Item) =>
    match itemDate (clock (i + k)%nat) (Grouped.entry item) with
    | Some parsed =>
        negb (date_lt (Some (Z.min parsed (now (clock (i + k)%nat))))
                (Date_of_number (cutoffNow (clock (i + k)%nat) - 15 * day_ms)))
    | None => false
    end in
  let out := crawlItems s clock i items articles stats in
  Grouped.totalProcessed (snd out)
  = (Grouped.totalProcessed stats
     + length (filter (fun x : bool => x = true) (map counted items)))%nat /\
  Grouped.filtered (snd out)
  = (Grouped.filtered stats
     + length (filter (fun x : bool => x = true)
                 (imap (fun k item => counted item && old k item) items)))%nat /\
  length (fst out)
  = (length articles
     + length (filter (fun x : bool => x = true)
                 (imap (fun k item => counted item && fresh k item) items)))%nat.
Proof.
  induction items as [| item rest IH]; intros i articles stats.
  - cbn. repeat split; lia.
  - cbv beta zeta. cbn [Grouped.crawlItems map imap].
    rewrite !count_true_cons.
    pose proof (grouped_crawlItem_counts s (clock i) item stats)
      as (Hp & Hf & Ha).
    cbv beta zeta in Hp, Hf, Ha.
    specialize (IH (S i)). cbv beta zeta in IH.
    rewrite (Nat.add_0_r i).
    assert (Hold : forall c : Grouped.Item -> bool,
               imap ((fun k item =>
                        c item &&
                        match itemDate (clock (i + k)%nat) (Grouped.entry item) with
                        | Some parsed =>
                            date_lt (Some (Z.min parsed (now (clock (i + k)%nat))))
                              (Date_of_number
                                 (cutoffNow (clock (i + k)%nat) - 15 * day_ms))
                        | None => false
                        end) ∘ S) rest
               = imap (fun k item =>
                         c item &&
                         match itemDate (clock (S i + k)%nat) (Grouped.entry item) with
                         | Some parsed =>
                             date_lt (Some (Z.min parsed (now (clock (S i + k)%nat))))
                               (Date_of_number
                                  (cutoffNow (clock (S i + k)%nat) - 15 * day_ms))
                         | None => false
                         end) rest).
    { intros c. apply imap_ext. intros k x _. unfold compose.
      rewrite Nat.add_succ_r. reflexivity. }
    assert (Hfresh : forall c : Grouped.Item -> bool,
               imap ((fun k item =>
                        c item &&
                        match itemDate (clock (i + k)%nat) (Grouped.entry item) with
                        | Some parsed =>
                            negb (date_lt (Some (Z.min parsed (now (clock (i + k)%nat))))
                              (Date_of_number
                                 (cutoffNow (clock (i + k)%nat) - 15 * day_ms)))
                        | None => false
                        end) ∘ S) rest
               = imap (fun k item =>
                         c item &&
                         match itemDate (clock (S i + k)%nat) (Grouped.entry item) with
                         | Some parsed =>
                             negb (date_lt (Some (Z.min parsed (now (clock (S i + k)%nat))))
                               (Date_of_number
                                  (cutoffNow (clock (S i + k)%nat) - 15 * day_ms)))
                         | None => false
                         end) rest).
    { intros c. apply imap_ext. intros k x _. unfold compose.
      rewrite Nat.add_succ_r. reflexivity. }
    rewrite Hold, Hfresh.
    destruct (crawlItem s (clock i) item stats) as [[a |] stats1];
      cbn [fst snd] in Hp, Hf, Ha; unfold option_list, option_rect in Ha;
      cbn [length] in Ha.
    + destruct (IH (articles ++ [a]) stats1) as (IHp & IHf & IHa).
      rewrite IHp, IHf, IHa, Hp, Hf, length_app. cbn [length].
      repeat split; lia.
    + destruct (IH articles stats1) as (IHp & IHf & IHa).
      rewrite IHp, IHf, IHa, Hp, Hf.
      repeat split; lia.
Qed.

(** X26. A feed is tried at most three times.  The call always returns
    articles (it never rejects and never ends without a value): those
    of the first attempt that does not throw, made with the counters as
    they were, or none when the three attempts throw; what a fourth
    attempt would get plays no part.  It returns at most two articles
    and never touches the counter of failures. *)
Theorem grouped_crawlFeed_retries (s : Source)
    (feed : nat -> option (list Grouped.Item))
    (clock : nat -> nat -> ItemClock) (stats : Grouped.Stats) :
  exists articles stats',
    crawlFeed s feed clock stats
    = Fulfilled (Grouped.Returned articles stats') /\
    (length articles <= 2)%nat /\
    Grouped.failed stats' = Grouped.failed stats /\
    (forall r feed_items,
        (r <= 2)%nat ->
        feed r = Some feed_items ->
        (forall r', (r' < r)%nat -> feed r' = None) ->
        (articles, stats')
        = crawlItems s (clock r) O (take 2 feed_items) [] stats) /\
    ((forall r, (r <= 2)%nat -> feed r = None) ->
     articles = [] /\ stats' = stats).
Proof.
  assert (Hattempt : forall r feed_items,
             exists articles stats',
               crawlItems s (clock r) O (take Grouped.itemLimit feed_items) []
                 stats = (articles, stats') /\
               (length articles <= 2)%nat /\
               Grouped.failed stats' = Grouped.failed stats).
  { intros r feed_items.
    destruct (grouped_crawlItems_inv s (clock r)
                (take Grouped.itemLimit feed_items) O [] stats)
      as (new & Heq & Hfail & _ & _ & Hpn & Hacc & _).
    destruct (crawlItems s (clock r) O (take Grouped.itemLimit feed_items) []
                stats) as [articles stats'] eqn:E.
    cbn [fst snd app] in *. subst new.
    exists articles, stats'. split; [reflexivity |]. split; [| exact Hfail].
    rewrite length_take in Hpn. unfold Grouped.itemLimit in Hpn. lia. }
  unfold crawlFeed, Grouped.maxRetries. cbn [Grouped.crawlFeed_loop].
  destruct (feed 0%nat) as [items0 |] eqn:E0.
  { destruct (Hattempt 0%nat items0) as (articles & stats' & Heq & Hlen & Hfail).
    rewrite Heq. exists articles, stats'.
    split; [reflexivity |]. split; [exact Hlen |]. split; [exact Hfail |].
    split.
    - intros r feed_items Hr Hsome Hnone.
      destruct r as [| r]; [| rewrite (Hnone 0%nat) in E0 by lia; discriminate].
      rewrite E0 in Hsome. injection Hsome as <-. symmetry. exact Heq.
    - intros Hall. rewrite (Hall 0%nat) in E0 by lia. discriminate. }
  cbn [Nat.leb].
  destruct (feed 1%nat) as [items1 |] eqn:E1.
  { destruct (Hattempt 1%nat items1) as (articles & stats' & Heq & Hlen & Hfail).
    rewrite Heq. exists articles, stats'.
    split; [reflexivity |]. split; [exact Hlen |]. split; [exact Hfail |].
    split.
    - intros r feed_items Hr Hsome Hnone.
      destruct r as [| [| r]].
      + rewrite E0 in Hsome. discriminate.
      + rewrite E1 in Hsome. injection Hsome as <-. symmetry. exact Heq.
      + rewrite (Hnone 1%nat) in E1 by lia. discriminate.
    - intros Hall. rewrite (Hall 1%nat) in E1 by lia. discriminate. }
  cbn [Nat.leb].
  destruct (feed 2%nat) as [items2 |] eqn:E2.
  { destruct (Hattempt 2%nat items2) as (articles & stats' & Heq & Hlen & Hfail).
    rewrite Heq. exists articles, stats'.
    split; [reflexivity |]. split; [exact Hlen |]. split; [exact Hfail |].
    split.
    - intros r feed_items Hr Hsome Hnone.
      destruct r as [| [| [| r]]].
      + rewrite E0 in Hsome. discriminate.
      + rewrite E1 in Hsome. discriminate.
      + rewrite E2 in Hsome. injection Hsome as <-. symmetry. exact Heq.
      + lia.
    - intros Hall. rewrite (Hall 2%nat) in E2 by lia. discriminate. }
  cbn [Nat.leb].
  exists [], stats. split; [reflexivity |]. split; [cbn; lia |].
  split; [reflexivity |]. split.
  - intros r feed_items Hr Hsome Hnone.
    destruct r as [| [| [| r]]]; [congruence | congruence | congruence | lia].
  - intros _. split; reflexivity.
Qed.

(** X27. The items of an attempt are accounted for.  The entries
    counted as processed are exactly the entries that have a title
    (after cleaning) and a url: the counter grows by their number.  Of
    these, the entries whose date can be read and, lowered to the clock
    when it lies after it, is before the cut-off fifteen days back are
    exactly the entries counted as filtered, and the entries whose date
    can be read and is not before the cut-off are exactly the entries
    pushed as articles; an entry whose date cannot be read is counted
    as processed only.  So the articles pushed and the entries counted
    as filtered are never more than the entries processed; the counter
    of failures is untouched.  Every article pushed has a non-empty
    title and url, the id of that title and url, the name of its
    source, and a date that is at most the clock and not before the
    cut-off fifteen days back. *)
Theorem grouped_crawlItems_accounting (s : Source) (clock : nat -> ItemClock)
    (items : list Grouped.Item) (stats : Grouped.Stats) :
  let out := crawlItems s clock O items [] stats in
  let counted := fun item : Grouped.Item =>
    truthy_str (Some (cleanTitle
                        (default [] (or_str (item_title (Grouped.entry item))
                                       (Some [])))))
    && truthy_str (or_str (link (Grouped.entry item))
                     (guid (Grouped.entry item))) in
  let old := fun (k : nat) (item : Grouped.Item) =>
    match itemDate (clock k) (Grouped.entry item) with
    | Some parsed =>
        date_lt (Some (Z.min parsed (now (clock k))))
          (Date_of_number (cutoffNow (clock k) - 15 * day_ms))
    | None => false
    end in
  let fresh := fun (k : nat) (item : Grouped.Item) =>
    match itemDate (clock k) (Grouped.entry item) with
    | Some parsed =>
        negb (date_lt (Some (Z.min parsed (now (clock k))))
                (Date_of_number (cutoffNow (clock k) - 15 * day_ms)))
    | None => false
    end in
  (Grouped.totalProcessed stats <= Grouped.totalProcessed (snd out))%nat /\
  (Grouped.totalProcessed (snd out) - Grouped.totalProcessed stats
   <= length items)%nat /\
  (Grouped.filtered stats <= Grouped.filtered (snd out))%nat /\
  (length (fst out)
   + (Grouped.filtered (snd out) - Grouped.filtered stats)
   <= Grouped.totalProcessed (snd out) - Grouped.totalProcessed stats)%nat /\
  Grouped.failed (snd out) = Grouped.failed stats /\
  Forall (fun a => exists k, (k < length items)%nat /\
                             grouped_wellformed s (clock k) a) (fst out) /\
  Grouped.totalProcessed (snd out)
  = (Grouped.totalProcessed stats
     + length (filter (fun x : bool => x = true) (map counted items)))%nat /\
  Grouped.filtered (snd out)
  = (Grouped.filtered stats
     + length (filter (fun x : bool => x = true)
                 (imap (fun k item => counted item && old k item) items)))%nat /\
  length (fst out)
  = length (filter (fun x : bool => x = true)
              (imap (fun k item => counted item && fresh k item) items)).
Proof.
  intros out counted old fresh. subst out counted old fresh.
  destruct (grouped_crawlItems_inv s clock items O [] stats)
    as (new & Heq & Hfail & Hp & Hfl & Hpn & Hacc & Hwf).
  pose proof (grouped_crawlItems_counts s clock items O [] stats)
    as (Hcp & Hcf & Hca).
  cbv beta zeta in Hcp, Hcf, Hca. cbn [Nat.add length] in Hcp, Hcf, Hca.
  cbn [app] in Heq. rewrite Heq in *.
  repeat split; assumption.
Qed.

End GroupedFeed.

(** ** The groups *)

Lemma own_entries_indexed {V : Type} (o : list (jsstring * V)) :
  map snd (omap (fun e => (fun n => (n, e)) <$> array_index (fst e)) o)
  = List.filter (fun e => bool_decide (is_Some (array_index (fst e)))) o.
Proof.
  induction o as [| e o IH]; [reflexivity |].
  cbn [omap list_omap List.filter].
  destruct (array_index (fst e)) as [n |] eqn:E.
  - rewrite bool_decide_eq_true_2 by eauto. cbn. f_equal. exact IH.
  - rewrite bool_decide_eq_false_2 by (intros [x Hx]; discriminate).
    cbn. exact IH.
Qed.

Lemma filter_partition_perm {A : Type} (f : A -> bool) (l : list A) :
  List.filter f l ++ List.filter (fun x => negb (f x)) l ≡ₚ l.
Proof.
  induction l as [| x l IH]; [reflexivity |].
  cbn [List.filter]. destruct (f x); cbn [negb].
  - cbn. rewrite IH. reflexivity.
  - rewrite <- Permutation_middle. rewrite IH. reflexivity.
Qed.

(** [Object.entries] lists every own property once. *)
Lemma own_entries_perm {V : Type} (o : list (jsstring * V)) :
  own_entries o ≡ₚ o.
Proof.
  unfold own_entries.
  rewrite (js_sort_perm _ (omap _ o)), own_entries_indexed.
  apply filter_partition_perm.
Qed.

(** Without array indices among the names, it lists them in the order
    of their creation. *)
Lemma own_entries_named {V : Type} (o : list (jsstring * V)) :
  Forall (fun e => array_index (fst e) = None) o -> own_entries o = o.
Proof.
  intros H. unfold own_entries.
  assert (H1 : omap (fun e : jsstring * V =>
                       (fun n => (n, e)) <$> array_index (fst e)) o = []).
  { induction H as [| e o He _ IH]; [reflexivity |].
    cbn [omap list_omap]. rewrite He. exact IH. }
  rewrite H1. clear H1. cbn.
  induction H as [| e o He _ IH]; [reflexivity |].
  cbn [List.filter]. rewrite He.
  rewrite bool_decide_eq_false_2 by (intros [x Hx]; discriminate).
  cbn. f_equal. exact IH.
Qed.

Lemma obj_lookup_last {V : Type} (key : jsstring) (v : V)
    (o : list (jsstring * V)) :
  key ∉ map fst o ->
  obj_lookup key (o ++ [(key, v)]) = Some v /\
  obj_lookup key o = None /\
  (forall x, obj_set key x (o ++ [(key, v)]) = o ++ [(key, x)]) /\
  (forall x, obj_set key x o = o ++ [(key, x)]).
Proof.
  induction o as [| [k y] o IH]; intros Hnot.
  - cbn. rewrite bool_decide_eq_true_2 by reflexivity.
    repeat split; reflexivity.
  - cbn [map fst] in Hnot. apply not_elem_of_cons in Hnot as [Hne Hnot].
    destruct (IH Hnot) as (H1 & H2 & H3 & H4).
    cbn [app obj_lookup obj_set].
    rewrite bool_decide_eq_false_2 by congruence.
    split; [exact H1 |]. split; [exact H2 |].
    split; intros x; [rewrite H3 | rewrite H4]; reflexivity.
Qed.

Lemma grouped_loadSources_cons (name : jsstring)
    (array : option (list Source))
    (sourcesJson : list (jsstring * option (list Source))) :
  Grouped.loadSources ((name, array) :: sourcesJson)
  = map (fun s => {| Grouped.tagged := s; Grouped.sourceIdentifier := name |})
      (default [] array)
    ++ Grouped.loadSources sourcesJson.
Proof.
  unfold Grouped.loadSources. cbn [fold_left].
  assert (Hacc : forall l acc,
            fold_left
              (fun allSources '(sourceName, sourceArray) =>
                 match sourceArray with
                 | Some sourceArray =>
                     allSources
                     ++ map (fun source =>
                               {| Grouped.tagged := source;
                                  Grouped.sourceIdentifier := sourceName |})
                          sourceArray
                 | None => allSources
                 end) l acc
            = acc ++ fold_left
                (fun allSources '(sourceName, sourceArray) =>
                   match sourceArray with
                   | Some sourceArray =>
                       allSources
                       ++ map (fun source =>
                                 {| Grouped.tagged := source;
                                    Grouped.sourceIdentifier := sourceName |})
                            sourceArray
                   | None => allSources
                   end) l []).
  { induction l as [| [n a] l IH]; intros acc.
    - cbn. rewrite app_nil_r. reflexivity.
    - cbn [fold_left]. rewrite IH. rewrite (IH (match a with
                                                 | Some _ => _
                                                 | None => _
                                                 end)).
      destruct a; cbn [app]; rewrite ?app_assoc; reflexivity. }
  rewrite Hacc. destruct array; cbn; reflexivity.
Qed.

Section GroupedSources.

Variable inherited : jsstring -> bool.

Local Abbreviation groupStep := (Grouped.groupStep inherited).
Local Abbreviation groupSources := (Grouped.groupSources inherited).

Lemma grouped_groupSources_app (l1 l2 : list Grouped.TaggedSource) :
  forall o,
    groupSources (l1 ++ l2) o
    = match groupSources l1 o with
      | Fulfilled o' => groupSources l2 o'
      | Rejected e => Rejected e
      end.
Proof.
  induction l1 as [| s l1 IH]; intros o; [reflexivity |].
  cbn [app Grouped.groupSources].
  destruct (groupStep o s); [apply IH | reflexivity].
Qed.

(** The sources of one array, once its group exists. *)
Lemma grouped_groupSources_same (name : jsstring) (l : list Source) :
  forall (o : list (jsstring * list Grouped.TaggedSource))
         (group : list Grouped.TaggedSource),
    name ∉ map fst o ->
    groupSources
      (map (fun s => {| Grouped.tagged := s;
                        Grouped.sourceIdentifier := name |}) l)
      (o ++ [(name, group)])
    = Fulfilled
        (o ++ [(name,
                group ++ map (fun s => {| Grouped.tagged := s;
                                          Grouped.sourceIdentifier := name |})
                           l)]).
Proof.
  induction l as [| s l IH]; intros o group Hnot.
  - cbn. rewrite app_nil_r. reflexivity.
  - cbn [map Grouped.groupSources]. unfold Grouped.groupStep at 1.
    cbn [Grouped.sourceIdentifier].
    destruct (obj_lookup_last name group o Hnot) as (-> & _ & -> & _).
    rewrite IH by exact Hnot. rewrite <- app_assoc. reflexivity.
Qed.

(** The arrays of the file, one after the other. *)
Lemma grouped_groupSources_entries
    (sourcesJson : list (jsstring * option (list Source))) :
  forall o : list (jsstring * list Grouped.TaggedSource),
    NoDup (map fst o ++ map fst sourcesJson) ->
    match groupSources (Grouped.loadSources sourcesJson) o with
    | Fulfilled sourcesByGroup =>
        sourcesByGroup
        = o ++ omap (fun e =>
                       match snd e with
                       | Some (s :: l) =>
                           Some (fst e,
                                 map (fun s =>
                                        {| Grouped.tagged := s;
                                           Grouped.sourceIdentifier := fst e |})
                                   (s :: l))
                       | _ => None
                       end) sourcesJson /\
        Forall (fun e => match snd e with
                         | Some (s :: l) => inherited (fst e) = false
                         | _ => True
                         end) sourcesJson
    | Rejected _ =>
        Exists (fun e => match snd e with
                         | Some (s :: l) => inherited (fst e) = true
                         | _ => False
                         end) sourcesJson
    end.
Proof.
  induction sourcesJson as [| [name array] rest IH]; intros o Hnd.
  - cbn. rewrite app_nil_r. split; [reflexivity | constructor].
  - rewrite grouped_loadSources_cons, grouped_groupSources_app.
    cbn [map fst] in Hnd.
    assert (Hname : name ∉ map fst o).
    { apply NoDup_app in Hnd as (_ & Hdis & _). intros Hin.
      apply (Hdis name Hin). apply elem_of_cons. left. reflexivity. }
    destruct array as [[| s l] |];
      cbn [default from_option Datatypes.id map Grouped.groupSources].
    + specialize (IH o).
      assert (Hnd' : NoDup (map fst o ++ map fst rest)).
      { apply NoDup_app in Hnd as (H1 & H2 & H3).
        apply NoDup_app. split; [exact H1 |]. split.
        - intros x Hx Hx'. apply (H2 x Hx). apply elem_of_cons. right. exact Hx'.
        - apply NoDup_cons in H3 as [_ H3]. exact H3. }
      specialize (IH Hnd').
      destruct (groupSources (Grouped.loadSources rest) o).
      * destruct IH as [-> Hall]. cbn [omap list_omap snd]. split; [reflexivity |].
        constructor; [exact I | exact Hall].
      * apply Exists_cons_tl. exact IH.
    + unfold Grouped.groupStep at 1. cbn [Grouped.sourceIdentifier].
      destruct (obj_lookup_last name [] o Hname) as (_ & -> & _ & Hset).
      destruct (inherited name) eqn:Einh.
      * apply Exists_cons_hd. exact Einh.
      * rewrite Hset.
        rewrite (grouped_groupSources_same name l o _ Hname).
        cbn [app].
        specialize (IH (o ++ [(name,
                               {| Grouped.tagged := s;
                                  Grouped.sourceIdentifier := name |}
                               :: map (fun s0 =>
                                         {| Grouped.tagged := s0;
                                            Grouped.sourceIdentifier := name |})
                                    l)])).
        assert (Hnd' : NoDup (map fst (o ++ [(name,
                               {| Grouped.tagged := s;
                                  Grouped.sourceIdentifier := name |}
                               :: map (fun s0 =>
                                         {| Grouped.tagged := s0;
                                            Grouped.sourceIdentifier := name |})
                                    l)]) ++ map fst rest)).
        { rewrite map_app. cbn [map fst]. rewrite <- app_assoc. exact Hnd. }
        specialize (IH Hnd').
        destruct (groupSources (Grouped.loadSources rest) _).
        -- destruct IH as [-> Hall]. cbn [omap list_omap snd fst].
           rewrite <- app_assoc. split; [reflexivity |].
           constructor; [exact Einh | exact Hall].
        -- apply Exists_cons_tl. exact IH.
    + specialize (IH o).
      assert (Hnd' : NoDup (map fst o ++ map fst rest)).
      { apply NoDup_app in Hnd as (H1 & H2 & H3).
        apply NoDup_app. split; [exact H1 |]. split.
        - intros x Hx Hx'. apply (H2 x Hx). apply elem_of_cons. right. exact Hx'.
        - apply NoDup_cons in H3 as [_ H3]. exact H3. }
      specialize (IH Hnd').
      destruct (groupSources (Grouped.loadSources rest) o).
      * destruct IH as [-> Hall]. cbn [omap list_omap snd]. split; [reflexivity |].
        constructor; [exact I | exact Hall].
      * apply Exists_cons_tl. exact IH.
Qed.

(** X28. The names of the file being pairwise different, the groups are
    the non-empty arrays of the sources file in the order of the file,
    each holding its sources in their order with the name of the array
    as identifier; the groups are crawled in the order of
    [Object.entries], which lists each group once, and in the order of
    the file when no name is an array index.  Grouping only fails, with
    a TypeError, when a non-empty array bears a name that
    [Object.prototype] has. *)
Theorem grouped_sources_by_group
    (sourcesJson : list (jsstring * option (list Source))) :
  NoDup (map fst sourcesJson) ->
  match groupSources (Grouped.loadSources sourcesJson) [] with
  | Fulfilled sourcesByGroup =>
      sourcesByGroup
      = omap (fun e =>
                match snd e with
                | Some (s :: l) =>
                    Some (fst e,
                          map (fun s =>
                                 {| Grouped.tagged := s;
                                    Grouped.sourceIdentifier := fst e |})
                            (s :: l))
                | _ => None
                end) sourcesJson /\
      Forall (fun e => match snd e with
                       | Some (s :: l) => inherited (fst e) = false
                       | _ => True
                       end) sourcesJson /\
      own_entries sourcesByGroup ≡ₚ sourcesByGroup /\
      (Forall (fun e => array_index (fst e) = None) sourcesByGroup ->
       own_entries sourcesByGroup = sourcesByGroup)
  | Rejected _ =>
      Exists (fun e => match snd e with
                       | Some (s :: l) => inherited (fst e) = true
                       | _ => False
                       end) sourcesJson
  end.
Proof.
  intros Hnd.
  pose proof (grouped_groupSources_entries sourcesJson [] Hnd) as H.
  destruct (groupSources (Grouped.loadSources sourcesJson) [])
    as [sourcesByGroup | e]; [| exact H].
  destruct H as [Heq Hall]. cbn [app] in Heq.
  split; [exact Heq |]. split; [exact Hall |].
  split; [apply own_entries_perm | apply own_entries_named].
Qed.

End GroupedSources.

(** ** A grouped run *)


Lemma obj_set_Forall {V : Type} (P : jsstring * V -> Prop) (key : jsstring)
    (v : V) (o : list (jsstring * V)) :
  Forall P o -> P (key, v) -> Forall P (obj_set key v o).
Proof.
  intros Ho Hv. induction Ho as [| [k x] o Hx Ho IH].
  - cbn. constructor; [exact Hv | constructor].
  - cbn [obj_set]. destruct (bool_decide (k = key)) eqn:E.
    + apply bool_decide_eq_true in E. subst k.
      constructor; [exact Hv | exact Ho].
    + constructor; [exact Hx | exact IH].
Qed.

Section GroupedRun.

Variable url_hostname : jsstring -> option jsstring.
Variable toLowerCase : jsstring -> jsstring.
Variable inherited : jsstring -> bool.

Local Abbreviation crawlFeed := (Grouped.crawlFeed url_hostname).
Local Abbreviation crawlGroupSources :=
  (Grouped.crawlGroupSources url_hostname).
Local Abbreviation removeDuplicates := (Grouped.removeDuplicates toLowerCase).
Local Abbreviation crawlGroups :=
  (Grouped.crawlGroups url_hostname toLowerCase).
Local Abbreviation crawlAllSources :=
  (Grouped.crawlAllSources url_hostname toLowerCase inherited).
Local Abbreviation key_of :=
  (fun a : Grouped.AuthoredArticle =>
     dedupKey toLowerCase (title (Grouped.article a))).

Lemma grouped_crawlFeed_returns (s : Source)
    (feed : nat -> option (list Grouped.Item))
    (clock : nat -> nat -> ItemClock) (stats : Grouped.Stats) :
  exists articles stats',
    crawlFeed s feed clock stats
    = Fulfilled (Grouped.Returned articles stats') /\
    Grouped.failed stats' = Grouped.failed stats.
Proof.
  assert (Hattempt : forall r feed_items,
             exists articles stats',
               Grouped.crawlItems url_hostname s (clock r) O
                 (take Grouped.itemLimit feed_items) [] stats
               = (articles, stats') /\
               Grouped.failed stats' = Grouped.failed stats).
  { intros r feed_items.
    destruct (grouped_crawlItems_inv url_hostname s (clock r)
                (take Grouped.itemLimit feed_items) O [] stats)
      as (new & _ & Hfail & _).
    destruct (Grouped.crawlItems url_hostname s (clock r) O
                (take Grouped.itemLimit feed_items) [] stats)
      as [articles stats'].
    exists articles, stats'. split; [reflexivity | exact Hfail]. }
  unfold crawlFeed, Grouped.maxRetries. cbn [Grouped.crawlFeed_loop].
  destruct (feed 0%nat) as [items0 |].
  { destruct (Hattempt 0%nat items0) as (articles & stats' & -> & Hfail).
    exists articles, stats'. split; [reflexivity | exact Hfail]. }
  cbn [Nat.leb]. destruct (feed 1%nat) as [items1 |].
  { destruct (Hattempt 1%nat items1) as (articles & stats' & -> & Hfail).
    exists articles, stats'. split; [reflexivity | exact Hfail]. }
  cbn [Nat.leb]. destruct (feed 2%nat) as [items2 |].
  { destruct (Hattempt 2%nat items2) as (articles & stats' & -> & Hfail).
    exists articles, stats'. split; [reflexivity | exact Hfail]. }
  cbn [Nat.leb]. exists [], stats. split; reflexivity.
Qed.

(** The crawl of the sources of a group never rejects, and never counts
    a failure. *)
Lemma grouped_crawlGroupSources_fulfilled (w : Grouped.World) (k : nat)
    (groupSources : list Grouped.TaggedSource) :
  forall (j : nat) (allArticles : list Grouped.AuthoredArticle)
         (crawlStats : Grouped.Stats),
  exists articles stats',
    crawlGroupSources w k j groupSources allArticles crawlStats
    = Fulfilled (articles, stats') /\
    Grouped.failed stats' = Grouped.failed crawlStats.
Proof.
  induction groupSources as [| s rest IH]; intros j allArticles crawlStats.
  - exists allArticles, crawlStats. split; reflexivity.
  - cbn [Grouped.crawlGroupSources].
    destruct (grouped_crawlFeed_returns (Grouped.tagged s)
                (Grouped.feedAt w k j) (Grouped.clockAt w k j) crawlStats)
      as (articles & stats' & -> & Hfail).
    cbn [Grouped.settle].
    destruct (IH (S j) (allArticles ++ articles) stats')
      as (all & stats'' & -> & Hfail').
    exists all, stats''. split; [reflexivity | congruence].
Qed.

Lemma grouped_removeDuplicates_fold (articles : list Grouped.AuthoredArticle) :
  forall (unique : list Grouped.AuthoredArticle) (seen : gset (list Z)),
  exists kept,
    fst (fold_left (Grouped.removeDuplicates_step toLowerCase) articles
           (unique, seen))
    = unique ++ kept /\
    kept `sublist_of` articles /\
    NoDup (key_of <$> kept) /\
    (forall b, b ∈ kept -> key_of b ∉ seen).
Proof.
  induction articles as [| a rest IH]; intros unique seen.
  - exists []. simpl. rewrite app_nil_r.
    split; [reflexivity |]. split; [constructor |]. split; [constructor |].
    intros x Hx. inversion Hx.
  - cbn [fold_left]. unfold Grouped.removeDuplicates_step at 2.
    destruct (decide (dedupKey toLowerCase (title (Grouped.article a)) ∈ seen))
      as [Hin | Hnotin].
    + destruct (IH unique seen) as (kept & Heq & Hsub & Hnd & Hfirst).
      exists kept. split; [exact Heq |].
      split; [apply sublist_cons, Hsub |]. split; [exact Hnd | exact Hfirst].
    + destruct (IH (unique ++ [a])
                  (seen ∪ {[dedupKey toLowerCase (title (Grouped.article a))]}))
        as (kept & Heq & Hsub & Hnd & Hfirst).
      exists (a :: kept). split; [rewrite Heq, <- app_assoc; reflexivity |].
      split; [apply sublist_skip, Hsub |]. split.
      * rewrite fmap_cons. apply NoDup_cons. split; [| exact Hnd].
        intros Hk. apply list_elem_of_fmap in Hk as (b & Hkb & Hb).
        apply (Hfirst b Hb). rewrite <- Hkb. apply elem_of_union. right.
        apply elem_of_singleton. reflexivity.
      * intros b Hb. apply elem_of_cons in Hb as [-> | Hb]; [exact Hnotin |].
        intros Hs. apply (Hfirst b Hb), elem_of_union. left. exact Hs.
Qed.

Lemma grouped_removeDuplicates_NoDup (articles : list Grouped.AuthoredArticle) :
  NoDup (key_of <$> removeDuplicates articles) /\
  removeDuplicates articles `sublist_of` articles.
Proof.
  unfold Grouped.removeDuplicates.
  destruct (grouped_removeDuplicates_fold articles [] ∅)
    as (kept & -> & Hsub & Hnd & _).
  cbn [app]. split; assumption.
Qed.

(** One turn of the loop over the groups. *)
Lemma grouped_crawlGroups_cons (w : Grouped.World) (disk : Grouped.Disk)
    (groupName : jsstring) (groupSources : list Grouped.TaggedSource)
    (rest : list (jsstring * list Grouped.TaggedSource)) (k : nat)
    (allGroupResults : list (jsstring * Grouped.GroupResult))
    (written : list (Grouped.Path * Grouped.FileDoc)) :
  crawlGroups w k ((groupName, groupSources) :: rest) allGroupResults disk
    written
  = match crawlGroupSources w k O groupSources []
            {| Grouped.totalProcessed := 0; Grouped.filtered := 0;
               Grouped.failed := 0 |} with
    | Rejected e => (Rejected e, written)
    | Fulfilled (allArticles, crawlStats) =>
        let uniqueArticles :=
          js_sort Grouped.newestFirst (removeDuplicates allArticles) in
        let filepath :=
          Grouped.GroupRaw groupName
            (Grouped.utcHour (Grouped.groupStampNow w k)) in
        match Grouped.mkdir_error disk groupName with
        | Some e => (Rejected e, written)
        | None =>
            match Grouped.write_error disk filepath with
            | Some e => (Rejected e, written)
            | None =>
                crawlGroups w (S k) rest
                  (obj_set groupName
                     {| Grouped.gr_articles := uniqueArticles;
                        Grouped.gr_stats := crawlStats;
                        Grouped.gr_filepath := filepath |}
                     allGroupResults)
                  disk
                  (written
                   ++ [(filepath,
                        Grouped.GroupDoc
                          {| Grouped.go_crawledAt :=
                               Instant (Grouped.groupCrawledNow w k);
                             Grouped.sourceGroup := groupName;
                             Grouped.go_totalSources := length groupSources;
                             Grouped.go_totalArticles := length uniqueArticles;
                             Grouped.go_articles := uniqueArticles |})])
            end
        end
    end.
Proof.
  cbn [Grouped.crawlGroups].
  unfold Grouped.bind, Grouped.await, Grouped.mkdir, Grouped.writeFile,
    Grouped.ret, Grouped.throw.
  destruct (crawlGroupSources w k O groupSources [] _)
    as [[allArticles crawlStats] | e]; [| reflexivity].
  cbv zeta.
  destruct (Grouped.mkdir_error disk groupName); [reflexivity |].
  destruct (Grouped.write_error disk _); reflexivity.
Qed.

(** What the loop over the groups has written, and the results it
    hands on, when it started with [written] and [allGroupResults]. *)
Lemma grouped_crawlGroups_run (w : Grouped.World) (disk : Grouped.Disk)
    (groups : list (jsstring * list Grouped.TaggedSource)) :
  forall (k : nat) (allGroupResults : list (jsstring * Grouped.GroupResult))
         (written : list (Grouped.Path * Grouped.FileDoc)),
  exists n files,
    snd (crawlGroups w k groups allGroupResults disk written)
    = written ++ files /\
    (n <= length groups)%nat /\
    map fst files
    = imap (fun i g => Grouped.GroupRaw (fst g)
                         (Grouped.utcHour (Grouped.groupStampNow w (k + i)%nat)))
        (take n groups) /\
    Forall (fun f => exists d,
                snd f = Grouped.GroupDoc d /\
                NoDup (key_of <$> Grouped.go_articles d) /\
                Grouped.go_totalArticles d = length (Grouped.go_articles d))
      files /\
    match fst (crawlGroups w k groups allGroupResults disk written) with
    | Fulfilled results =>
        n = length groups /\
        forall P : jsstring * Grouped.GroupResult -> Prop,
          Forall P allGroupResults ->
          (forall name r d,
              Grouped.failed (Grouped.gr_stats r) = 0%nat ->
              NoDup (key_of <$> Grouped.gr_articles r) ->
              (Grouped.gr_filepath r, Grouped.GroupDoc d) ∈ files ->
              Grouped.go_articles d = Grouped.gr_articles r ->
              Grouped.sourceGroup d = name ->
              P (name, r)) ->
          Forall P results
    | Rejected e =>
        exists name sources,
          groups !! n = Some (name, sources) /\
          (Grouped.mkdir_error disk name = Some e \/
           Grouped.write_error disk
             (Grouped.GroupRaw name
                (Grouped.utcHour (Grouped.groupStampNow w (k + n)%nat)))
           = Some e)
    end.
Proof.
  induction groups as [| [groupName groupSources] rest IH];
    intros k allGroupResults written.
  - exists O, []. cbn. rewrite app_nil_r.
    split; [reflexivity |]. split; [lia |]. split; [reflexivity |].
    split; [constructor |]. split; [reflexivity |].
    intros P HP _. exact HP.
  - rewrite grouped_crawlGroups_cons.
    destruct (grouped_crawlGroupSources_fulfilled w k groupSources O []
                {| Grouped.totalProcessed := 0; Grouped.filtered := 0;
                   Grouped.failed := 0 |})
      as (allArticles & crawlStats & -> & Hfail).
    cbn [Grouped.failed] in Hfail. cbv zeta.
    destruct (Grouped.mkdir_error disk groupName) as [e |] eqn:Emk.
    { exists O, []. cbn [fst snd take imap map]. rewrite app_nil_r.
      split; [reflexivity |]. split; [lia |]. split; [reflexivity |].
      split; [constructor |].
      exists groupName, groupSources. split; [reflexivity |]. left. exact Emk. }
    destruct (Grouped.write_error disk _) as [e |] eqn:Ewr.
    { exists O, []. cbn [fst snd take imap map]. rewrite app_nil_r.
      split; [reflexivity |]. split; [lia |]. split; [reflexivity |].
      split; [constructor |].
      exists groupName, groupSources. split; [reflexivity |]. right.
      rewrite Nat.add_0_r. exact Ewr. }
    match goal with
    | |- context [crawlGroups w (S k) rest ?acc disk ?wr] =>
        destruct (IH (S k) acc wr) as (n & files & Hw & Hn & Hpaths & Hdocs & Hres)
    end.
    destruct (grouped_removeDuplicates_NoDup allArticles) as [Hnd _].
    set (unique := js_sort (Grouped.newestFirst)
                     (removeDuplicates allArticles)) in *.
    assert (Hndu : NoDup (key_of <$> unique)).
    { unfold unique. rewrite (js_sort_perm _ (removeDuplicates allArticles)).
      exact Hnd. }
    eexists (S n), (_ :: files).
    split; [rewrite Hw, <- app_assoc; reflexivity |].
    split; [cbn [length]; lia |].
    split.
    { cbn [take map fst imap]. rewrite Nat.add_0_r. f_equal.
      rewrite Hpaths. apply imap_ext. intros i x _. cbn.
      rewrite Nat.add_succ_r. reflexivity. }
    split.
    { constructor; [| exact Hdocs]. eexists. split; [reflexivity |].
      cbn [Grouped.go_articles Grouped.go_totalArticles].
      split; [exact Hndu | reflexivity]. }
    destruct (fst (crawlGroups w (S k) rest _ disk _)) as [results | e].
    + destruct Hres as [-> Hres]. split; [reflexivity |].
      intros P HP Hgood. apply Hres.
      * apply obj_set_Forall; [exact HP |].
        eapply Hgood;
          [exact Hfail | exact Hndu | apply elem_of_cons; left; reflexivity
          | reflexivity | reflexivity].
      * intros name r d H1 H2 H3 H4 H5.
        eapply Hgood; [exact H1 | exact H2 | | exact H4 | exact H5].
        apply elem_of_cons. right. exact H3.
    + destruct Hres as (name & sources & Hlook & Herr).
      exists name, sources. split; [exact Hlook |].
      rewrite Nat.add_succ_r. exact Herr.
Qed.

(** A run, step by step. *)
Lemma grouped_crawlAllSources_run (w : Grouped.World) (disk : Grouped.Disk) :
  Grouped.run (crawlAllSources w) disk
  = match Grouped.sourcesFile w with
    | Rejected e => (Rejected e, [])
    | Fulfilled sourcesJson =>
        match Grouped.groupSources inherited
                (Grouped.loadSources sourcesJson) [] with
        | Rejected e => (Rejected e, [])
        | Fulfilled sourcesByGroup =>
            match crawlGroups w O (own_entries sourcesByGroup) [] disk [] with
            | (Rejected e, written) => (Rejected e, written)
            | (Fulfilled results, written) =>
                let allCombinedArticles :=
                  js_sort Grouped.newestFirst
                    (concat (map (fun result => Grouped.gr_articles (snd result))
                               (own_entries results))) in
                match Grouped.write_error disk Grouped.LatestRaw with
                | Some e => (Rejected e, written)
                | None =>
                    (Fulfilled results,
                     written
                     ++ [(Grouped.LatestRaw,
                          Grouped.CombinedDoc
                            {| Grouped.co_crawledAt :=
                                 Instant (Grouped.combinedNow w);
                               Grouped.totalSourceGroups :=
                                 length (own_entries results);
                               Grouped.co_totalSources :=
                                 length (Grouped.loadSources sourcesJson);
                               Grouped.co_totalArticles :=
                                 length allCombinedArticles;
                               Grouped.co_articles := allCombinedArticles |})])
                end
            end
        end
    end.
Proof.
  unfold Grouped.run, Grouped.crawlAllSources.
  unfold Grouped.bind at 1, Grouped.await at 1.
  destruct (Grouped.sourcesFile w) as [sourcesJson | e]; [| reflexivity].
  unfold Grouped.ret at 1. cbv zeta.
  unfold Grouped.bind at 1, Grouped.await at 1.
  destruct (Grouped.groupSources inherited _ []) as [sourcesByGroup | e];
    [| reflexivity].
  unfold Grouped.ret at 1.
  unfold Grouped.bind at 1.
  destruct (crawlGroups w O (own_entries sourcesByGroup) [] disk [])
    as [[results | e] written]; [| reflexivity].
  unfold Grouped.bind, Grouped.writeFile, Grouped.ret.
  destruct (Grouped.write_error disk Grouped.LatestRaw); reflexivity.
Qed.


(** X30. A run that rejects never writes [latest-raw.json], and what it
    has written tells how far it came: nothing, when the sources file
    could not be read or a group bears a name of [Object.prototype];
    otherwise the files of the groups crawled before the one whose
    directory or file could not be written, or the files of all groups
    when writing the combined file failed.  A feed that fails never
    makes the run reject. *)
Theorem grouped_crawl_rejected (w : Grouped.World) (disk : Grouped.Disk)
    (e : Error) (written : list (Grouped.Path * Grouped.FileDoc)) :
  Grouped.run (crawlAllSources w) disk = (Rejected e, written) ->
  Forall (fun f => fst f <> Grouped.LatestRaw) written /\
  ((Grouped.sourcesFile w = Rejected e /\ written = []) \/
   (exists sourcesJson,
       Grouped.sourcesFile w = Fulfilled sourcesJson /\
       Grouped.groupSources inherited (Grouped.loadSources sourcesJson) []
       = Rejected e /\
       written = []) \/
   (exists sourcesJson sourcesByGroup n,
       Grouped.sourcesFile w = Fulfilled sourcesJson /\
       Grouped.groupSources inherited (Grouped.loadSources sourcesJson) []
       = Fulfilled sourcesByGroup /\
       map fst written
       = imap (fun k g => Grouped.GroupRaw (fst g)
                            (Grouped.utcHour (Grouped.groupStampNow w k)))
           (take n (own_entries sourcesByGroup)) /\
       ((exists name sources,
            own_entries sourcesByGroup !! n = Some (name, sources) /\
            (Grouped.mkdir_error disk name = Some e \/
             Grouped.write_error disk
               (Grouped.GroupRaw name
                  (Grouped.utcHour (Grouped.groupStampNow w n)))
             = Some e)) \/
        (n = length (own_entries sourcesByGroup) /\
         Grouped.write_error disk Grouped.LatestRaw = Some e)))).
Proof.
  rewrite grouped_crawlAllSources_run.
  destruct (Grouped.sourcesFile w) as [sourcesJson | e0].
  2: { intros H. injection H as -> <-.
       split; [constructor | left; split; reflexivity]. }
  destruct (Grouped.groupSources inherited _ []) as [sourcesByGroup | e0] eqn:Eg.
  2: { intros H. injection H as -> <-.
       split; [constructor |]. right. left.
       exists sourcesJson. split; [reflexivity |]. split; [exact Eg | reflexivity]. }
  destruct (grouped_crawlGroups_run w disk (own_entries sourcesByGroup) O [] [])
    as (n & files & Hw & Hn & Hpaths & Hdocs & Hres).
  cbn [Nat.add] in Hpaths, Hres.
  assert (Hgroup : Forall (fun f : Grouped.Path * Grouped.FileDoc =>
                             fst f <> Grouped.LatestRaw) files).
  { apply Forall_forall. intros f Hf Heq.
    apply (list_elem_of_fmap_2 fst) in Hf. rewrite Heq in Hf.
    change (fst <$> files) with (map fst files) in Hf. rewrite Hpaths in Hf.
    apply elem_of_lookup_imap in Hf as (i & g & Hg & _). discriminate Hg. }
  destruct (crawlGroups w O (own_entries sourcesByGroup) [] disk [])
    as [[results' | e0] written'].
  - cbn [fst snd app] in Hw, Hres. subst written'.
    destruct Hres as [-> _]. cbv zeta.
    destruct (Grouped.write_error disk Grouped.LatestRaw) as [e1 |] eqn:Ew;
      [| discriminate].
    intros H. injection H as -> <-.
    split; [exact Hgroup |]. right. right.
    exists sourcesJson, sourcesByGroup, (length (own_entries sourcesByGroup)).
    split; [reflexivity |]. split; [exact Eg |].
    split; [exact Hpaths |].
    right. split; reflexivity.
  - cbn [fst snd app] in Hw, Hres. subst written'.
    intros H. injection H as -> <-.
    split; [exact Hgroup |]. right. right.
    exists sourcesJson, sourcesByGroup, n.
    split; [reflexivity |]. split; [exact Eg |]. split; [exact Hpaths |].
    left. destruct Hres as (name & sources & Hlook & Herr).
    exists name, sources. split; [exact Hlook | exact Herr].
Qed.

End GroupedRun.

(** ** Concrete runs of the grouped crawler *)

(** The first attempt throws, the second gets the feed. *)
Lemma grouped_crawlFeed_retries_witness :
  let item := authored_item "AI wins" "https://a.com/x" "Ann"
                (Instant (sample_now - day_ms)) in
  let feed := fun r : nat => if (r =? 1)%nat then Some [item] else None in
  let clock := fun _ _ : nat => frozen_item_clock sample_now in
  let stats := {| Grouped.totalProcessed := 0; Grouped.filtered := 0;
                  Grouped.failed := 0 |} in
  exists articles stats',
    Grouped.crawlFeed plain_hostname (source_of "Feed" "news") feed clock stats
    = Fulfilled (Grouped.Returned articles stats') /\
    map (fun a => title (Grouped.article a)) articles = [u16 "AI wins"] /\
    Grouped.totalProcessed stats' = 1%nat.
Proof.
  intros item feed clock stats.
  destruct (grouped_crawlFeed_retries plain_hostname (source_of "Feed" "news")
              feed clock stats)
    as (articles & stats' & Heq & _ & _ & Hfirst & _).
  exists articles, stats'. split; [exact Heq |].
  assert (H : (articles, stats')
              = Grouped.crawlItems plain_hostname (source_of "Feed" "news")
                  (clock 1%nat) O (take 2 [item]) [] stats).
  { apply Hfirst; [lia | reflexivity |].
    intros r' Hr'. destruct r' as [| r']; [reflexivity | lia]. }
  vm_compute in H. injection H as -> ->. split; vm_compute; reflexivity.
Defined.

(** A file with one array of two sources, an empty array and a value
    that is not an array. *)
Lemma grouped_sources_by_group_witness :
  let sourcesJson :=
    [(u16 "blogs", Some [source_of "A" "news"; source_of "B" "news"]);
     (u16 "empty", Some []);
     (u16 "version", None)] in
  exists sourcesByGroup,
    Grouped.groupSources prototype_property
      (Grouped.loadSources sourcesJson) []
    = Fulfilled sourcesByGroup /\
    map (fun g => (fst g, length (snd g))) sourcesByGroup
    = [(u16 "blogs", 2%nat)] /\
    own_entries sourcesByGroup = sourcesByGroup.
Proof.
  intros sourcesJson.
  pose proof (grouped_sources_by_group prototype_property sourcesJson
                ltac:(apply (bool_decide_unpack _); vm_compute; exact I)) as H.
  destruct (Grouped.groupSources prototype_property
              (Grouped.loadSources sourcesJson) [])
    as [sourcesByGroup | e] eqn:E; [| vm_compute in E; discriminate].
  exists sourcesByGroup. split; [reflexivity |].
  destruct H as (Hg & _ & _ & Hnamed).
  split; [rewrite Hg; reflexivity |].
  apply Hnamed. rewrite Hg. repeat constructor.
Defined.


(** The combined file cannot be written. *)
Lemma grouped_crawl_rejected_witness :
  let item := authored_item "AI wins" "https://a.com/x" "Ann"
                (Instant (sample_now - day_ms)) in
  let w := grouped_world [(u16 "blogs", Some [source_of "A" "news"])]
             (fun _ => Some [item]) sample_now in
  let disk :=
    {| Grouped.mkdir_error := fun _ => None;
       Grouped.write_error :=
         fun p => match p with
                  | Grouped.LatestRaw => Some "EIO"%string
                  | _ => None
                  end |} in
  exists written,
    Grouped.run (Grouped.crawlAllSources plain_hostname ascii_toLowerCase
                   prototype_property w) disk
    = (Rejected "EIO"%string, written) /\
    length written = 1%nat /\
    Forall (fun f => fst f <> Grouped.LatestRaw) written.
Proof.
  intros item w disk.
  destruct (Grouped.run (Grouped.crawlAllSources plain_hostname
                           ascii_toLowerCase prototype_property w) disk)
    as [[results | e] written] eqn:E; [vm_compute in E; discriminate |].
  assert (He : e = "EIO"%string /\ length written = 1%nat).
  { pose proof E as E'. vm_compute in E'. injection E' as <- <-.
    split; reflexivity. }
  destruct He as [-> Hlen].
  exists written. split; [reflexivity |]. split; [exact Hlen |].
  destruct (grouped_crawl_rejected plain_hostname ascii_toLowerCase
              prototype_property w disk "EIO"%string written E) as [H _].
  exact H.
Defined.

(** ** The rules on sample titles *)

(** The pattern of the model releases asks for whole words: a version
    number must follow the hyphen, and a letter after the digits, or
    before the name, spoils the match. *)
Example word_boundaries :
  matches_word [LitDigits "gpt-"] (u16 "a gpt-45.") = true /\
  matches_word [LitDigits "gpt-"] (u16 "gpt-4o") = false /\
  matches_word [LitDigits "gpt-"] (u16 "xgpt-4") = false /\
  matches_word [Lit "art"] (u16 "state of the art") = true /\
  matches_word [Lit "art"] (u16 "smart") = false /\
  matches_word [Lit "art"] (u16 "art_work") = false.
Proof. vm_compute. repeat split; reflexivity. Qed.

Example classifyCategory_samples :
  map (fun t => classifyCategory ascii_toLowerCase (u16 t) (u16 "Blog"))
    ["OpenAI ships GPT-5"; "New models compared"; "A study of agents";
     "How to cook"]%string
  = [ {| res_category := u16 "model-release";
         res_confidence := Num double_0_85 |};
      {| res_category := u16 "industry-news";
         res_confidence := Num double_0_6 |};
      {| res_category := u16 "research-paper";
         res_confidence := Num double_0_9 |};
      {| res_category := u16 "tutorial-guide";
         res_confidence := Num double_0_8 |} ].
Proof. vm_compute. reflexivity. Qed.

(** Each of the seven categories of the rules is the answer for some
    title. *)
Example classifyCategory_seven :
  map (fun t => res_category
                  (classifyCategory ascii_toLowerCase (u16 t) (u16 "Blog")))
    ["Claude grows"; "A new paper"; "An SDK for all"; "One agent more";
     "A guide for you"; "Video for all"; "Markets today"]%string
  = map u16 ["model-release"; "research-paper"; "developer-tool";
             "ai-agents"; "tutorial-guide"; "creative-ai";
             "industry-news"]%string.
Proof. vm_compute. reflexivity. Qed.

(** A category met again later keeps the place of its first
    occurrence. *)
Example distinct_first_occurrences :
  distinct [] (map u16 ["b"; "a"; "b"; "c"; "a"]%string)
  = map u16 ["b"; "a"; "c"]%string.
Proof. vm_compute. reflexivity. Qed.

(** Four entries of an attempt of the grouped crawler: one kept, one
    without a title, one with a date that cannot be read, one older
    than fifteen days.  Three are counted as processed, one of them as
    filtered, one is pushed. *)
Example grouped_crawlItems_sample :
  let items :=
    [authored_item "AI wins" "https://a.com/x" "Ann"
       (Instant (sample_now - day_ms));
     authored_item "" "https://a.com/y" "Bob" (Instant sample_now);
     authored_item "GPT news" "https://a.com/z" "Cid" Unparseable;
     authored_item "Old news" "https://a.com/o" "Dan"
       (Instant (sample_now - 16 * day_ms))] in
  let out :=
    Grouped.crawlItems plain_hostname (source_of "Feed" "news")
      (fun _ => frozen_item_clock sample_now) O items []
      {| Grouped.totalProcessed := 0; Grouped.filtered := 0;
         Grouped.failed := 0 |} in
  map (fun a => title (Grouped.article a)) (fst out) = [u16 "AI wins"] /\
  snd out = {| Grouped.totalProcessed := 3; Grouped.filtered := 1;
               Grouped.failed := 0 |}.
Proof. vm_compute. split; reflexivity. Qed.

(** Four technical terms and three entities (of which AI, found inside
    the word training): 3 + 4 + 1.5 rounds to 9. *)
Example calculateDifficulty_sample :
  let title := u16 "Training a neural transformer model" in
  map fst (extractEntities ascii_toLowerCase title)
  = [u16 "Transformer"; u16 "AI"; u16 "Transformer"] /\
  calculateDifficulty ascii_toLowerCase title
    (extractEntities ascii_toLowerCase title) = 9.
Proof. vm_compute. split; reflexivity. Qed.

(** A description that is a bare link is not summarized: the summary
    is the sentence for the topic of the title. *)
Example generateSummary_samples :
  generateSummary ascii_toLowerCase (fun _ => None)
    (u16 "Which model is best?")
    (u16 "https://preview.redd.it/some-picture-of-a-chart-with-a-long-name.png")
    (u16 "reddit") false
  = u16 "Community discussion seeking help or recommendations on AI-related topics." /\
  generateSummary ascii_toLowerCase (fun _ => None)
    (u16 "Release notes")
    (u16 "  The new release brings   faster inference and smaller models to everyone.  ")
    (u16 "Blog") false
  = u16 "The new release brings faster inference and smaller models to everyone.".
Proof. vm_compute. split; reflexivity. Qed.

(** [Object.entries] lists the array indices first, in ascending
    order. *)
Example own_entries_order :
  map fst (own_entries [(u16 "blogs", 1); (u16 "10", 2); (u16 "2", 3);
                        (u16 "007", 4)])
  = [u16 "2"; u16 "10"; u16 "blogs"; u16 "007"].
Proof. vm_compute. reflexivity. Qed.
